(** * Structural scanner of the Nerd4J extension: comments, braces, class tree

    Shallow embedding of [src/parser.ts] and of the classes [TextInterval],
    [Comment] and [JavaClass] of the commons module.

    Conventions of the embedding:
    - a JavaScript string is the list of its UTF-16 code units ([text]);
      [code[i]] is [charAt code i], which is [None] where JavaScript
      yields [undefined];
    - indexes are JavaScript numbers holding integers, modelled as [Z];
    - a function that can throw returns an [outcome]; a loop whose cursor
      can jump is run with fuel, [OutOfFuel] meaning that the fuel given
      was not enough;
    - [JavaClass] objects are mutable and compared by identity: they live
      in a [heap] and are named by references. *)

From Stdlib Require Import ZArith NArith Lia List String Ascii Bool Sorted.
From stdpp Require Import base list list_numbers.
Import ListNotations.

Local Open Scope Z_scope.

(* ================================================================== *)
(** ** Outcomes of fallible computations *)

(** The throw sites of the modelled code. *)
Inductive exn : Type :=
| NegativeStart (startIndex : Z)
| NegativeEnd (endIndex : Z)
| InvertedBounds (startIndex endIndex : Z)
| OutherAlreadySet
| NotAnOutherClass
| NotAnInnerClass
| TypeError.

Inductive outcome (A : Type) : Type :=
| Return (a : A)
| Throw (e : exn)
| OutOfFuel.

Arguments Return {A} a.
Arguments Throw {A} e.
Arguments OutOfFuel {A}.

Definition bind {A B : Type} (m : outcome A) (k : A -> outcome B) : outcome B :=
  match m with
  | Return a => k a
  | Throw e => Throw e
  | OutOfFuel => OutOfFuel
  end.

Notation "x <- m ;; k" := (bind m (fun x => k))
  (at level 100, m at next level, right associativity).

(* ================================================================== *)
(** ** Text *)

(** A UTF-16 code unit. *)
Definition char : Type := N.

Definition text : Type := list char.

Definition slash   : char := 47%N.
Definition star    : char := 42%N.
Definition newline : char := 10%N.
Definition lbrace  : char := 123%N.
Definition rbrace  : char := 125%N.

(** Literals of the examples: one code unit per character. *)
Fixpoint js (s : string) : text :=
  match s with
  | EmptyString => []
  | String a rest => N_of_ascii a :: js rest
  end.

Definition strlen (code : text) : Z := Z.of_nat (length code).

(** [code[i]]. *)
Definition charAt (code : text) (i : Z) : option char :=
  if i <? 0 then None else code !! Z.to_nat i.

(** [code[i] === c]. *)
Definition charIs (code : text) (i : Z) (c : char) : bool :=
  match charAt code i with
  | Some d => N.eqb d c
  | None => false
  end.

(** The class [\s] of ECMAScript regular expressions. *)
Definition isWhitespace (c : char) : bool :=
  ((9 <=? c) && (c <=? 13) || (c =? 32) || (c =? 160) || (c =? 5760)
   || (8192 <=? c) && (c <=? 8202) || (c =? 8232) || (c =? 8233)
   || (c =? 8239) || (c =? 8287) || (c =? 12288) || (c =? 65279))%N.

(** [/\s/.test(code[i])]; [undefined] is tested as the string
    "undefined", which holds no white space. *)
Definition isWhitespaceAt (code : text) (i : Z) : bool :=
  match charAt code i with
  | Some c => isWhitespace c
  | None => false
  end.

(** [String.prototype.slice]. *)
Definition clampIndex (len a : Z) : Z :=
  if a <? 0 then Z.max (len + a) 0 else Z.min a len.

Definition slice (code : text) (a b : Z) : text :=
  let from := clampIndex (strlen code) a in
  let to := clampIndex (strlen code) b in
  take (Z.to_nat (to - from)) (drop (Z.to_nat from) code).

(** [for (i = start; i < start + n; ++i) if (P i) return i] *)
Fixpoint firstFrom (P : Z -> bool) (n : nat) (i : Z) : option Z :=
  match n with
  | O => None
  | S n' => if P i then Some i else firstFrom P n' (i + 1)
  end.

(* ================================================================== *)
(** ** TextInterval *)

Record TextInterval : Type := mkTextInterval {
  startIndex : Z;
  endIndex : Z
}.

(** The private constructor, reached through [TextInterval.of]. *)
Definition TextInterval_of (startIndex endIndex : Z) : outcome TextInterval :=
  if startIndex <? 0 then Throw (NegativeStart startIndex)
  else if endIndex <? 0 then Throw (NegativeEnd endIndex)
  else if endIndex <? startIndex then Throw (InvertedBounds startIndex endIndex)
  else Return (mkTextInterval startIndex endIndex).

Definition TextInterval_size (t : TextInterval) : Z :=
  endIndex t - startIndex t + 1.

Definition liesWithin (this interval : TextInterval) : bool :=
  (startIndex interval <=? startIndex this) && (endIndex this <=? endIndex interval).

Definition includes (this : TextInterval) (index : Z) : bool :=
  (startIndex this <=? index) && (index <=? endIndex this).

(* ================================================================== *)
(** ** Comment *)

Inductive CommentType : Type := singleLine | multiLine | javaDoc.

Definition CommentType_eqb (a b : CommentType) : bool :=
  match a, b with
  | singleLine, singleLine | multiLine, multiLine | javaDoc, javaDoc => true
  | _, _ => false
  end.

Record Comment : Type := mkComment {
  type : CommentType;
  interval : TextInterval
}.

Definition Comment_of (type : CommentType) (startIndex endIndex : Z) : outcome Comment :=
  interval <- TextInterval_of startIndex endIndex ;;
  Return (mkComment type interval).

(* ================================================================== *)
(** ** Comment scanner *)

Definition getCommentType (code : text) (index : Z) : option CommentType :=
  if charIs code index slash then Some singleLine
  else if charIs code index star then
    Some (if charIs code (index + 1) star then javaDoc else multiLine)
  else None.

Definition moveToEndOfLine (code : text) (index : Z) : Z :=
  match firstFrom (fun i => charIs code i newline)
                  (Z.to_nat (strlen code - index)) index with
  | Some i => i
  | None => index
  end.

Definition moveToEndOfComment (code : text) (index : Z) : Z :=
  match firstFrom (fun i => charIs code i star && (i + 1 <? strlen code)
                            && charIs code (i + 1) slash)
                  (Z.to_nat (strlen code - index)) index with
  | Some i => i + 1
  | None => index
  end.

(** One turn of the loop of [findComments]: the comments pushed at [i]. *)
Definition commentsAt (code : text) (i : Z) : outcome (list Comment) :=
  if charIs code i slash && (i + 1 <? strlen code) then
    match getCommentType code (i + 1) with
    | Some singleLine =>
        comment <- Comment_of singleLine i (moveToEndOfLine code (i + 1)) ;;
        Return [comment]
    | Some commentType =>
        comment <- Comment_of commentType i (moveToEndOfComment code (i + 1)) ;;
        Return [comment]
    | None => Return []
    end
  else Return [].

(** The loop of [findComments] from [i], with [n] turns left. *)
Fixpoint findCommentsFrom (code : text) (n : nat) (i : Z) : outcome (list Comment) :=
  match n with
  | O => Return []
  | S n' =>
      pushed <- commentsAt code i ;;
      rest <- findCommentsFrom code n' (i + 1) ;;
      Return (pushed ++ rest)
  end.

Definition findComments (code : text) : outcome (list Comment) :=
  findCommentsFrom code (length code) 0.

(* ================================================================== *)
(** ** Whitespace boundaries and the preceding JavaDoc *)

(** The loop of [includeLeadingWhitespaces]: [i] goes down to 0,
    [n] turns left. *)
Fixpoint leadingLoop (code : text) (n : nat) (i : Z) : Z :=
  match n with
  | O => 0
  | S n' =>
      if negb (isWhitespaceAt code i) then i + 1
      else leadingLoop code n' (i - 1)
  end.

Definition includeLeadingWhitespaces (code : text) (index : Z) : Z :=
  if index <=? 0 then index
  else leadingLoop code (Z.to_nat index) (index - 1).

(** The loop of [includeTrailingWhitespaces]: [i] goes up to the end of
    the text, [n] turns left. *)
Fixpoint trailingLoop (code : text) (n : nat) (i lastNewLineIndex : Z) : Z :=
  match n with
  | O => strlen code - 1
  | S n' =>
      if charIs code i newline then trailingLoop code n' (i + 1) i
      else if negb (isWhitespaceAt code i) then lastNewLineIndex
      else trailingLoop code n' (i + 1) lastNewLineIndex
  end.

Definition includeTrailingWhitespaces (code : text) (index : Z) : Z :=
  if strlen code - 1 <=? index then index
  else trailingLoop code (Z.to_nat (strlen code - index)) index index.

(** [while (i < comments.length && comments[i].interval.endIndex < index)
    comment = comments[i++]], [n] turns left. *)
Fixpoint lastCommentBefore (comments : list Comment) (index : Z)
    (n : nat) (i : nat) (comment : Comment) : Comment :=
  match n with
  | O => comment
  | S n' =>
      match comments !! i with
      | Some next =>
          if endIndex (interval next) <? index
          then lastCommentBefore comments index n' (S i) next
          else comment
      | None => comment
      end
  end.

(** [comments[0]] is [undefined] on an empty list, and reading its
    [interval] throws a [TypeError]. *)
Definition findJavaDoc (code : text) (index : Z) (comments : list Comment)
  : outcome (option Comment) :=
  match comments !! 0%nat with
  | None => Throw TypeError
  | Some first =>
      if index <? endIndex (interval first) then Return None
      else
        let comment :=
          lastCommentBefore comments index (length comments) 1%nat first in
        if negb (CommentType_eqb (type comment) javaDoc) then Return None
        else
          let spaces := slice code (endIndex (interval comment) + 1) index in
          Return (if forallb isWhitespace spaces then Some comment else None)
  end.

Definition includeJavaDoc (code : text) (index : Z) (comments : list Comment)
  : outcome Z :=
  found <- findJavaDoc code index comments ;;
  Return (match found with
          | Some doc => startIndex (interval doc)
          | None => index
          end).

(* ================================================================== *)
(** ** Bracket matcher *)

(** [while (k < comments.length && comments[k].interval.endIndex < index)
    k += 1], [n] turns left. *)
Fixpoint skipCommentsBefore (comments : list Comment) (index : Z)
    (n : nat) (k : nat) : nat :=
  match n with
  | O => k
  | S n' =>
      match comments !! k with
      | Some c =>
          if endIndex (interval c) <? index
          then skipCommentsBefore comments index n' (S k)
          else k
      | None => k
      end
  end.

(** Fuel that a scan of the indexes below [limit] from [i] cannot use up:
    a turn either moves [i] one step forward or consumes a comment. *)
Fixpoint jumpBudget (limit : Z) (comments : list Comment) : nat :=
  match comments with
  | [] => O
  | c :: rest =>
      S (Z.to_nat (limit - endIndex (interval c)) + jumpBudget limit rest)
  end.

Definition scanFuel (limit i : Z) (comments : list Comment) : nat :=
  S (Z.to_nat (limit - i) + jumpBudget limit comments).

(** [if (k < comments.length && i >= comments[k].interval.startIndex)
    { i = comments[k].interval.endIndex; k += 1; }] *)
Definition jumpToCommentEnd (comments : list Comment) (i : Z) (k : nat) : Z * nat :=
  match comments !! k with
  | Some c =>
      if startIndex (interval c) <=? i then (endIndex (interval c), S k)
      else (i, k)
  | None => (i, k)
  end.

(** The [for] loop of [moveToClosingBracket], and the [return index] that
    follows it. *)
Fixpoint closingLoop (fuel : nat) (code : text) (comments : list Comment)
    (index : Z) (i : Z) (k : nat) (scope : Z) : outcome Z :=
  match fuel with
  | O => OutOfFuel
  | S fuel' =>
      if i <? strlen code then
        let '(i, k) := jumpToCommentEnd comments i k in
        if charIs code i lbrace then
          closingLoop fuel' code comments index (i + 1) k (scope + 1)
        else if charIs code i rbrace then
          if scope - 1 =? 0 then Return i
          else closingLoop fuel' code comments index (i + 1) k (scope - 1)
        else closingLoop fuel' code comments index (i + 1) k scope
      else Return index
  end.

Definition moveToClosingBracket (code : text) (index : Z) (comments : list Comment)
  : outcome Z :=
  let k := skipCommentsBefore comments index (length comments) 0%nat in
  closingLoop (scanFuel (strlen code) (index + 1) comments)
              code comments index (index + 1) k 1.

(* ================================================================== *)
(** ** JavaClass *)

(** A reference to a [JavaClass] object. *)
Abbreviation ref := nat (only parsing).

Record JavaClass : Type := mkJavaClass {
  name : string;
  comments : list Comment;
  signatureInterval : TextInterval;
  bodyInterval : TextInterval;
  classInterval : TextInterval;
  innerClasses : list ref;
  outherClass : option ref
}.

(** The store of the [JavaClass] objects; a reference is a position. *)
Abbreviation heap := (list JavaClass) (only parsing).

(** Reading a property of a reference that holds no object. *)
Definition deref (h : heap) (r : ref) : outcome JavaClass :=
  match h !! r with
  | Some c => Return c
  | None => Throw TypeError
  end.

(** The private constructor: the new object and the extended store. *)
Definition JavaClass_new (name : string) (signatureInterval bodyInterval : TextInterval)
    (classComments : list Comment) (h : heap) : outcome (ref * heap) :=
  classInterval <-
    TextInterval_of (startIndex signatureInterval) (endIndex bodyInterval) ;;
  Return (length h,
          h ++ [mkJavaClass name classComments signatureInterval bodyInterval
                            classInterval [] None]).

(** [JavaClass.of] *)
Definition JavaClass_of (name : string) (signatureInterval bodyInterval : TextInterval)
    (allComments : list Comment) (h : heap) : outcome (ref * heap) :=
  let classComments :=
    filter (fun comment => Is_true (liesWithin (interval comment) bodyInterval))
           allComments in
  JavaClass_new name signatureInterval bodyInterval classComments h.

Definition setOutherClass (this outher : ref) (h : heap) : outcome heap :=
  self <- deref h this ;;
  match outherClass self with
  | Some _ => Throw OutherAlreadySet
  | None =>
      out <- deref h outher ;;
      if negb (liesWithin (classInterval self) (bodyInterval out))
      then Throw NotAnOutherClass
      else Return (<[this := mkJavaClass (name self) (comments self)
                               (signatureInterval self) (bodyInterval self)
                               (classInterval self) (innerClasses self)
                               (Some outher)]> h)
  end.

(** The inner class is pushed before [setOutherClass] runs. A throw
    leaves no store: the callers let the exception escape, and the forest
    under construction is lost with it. *)
Definition add (this innerClass : ref) (h : heap) : outcome heap :=
  self <- deref h this ;;
  inner <- deref h innerClass ;;
  if negb (liesWithin (classInterval inner) (bodyInterval self))
  then Throw NotAnInnerClass
  else
    setOutherClass innerClass this
      (<[this := mkJavaClass (name self) (comments self)
                   (signatureInterval self) (bodyInterval self)
                   (classInterval self) (innerClasses self ++ [innerClass])
                   (outherClass self)]> h).

(** The [for] loop of [getScopeOf], and the [return scope] that follows
    it. *)
Fixpoint scopeLoop (fuel : nat) (code : text) (classComments : list Comment)
    (limit : Z) (i : Z) (k : nat) (scope : Z) : outcome Z :=
  match fuel with
  | O => OutOfFuel
  | S fuel' =>
      if i <? limit then
        let examine :=
          if charIs code i lbrace then
            scopeLoop fuel' code classComments limit (i + 1) k (scope + 1)
          else if charIs code i rbrace then
            scopeLoop fuel' code classComments limit (i + 1) k (scope - 1)
          else scopeLoop fuel' code classComments limit (i + 1) k scope in
        match classComments !! k with
        | Some c =>
            if startIndex (interval c) <=? i then
              scopeLoop fuel' code classComments limit
                        (endIndex (interval c) + 1) (S k) scope
            else examine
        | None => examine
        end
      else Return scope
  end.

Definition getScopeOf (this : JavaClass) (index : Z) (code : text) : outcome Z :=
  let k := skipCommentsBefore (comments this) index (length (comments this)) 0%nat in
  let limit := endIndex (bodyInterval this) in
  scopeLoop (scanFuel limit index (comments this))
            code (comments this) limit index k 0.

Definition belongsToAComment (this : JavaClass) (index : Z) : bool :=
  existsb (fun comment => includes (interval comment) index) (comments this).

Fixpoint getScope (fuel : nat) (h : heap) (this : ref) : outcome Z :=
  match fuel with
  | O => OutOfFuel
  | S fuel' =>
      self <- deref h this ;;
      match outherClass self with
      | Some outher =>
          scope <- getScope fuel' h outher ;;
          Return (scope + 1)
      | None => Return 1
      end
  end.

Fixpoint getNameUsedByClassLoader (fuel : nat) (h : heap) (this : ref)
  : outcome string :=
  match fuel with
  | O => OutOfFuel
  | S fuel' =>
      self <- deref h this ;;
      match outherClass self with
      | Some outher =>
          outherName <- getNameUsedByClassLoader fuel' h outher ;;
          Return (outherName ++ "$" ++ name self)%string
      | None => Return (name self)
      end
  end.

(** The loop of [getEnclosingClass] over the inner classes, [pointed]
    being the recursive call. *)
Fixpoint firstPointed (pointed : ref -> outcome (option ref)) (this : ref)
    (inner : list ref) : outcome (option ref) :=
  match inner with
  | [] => Return (Some this)
  | innerClass :: rest =>
      pointedClass <- pointed innerClass ;;
      match pointedClass with
      | Some p => Return (Some p)
      | None => firstPointed pointed this rest
      end
  end.

(** [None] is [null]. *)
Fixpoint getEnclosingClass (fuel : nat) (h : heap) (this : ref) (index : Z)
  : outcome (option ref) :=
  match fuel with
  | O => OutOfFuel
  | S fuel' =>
      self <- deref h this ;;
      if negb (includes (classInterval self) index) then Return None
      else firstPointed (fun innerClass => getEnclosingClass fuel' h innerClass index)
                        this (innerClasses self)
  end.

Definition getInsertIndex (this : JavaClass) (javaFileContent : text) (index : Z)
  : outcome Z :=
  if negb (includes (bodyInterval this) index) then
    Return (endIndex (bodyInterval this))
  else if negb (isWhitespaceAt javaFileContent index) then
    Return (endIndex (bodyInterval this))
  else if belongsToAComment this index then
    Return (endIndex (bodyInterval this))
  else
    scope <- getScopeOf this index javaFileContent ;;
    if negb (scope =? 0) then Return (endIndex (bodyInterval this))
    else Return index.

(* ================================================================== *)
(** ** Class forest builder *)

(** A match of the class pattern: [match.index], [match[0].length] and
    [match[1]]. The matches are an input, as for [findExistingMethod]. *)
Record ClassMatch : Type := mkClassMatch {
  classIndex : Z;
  classLength : Z;
  className : string
}.

(** [while (i < classMatches.length
           && bodyInterval.includes(classMatches[i].index))
      innerClassMatches.push(classMatches[i++])]:
    the matches pushed and the matches left. *)
Fixpoint splitInner (bodyInterval : TextInterval) (classMatches : list ClassMatch)
  : list ClassMatch * list ClassMatch :=
  match classMatches with
  | [] => ([], [])
  | m :: rest =>
      if includes bodyInterval (classIndex m) then
        let '(inner, others) := splitInner bodyInterval rest in
        (m :: inner, others)
      else ([], classMatches)
  end.

(** [for (const innerClass of innerClasses) javaClass.add(innerClass)] *)
Fixpoint addAll (javaClass : ref) (innerClasses : list ref) (h : heap) : outcome heap :=
  match innerClasses with
  | [] => Return h
  | innerClass :: rest =>
      h' <- add javaClass innerClass h ;;
      addAll javaClass rest h'
  end.

(** [parseClasses]: a turn of the outer loop, then the turns that follow
    it. Both recursive calls receive fewer matches, so that fuel above
    the number of matches is enough. *)
Fixpoint parseClasses (fuel : nat) (code : text) (allComments : list Comment)
    (classMatches : list ClassMatch) (h : heap) : outcome (list ref * heap) :=
  match fuel with
  | O => OutOfFuel
  | S fuel' =>
      match classMatches with
      | [] => Return ([], h)
      | classMatch :: rest =>
          let signatureStartIndex := classIndex classMatch in
          let signatureEndIndex :=
            signatureStartIndex + classLength classMatch - 1 in
          let bodyStartIndex := signatureEndIndex + 1 in
          bodyEndIndex <- moveToClosingBracket code bodyStartIndex allComments ;;
          signatureInterval <-
            TextInterval_of signatureStartIndex signatureEndIndex ;;
          bodyInterval <- TextInterval_of bodyStartIndex bodyEndIndex ;;
          created <- JavaClass_of (className classMatch) signatureInterval
                                  bodyInterval allComments h ;;
          let '(inner, others) := splitInner bodyInterval rest in
          parsed <- parseClasses fuel' code allComments inner (snd created) ;;
          h' <- addAll (fst created) (fst parsed) (snd parsed) ;;
          following <- parseClasses fuel' code allComments others h' ;;
          Return (fst created :: fst following, snd following)
      end
  end.

(** [findClasses], given the matches of its pattern in the text. *)
Definition findClasses (code : text) (allComments : list Comment)
    (classMatches : list ClassMatch) : outcome (list ref * heap) :=
  parseClasses (S (length classMatches)) code allComments classMatches [].

(* ================================================================== *)
(** ** Method locator *)

(** A match of the regular expression: [match.index] and
    [match[0].length]. The regular-expression engine is outside the
    program; [findExistingMethod] receives what [matchAll] yields. *)
Record RegExpMatch : Type := mkMatch {
  matchIndex : Z;
  matchLength : Z
}.

Definition sameObject (a : option ref) (b : ref) : bool :=
  match a with
  | Some r => Nat.eqb r b
  | None => false
  end.

Fixpoint findExistingMethod (fuel : nat) (h : heap) (javaFileContent : text)
    (allMatches : list RegExpMatch) (javaClass : ref)
  : outcome (option TextInterval) :=
  match allMatches with
  | [] => Return None
  | m :: rest =>
      let methodStartIndex := matchIndex m in
      ownerClass <- getEnclosingClass fuel h javaClass methodStartIndex ;;
      if sameObject ownerClass javaClass then
        self <- deref h javaClass ;;
        javaDocStartIndex <-
          includeJavaDoc javaFileContent methodStartIndex (comments self) ;;
        let leadingWhiteSpacesStartIndex :=
          includeLeadingWhitespaces javaFileContent javaDocStartIndex in
        let openBracketIndex := methodStartIndex + matchLength m in
        closeBracketIndex <-
          moveToClosingBracket javaFileContent openBracketIndex (comments self) ;;
        let selectionStartIndex := leadingWhiteSpacesStartIndex in
        let selectionEndIndex :=
          includeTrailingWhitespaces javaFileContent (closeBracketIndex + 1) in
        selection <- TextInterval_of selectionStartIndex selectionEndIndex ;;
        Return (Some selection)
      else findExistingMethod fuel h javaFileContent rest javaClass
  end.

(* ================================================================== *)
(** ** Whitespace interval and pointed class *)

Definition getWhitespaceInterval (javaFileContent : text) (index : Z)
  : outcome TextInterval :=
  let startIndex := includeLeadingWhitespaces javaFileContent index in
  let endIndex := includeTrailingWhitespaces javaFileContent index in
  TextInterval_of startIndex endIndex.

(** The loop of [findPointedClass] over the classes of the forest. *)
Fixpoint pointedAmong (fuel : nat) (h : heap) (javaClasses : list ref)
    (cursorIndex : Z) : outcome (option ref) :=
  match javaClasses with
  | [] => Return None
  | javaClass :: rest =>
      pointedClass <- getEnclosingClass fuel h javaClass cursorIndex ;;
      match pointedClass with
      | Some p => Return (Some p)
      | None => pointedAmong fuel h rest cursorIndex
      end
  end.

(** [findPointedClass], given what the editor provides: the text of the
    document, the matches of the class pattern in it and the offset of the
    cursor. It returns the class found, in the store of the classes. *)
Definition findPointedClass (fuel : nat) (javaFileContent : text)
    (classMatches : list ClassMatch) (cursorIndex : Z)
  : outcome (option ref * heap) :=
  allComments <- findComments javaFileContent ;;
  javaClasses <- findClasses javaFileContent allComments classMatches ;;
  pointedClass <-
    pointedAmong fuel (snd javaClasses) (fst javaClasses) cursorIndex ;;
  Return (pointedClass, snd javaClasses).

(** The interval that [JavaClassProcessor] replaces by the generated code
    when the method does not exist yet: [getInsertIndex] at the cursor,
    then [getWhitespaceInterval]. *)
Definition insertInterval (javaClass : JavaClass) (javaFileContent : text)
    (cursorIndex : Z) : outcome TextInterval :=
  insertIndex <- getInsertIndex javaClass javaFileContent cursorIndex ;;
  getWhitespaceInterval javaFileContent insertIndex.

(* ================================================================== *)
(** ** Field groups of the generated code *)

(** [array.slice(first, last)] for [0 <= first <= last]. *)
Definition sliceArray {A : Type} (array : list A) (first last : nat) : list A :=
  take (last - first) (drop first array).

(** The loop of [group]: [i] goes up by 3, [n] turns left. *)
Fixpoint groupLoop (n : nat) (array : list string) (i : nat) : list (list string) :=
  match n with
  | O => []
  | S n' =>
      if (i <? length array)%nat
      then sliceArray array i (i + 3) :: groupLoop n' array (i + 3)
      else []
  end.

Definition group (array : list string) : list (list string) :=
  if (length array <? 4)%nat then [array]
  else if (length array =? 4)%nat then [sliceArray array 0 2; sliceArray array 2 4]
  else groupLoop (length array) array 0.

(** [group[0]] is [undefined] on an empty group, and the concatenation
    writes it as the text [undefined]. *)
Definition printFieldGroup (group : list string) (prefix separator suffix : string)
  : string :=
  let code :=
    (prefix ++ match group !! 0%nat with
               | Some first => first
               | None => "undefined"
               end)%string in
  (fold_left (fun code field => (code ++ separator ++ field)%string)
             (drop 1 group) code ++ suffix)%string.

(* ================================================================== *)
(** ** Field *)

Inductive AccessorImplementation : Type :=
| none
| inCurrentClass
| inAncestorClass.

(** [name] and [type] are [undefined] when the outcome of the analysis
    holds too few values. *)
Record Field : Type := mkField {
  Field_name : option text;
  Field_type : option text;
  Field_enclosingClass : string;
  Field_accessorImplementation : AccessorImplementation
}.

Definition space : char := 32%N.

(** [s.trimStart()] and [s.trim()]: the white space of [trim] is the
    white space of the pattern [\s]. *)
Fixpoint trimStart (s : text) : text :=
  match s with
  | [] => []
  | c :: rest => if isWhitespace c then trimStart rest else s
  end.

Definition trim (s : text) : text := rev (trimStart (rev (trimStart s))).

(** [s.split(separator)] for a separator of one character. *)
Fixpoint split (separator : char) (s : text) : list text :=
  match s with
  | [] => [[]]
  | c :: rest =>
      if N.eqb c separator then [] :: split separator rest
      else match split separator rest with
           | piece :: pieces => (c :: piece) :: pieces
           | [] => [[c]]
           end
  end.

Definition toAccessorImplementation (analysisOutcome : option text)
  : AccessorImplementation :=
  if bool_decide (analysisOutcome = Some (js "1")) then inCurrentClass
  else if bool_decide (analysisOutcome = Some (js "2")) then inAncestorClass
  else none.

Definition Field_of (enclosingClass : string) (analysisOutcome : text) : Field :=
  let values := split space (trim analysisOutcome) in
  let accessorImplementation := toAccessorImplementation (values !! 2%nat) in
  mkField (values !! 1%nat) (values !! 0%nat) enclosingClass accessorImplementation.


(* ================================================================== *)
(** ** Vocabulary of the statements *)

(** Comments in ascending order of their starting indexes. *)
Definition startsBefore (a b : Comment) : Prop :=
  startIndex (interval a) < startIndex (interval b).

Definition overlap (a b : TextInterval) : bool :=
  (startIndex a <=? endIndex b) && (startIndex b <=? endIndex a).

(** The indexes that the loop of [moveToClosingBracket] examines, in the
    order in which it examines them, when it runs to the end of the text:
    the movement of its two cursors, which does not depend on the braces
    met. *)
Fixpoint examinedFrom (fuel : nat) (limit : Z) (comments : list Comment)
    (i : Z) (k : nat) : list Z :=
  match fuel with
  | O => []
  | S fuel' =>
      if i <? limit then
        let '(i, k) := jumpToCommentEnd comments i k in
        i :: examinedFrom fuel' limit comments (i + 1) k
      else []
  end.

Definition examined (code : text) (index : Z) (comments : list Comment) : list Z :=
  examinedFrom (scanFuel (strlen code) (index + 1) comments) (strlen code)
               comments (index + 1)
               (skipCommentsBefore comments index (length comments) 0%nat).

(** What the character at [i] adds to the nesting of braces. *)
Definition braceValue (code : text) (i : Z) : Z :=
  if charIs code i lbrace then 1
  else if charIs code i rbrace then -1
  else 0.

(** The nesting after each of the given indexes, from the nesting [scope]. *)
Fixpoint nestings (code : text) (scope : Z) (indexes : list Z) : list Z :=
  match indexes with
  | [] => []
  | i :: rest =>
      (scope + braceValue code i) :: nestings code (scope + braceValue code i) rest
  end.

(** The first of the given indexes at which the nesting is back to 0. *)
Fixpoint closingIndex (code : text) (scope : Z) (indexes : list Z) : option Z :=
  match indexes with
  | [] => None
  | i :: rest =>
      if scope + braceValue code i =? 0 then Some i
      else closingIndex code (scope + braceValue code i) rest
  end.

(** A comment that ends before the next one starts. *)
Definition apart (a b : Comment) : Prop :=
  endIndex (interval a) < startIndex (interval b).

(** The comment list that the matcher expects at [index]: comments in
    order that do not overlap, inside the text, none of them holding
    [index] or ending on a brace. *)
Definition separateComments (code : text) (index : Z) (cs : list Comment) : Prop :=
  StronglySorted apart cs
  /\ Forall (fun c => startIndex (interval c) <= endIndex (interval c) < strlen code
                      /\ braceValue code (endIndex (interval c)) = 0
                      /\ includes (interval c) index = false) cs.

(** [j] is below the last index of a comment that holds it: the loop of
    the matcher jumps over [j]. *)
Definition skips (cs : list Comment) (j : Z) : bool :=
  existsb (fun c => (startIndex (interval c) <=? j) && (j <? endIndex (interval c))) cs.

(** [j] is inside a comment. *)
Definition covers (cs : list Comment) (j : Z) : bool :=
  existsb (fun c => includes (interval c) j) cs.

(** The indexes after [index] that no comment covers, in order. *)
Definition outsideComments (code : text) (index : Z) (cs : list Comment) : list Z :=
  List.filter (fun j => negb (covers cs j))
              (seqZ (index + 1) (strlen code - (index + 1))).

(** The braces opened minus the braces closed at the given indexes. *)
Fixpoint depthOver (code : text) (indexes : list Z) : Z :=
  match indexes with
  | [] => 0
  | i :: rest => braceValue code i + depthOver code rest
  end.

(** The depth of the braces outside the comments from [index] to the end
    of the body of a class, that end excluded. *)
Definition depthToBodyEnd (this : JavaClass) (index : Z) (code : text) : Z :=
  depthOver code
    (List.filter (fun j => negb (covers (comments this) j))
                 (seqZ index (endIndex (bodyInterval this) - index))).

(** The class of reference [r] spans [index], or does not. *)
Definition spans (h : heap) (index : Z) (r : ref) : Prop :=
  exists c, h !! r = Some c /\ includes (classInterval c) index = true.

Definition misses (h : heap) (index : Z) (r : ref) : Prop :=
  exists c, h !! r = Some c /\ includes (classInterval c) index = false.

(** The shape of the classes that [parseClasses] builds: the signature
    comes first, the body follows it and ends the class, every inner
    class lies within the body, and the class lies within the body of its
    outer class ([add] and [setOutherClass] check it). *)
Definition properClass (h : heap) (c : JavaClass) : bool :=
  (startIndex (classInterval c) <? startIndex (bodyInterval c))
  && (startIndex (bodyInterval c) <=? endIndex (bodyInterval c))
  && (endIndex (classInterval c) =? endIndex (bodyInterval c))
  && forallb (fun inner =>
                match h !! inner with
                | Some ic => liesWithin (classInterval ic) (bodyInterval c)
                | None => false
                end) (innerClasses c)
  && match outherClass c with
     | Some outher =>
         match h !! outher with
         | Some oc => liesWithin (classInterval c) (bodyInterval oc)
         | None => false
         end
     | None => true
     end.

Definition properHeap (h : heap) : bool := forallb (properClass h) h.

(** The number of indexes of a class: it bounds the depth of the classes
    nested in it. *)
Definition extent (c : JavaClass) : nat :=
  Z.to_nat (TextInterval_size (classInterval c)).

(** Every object of [h] is an object of [h'] at the same reference, with
    the same class interval and the same body. *)
Definition keepsIntervals (h h' : heap) : Prop :=
  forall r c, h !! r = Some c ->
              exists c', h' !! r = Some c'
                         /\ classInterval c' = classInterval c
                         /\ bodyInterval c' = bodyInterval c.

(** The largest extent of a class of the heap. *)
Definition maxExtent (h : heap) : nat :=
  foldr (fun c m => Nat.max (extent c) m) 0%nat h.

(** The text [class A { class B { void m(){} } }], its two classes as
    [JavaClass.of] and [add] build them, and the match of a pattern for
    the method [m]. *)
Definition nestedText : text := js "class A { class B { void m(){} } }".

Definition nestedHeap : heap :=
  [mkJavaClass "A" [] (mkTextInterval 0 7) (mkTextInterval 8 33)
               (mkTextInterval 0 33) [1%nat] None;
   mkJavaClass "B" [] (mkTextInterval 10 17) (mkTextInterval 18 31)
               (mkTextInterval 10 31) [] (Some 0%nat)].

Definition nestedMatch : RegExpMatch := mkMatch 19 10.

(** The text [class A { void m(){} }], which holds no comment, its class,
    and the match of a pattern for the method [m]. *)
Definition plainText : text := js "class A { void m(){} }".

Definition plainHeap : heap :=
  [mkJavaClass "A" [] (mkTextInterval 0 7) (mkTextInterval 8 21)
               (mkTextInterval 0 21) [] None].

Definition plainMatch : RegExpMatch := mkMatch 9 10.

(** A block comment that holds [//] on its first line and a closing
    brace on its second line, inside a pair of braces. *)
Definition nestingText : text := js "{ /* // x " ++ [newline] ++ js " } */ }".

(** The opening sequence that the type of a comment stands for, at [s]. *)
Definition opens (code : text) (s : Z) (t : CommentType) : Prop :=
  charIs code s slash = true
  /\ match t with
     | singleLine => charIs code (s + 1) slash = true
     | multiLine =>
         charIs code (s + 1) star = true /\ charIs code (s + 2) star = false
     | javaDoc =>
         charIs code (s + 1) star = true /\ charIs code (s + 2) star = true
     end.

(** A closing brace followed by a blank, a newline and an indented line. *)
Definition trailingText : text := js "} " ++ [newline] ++ js "  x".

(** A class whose body holds two block comments with [//] on their first
    line: an opening brace on the second line of the first, a closing
    brace on the second line of the second, and a field between them. *)
Definition twoCommentsText : text :=
  js "class A { /* // a " ++ [newline] ++ js " { */ int x; /* // b "
  ++ [newline] ++ js " } */ }".

Definition twoComments : list Comment :=
  [mkComment multiLine (mkTextInterval 10 23);
   mkComment singleLine (mkTextInterval 13 18);
   mkComment multiLine (mkTextInterval 32 45);
   mkComment singleLine (mkTextInterval 35 40)].

Definition twoCommentsClass : JavaClass :=
  mkJavaClass "A" twoComments (mkTextInterval 0 7) (mkTextInterval 8 47)
              (mkTextInterval 0 47) [] None.

(** An opening brace that nothing closes, followed by a block comment
    that holds [//] on its first line and a closing brace on its second
    line. *)
Definition unclosedText : text := js "{ /* // x " ++ [newline] ++ js " } */ x".

Definition unclosedComments : list Comment :=
  [mkComment multiLine (mkTextInterval 2 15);
   mkComment singleLine (mkTextInterval 5 10)].

(** A class followed on its last line by a comment that holds the word
    [class], and the two matches of the class pattern in it: the
    signature of [A], and [class A] in the comment up to the end of the
    text. *)
Definition commentedClassText : text :=
  js "class A { void m() { } // end of class A" ++ [newline] ++ js "}".

Definition commentedClassMatches : list ClassMatch :=
  [mkClassMatch 0 8 "A"; mkClassMatch 33 9 "A"].

(** The text [class A { /** d */   void m(){ } }], the class [A] with its
    JavaDoc comment, and the match of a pattern for the method [m]: the
    white space before [void], up to the opening brace. *)
Definition docText : text := js "class A { /** d */   void m(){ } }".

Definition docHeap : heap :=
  [mkJavaClass "A" [mkComment javaDoc (mkTextInterval 10 17)]
               (mkTextInterval 0 7) (mkTextInterval 8 33)
               (mkTextInterval 0 33) [] None].

Definition docMatch : RegExpMatch := mkMatch 18 12.

(** Parent and child agree: every inner class of a class has that class
    as its outer class, and every class is an inner class of its outer
    class. *)
Definition linkedHeap (h : heap) : Prop :=
  forall r c, h !! r = Some c ->
    (forall x, In x (innerClasses c) ->
               exists cx, h !! x = Some cx /\ outherClass cx = Some r)
    /\ (forall o, outherClass c = Some o ->
                  exists oc, h !! o = Some oc /\ In r (innerClasses oc)).

(** Two states of an object that differ in its inner classes and in its
    outer class at most. *)
Definition sameSource (c c' : JavaClass) : Prop :=
  name c' = name c /\ comments c' = comments c
  /\ signatureInterval c' = signatureInterval c
  /\ bodyInterval c' = bodyInterval c
  /\ classInterval c' = classInterval c.

(** The class that [parseClasses] makes of a match: the name captured,
    the signature over the match, the body from the index after the match
    to the index that [moveToClosingBracket] returns, and the comments
    that lie within the body. *)
Definition classOf (code : text) (allComments : list Comment) (m : ClassMatch)
    (c : JavaClass) : Prop :=
  name c = className m
  /\ signatureInterval c
     = mkTextInterval (classIndex m) (classIndex m + classLength m - 1)
  /\ startIndex (bodyInterval c) = classIndex m + classLength m
  /\ moveToClosingBracket code (classIndex m + classLength m) allComments
     = Return (endIndex (bodyInterval c))
  /\ classInterval c = mkTextInterval (classIndex m) (endIndex (bodyInterval c))
  /\ comments c
     = filter (fun comment => Is_true (liesWithin (interval comment) (bodyInterval c)))
              allComments.


(** A class of the store that has no outer class. *)
Definition rootOf (h : heap) (r : ref) : Prop :=
  exists c, h !! r = Some c /\ outherClass c = None.

(** The names of the classes from the outermost class down to [r], when
    the chain of outer classes is followed for at most [fuel] steps. *)
Fixpoint outerNames (fuel : nat) (h : heap) (r : ref) : list string :=
  match fuel with
  | O => []
  | S fuel' =>
      match h !! r with
      | Some c =>
          match outherClass c with
          | Some o => outerNames fuel' h o ++ [name c]
          | None => [name c]
          end
      | None => []
      end
  end.

(* ================================================================== *)
(** * Theorems *)

(** ** Text and loops *)

Lemma charAt_Some (code : text) (i : Z) (c : char) :
  charAt code i = Some c -> 0 <= i < strlen code.
Proof.
  unfold charAt, strlen. destruct (Z.ltb_spec i 0) as [Hneg|Hpos]; [discriminate|].
  intros Hlook. apply lookup_lt_Some in Hlook. lia.
Qed.

Lemma charIs_true_range (code : text) (i : Z) (c : char) :
  charIs code i c = true -> 0 <= i < strlen code.
Proof.
  unfold charIs. destruct (charAt code i) as [d|] eqn:Hat; [|discriminate].
  intros _. exact (charAt_Some code i d Hat).
Qed.

Lemma charIs_beyond (code : text) (i : Z) (c : char) :
  strlen code <= i -> charIs code i c = false.
Proof.
  intros Hi. destruct (charIs code i c) eqn:Heq; [|reflexivity].
  apply charIs_true_range in Heq. lia.
Qed.

Lemma firstFrom_Some (P : Z -> bool) (n : nat) : forall (i j : Z),
  firstFrom P n i = Some j ->
  i <= j < i + Z.of_nat n /\ P j = true /\ forall t, i <= t < j -> P t = false.
Proof.
  induction n as [|n IH]; intros i j; simpl; [discriminate|].
  destruct (P i) eqn:HP.
  - intros [= <-]. split; [lia|]. split; [exact HP|]. intros t Ht. lia.
  - intros Hrest. destruct (IH _ _ Hrest) as (Hr & Hj & Hbefore).
    split; [lia|]. split; [exact Hj|].
    intros t Ht. destruct (Z.eq_dec t i) as [->|Hne]; [exact HP|].
    apply Hbefore. lia.
Qed.

Lemma firstFrom_None (P : Z -> bool) (n : nat) : forall (i : Z),
  firstFrom P n i = None ->
  forall t, i <= t < i + Z.of_nat n -> P t = false.
Proof.
  induction n as [|n IH]; intros i; simpl; [intros _ t Ht; lia|].
  destruct (P i) eqn:HP; [discriminate|].
  intros Hrest t Ht. destruct (Z.eq_dec t i) as [->|Hne]; [exact HP|].
  apply (IH _ Hrest). lia.
Qed.

(** ** Comment scanner *)

(** Where [moveToEndOfLine] stops: at the first newline from [index] on,
    and at [index] itself when there is none. *)
Lemma moveToEndOfLine_spec (code : text) (index : Z) :
  (charIs code (moveToEndOfLine code index) newline = true
   /\ index <= moveToEndOfLine code index
   /\ forall t, index <= t < moveToEndOfLine code index ->
                charIs code t newline = false)
  \/ ((forall t, index <= t -> charIs code t newline = false)
      /\ moveToEndOfLine code index = index).
Proof.
  unfold moveToEndOfLine.
  destruct (firstFrom _ _ index) as [j|] eqn:Hfirst.
  - left. apply firstFrom_Some in Hfirst. destruct Hfirst as (Hr & Hj & Hbefore).
    repeat split; [exact Hj|lia|exact Hbefore].
  - right. split; [|reflexivity]. intros t Ht.
    destruct (Z.lt_ge_cases t (strlen code)) as [Hin|Hout].
    + apply (firstFrom_None _ _ _ Hfirst t). lia.
    + apply charIs_beyond. exact Hout.
Qed.

Lemma moveToEndOfLine_ge (code : text) (index : Z) :
  index <= moveToEndOfLine code index.
Proof.
  destruct (moveToEndOfLine_spec code index) as [(_ & H & _)|(_ & ->)]; lia.
Qed.

Lemma moveToEndOfComment_ge (code : text) (index : Z) :
  index <= moveToEndOfComment code index.
Proof.
  unfold moveToEndOfComment.
  destruct (firstFrom _ _ index) as [j|] eqn:Hfirst; [|lia].
  apply firstFrom_Some in Hfirst. lia.
Qed.

Lemma Comment_of_valid (t : CommentType) (s e : Z) :
  0 <= s <= e -> Comment_of t s e = Return (mkComment t (mkTextInterval s e)).
Proof.
  intros Hse. unfold Comment_of, TextInterval_of.
  destruct (Z.ltb_spec s 0); [lia|]. destruct (Z.ltb_spec e 0); [lia|].
  destruct (Z.ltb_spec e s); [lia|]. reflexivity.
Qed.

(** A turn of the scan pushes nothing, or one comment starting at [i]. *)
Lemma commentsAt_cases (code : text) (i : Z) :
  commentsAt code i = Return []
  \/ exists t e, i < e /\ commentsAt code i = Return [mkComment t (mkTextInterval i e)].
Proof.
  unfold commentsAt.
  destruct (charIs code i slash) eqn:Hslash; simpl; [|left; reflexivity].
  apply charIs_true_range in Hslash.
  destruct (i + 1 <? strlen code); [|left; reflexivity].
  destruct (getCommentType code (i + 1)) as [[ | | ]|]; [| | |left; reflexivity]; right.
  - exists singleLine, (moveToEndOfLine code (i + 1)).
    pose proof (moveToEndOfLine_ge code (i + 1)).
    split; [lia|]. rewrite Comment_of_valid by lia. reflexivity.
  - exists multiLine, (moveToEndOfComment code (i + 1)).
    pose proof (moveToEndOfComment_ge code (i + 1)).
    split; [lia|]. rewrite Comment_of_valid by lia. reflexivity.
  - exists javaDoc, (moveToEndOfComment code (i + 1)).
    pose proof (moveToEndOfComment_ge code (i + 1)).
    split; [lia|]. rewrite Comment_of_valid by lia. reflexivity.
Qed.

Lemma commentsAt_singleLine (code : text) (i : Z) :
  charIs code i slash = true -> charIs code (i + 1) slash = true ->
  commentsAt code i =
  Return [mkComment singleLine (mkTextInterval i (moveToEndOfLine code (i + 1)))].
Proof.
  intros Hfirst Hsecond. unfold commentsAt, getCommentType.
  rewrite Hfirst, Hsecond. simpl.
  pose proof (charIs_true_range _ _ _ Hfirst).
  pose proof (charIs_true_range _ _ _ Hsecond).
  destruct (Z.ltb_spec (i + 1) (strlen code)); [|lia].
  pose proof (moveToEndOfLine_ge code (i + 1)).
  rewrite Comment_of_valid by lia. reflexivity.
Qed.

(** The scan never throws; what it returns from [i] on starts at [i] or
    later, in ascending order. *)
Lemma findCommentsFrom_sorted (code : text) (n : nat) : forall (i : Z),
  exists cs, findCommentsFrom code n i = Return cs
             /\ Forall (fun c => i <= startIndex (interval c)) cs
             /\ StronglySorted startsBefore cs.
Proof.
  induction n as [|n IH]; intros i; simpl.
  - exists []. repeat split; constructor.
  - destruct (IH (i + 1)) as (rest & Hrest & Hfrom & Hsorted).
    rewrite Hrest.
    destruct (commentsAt_cases code i) as [->|(t & e & Hie & ->)]; simpl.
    + exists rest. repeat split; [|exact Hsorted].
      eapply Forall_impl; [exact Hfrom|]. simpl. intros c Hc. lia.
    + exists (mkComment t (mkTextInterval i e) :: rest). repeat split.
      * constructor; [simpl; lia|].
        eapply Forall_impl; [exact Hfrom|]. simpl. intros c Hc. lia.
      * constructor; [exact Hsorted|].
        eapply Forall_impl; [exact Hfrom|]. unfold startsBefore. simpl.
        intros c Hc. lia.
Qed.

Lemma findCommentsFrom_In (code : text) (n : nat) : forall (i j : Z) cs c,
  findCommentsFrom code n i = Return cs ->
  i <= j < i + Z.of_nat n ->
  commentsAt code j = Return [c] ->
  In c cs.
Proof.
  induction n as [|n IH]; intros i j cs c; simpl; [intros _ Hj; lia|].
  intros Hrun Hj Hat.
  destruct (commentsAt code i) as [pushed| |] eqn:Hhere; simpl in Hrun; try discriminate.
  destruct (findCommentsFrom code n (i + 1)) as [rest| |] eqn:Hrest;
    simpl in Hrun; try discriminate.
  injection Hrun as <-. apply in_or_app.
  destruct (Z.eq_dec j i) as [->|Hne].
  - left. rewrite Hhere in Hat. injection Hat as ->. left. reflexivity.
  - right. apply (IH (i + 1) j rest c Hrest); [lia|exact Hat].
Qed.


Lemma findComments_total (code : text) :
  exists cs, findComments code = Return cs /\ StronglySorted startsBefore cs.
Proof.
  destruct (findCommentsFrom_sorted code (length code) 0) as (cs & Hrun & _ & Hsorted).
  exists cs. split; [exact Hrun|exact Hsorted].
Qed.

Lemma sorted_starts_unique (cs : list Comment) :
  StronglySorted startsBefore cs ->
  forall a b, In a cs -> In b cs ->
              startIndex (interval a) = startIndex (interval b) -> a = b.
Proof.
  induction 1 as [|x l Hsorted IH Hall]; intros a b Ha Hb Hstart; [destruct Ha|].
  rewrite Forall_forall in Hall. unfold startsBefore in Hall.
  destruct Ha as [<-|Ha], Hb as [<-|Hb].
  - reflexivity.
  - apply list_elem_of_In, Hall in Hb. lia.
  - apply list_elem_of_In, Hall in Ha. lia.
  - exact (IH a b Ha Hb Hstart).
Qed.

Example findComments_ex :
  findComments (js "a /** d */ // x") =
  Return [mkComment javaDoc (mkTextInterval 2 9);
          mkComment singleLine (mkTextInterval 11 12)].
Proof. vm_compute. reflexivity. Qed.

(** The comment of the text [// abc], which holds no newline, ends at
    index 1 and not at the last character, index 5: a comment that no
    newline ends does not reach the end of the text. *)
Lemma singleLine_end_of_text_counterexample :
  ~ (forall (code : text) (i : Z) (cs : list Comment),
        findComments code = Return cs ->
        charIs code i slash = true -> charIs code (i + 1) slash = true ->
        (forall t, i < t -> charIs code t newline = false) ->
        In (mkComment singleLine (mkTextInterval i (strlen code - 1))) cs).
Proof.
  intros Hclaim.
  assert (Hrun : findComments (js "// abc")
                 = Return [mkComment singleLine (mkTextInterval 0 1)])
    by (vm_compute; reflexivity).
  specialize (Hclaim (js "// abc") 0 _ Hrun eq_refl eq_refl).
  assert (Hno : forall t, 0 < t -> charIs (js "// abc") t newline = false).
  { intros t Ht. destruct (charIs (js "// abc") t newline) eqn:Hc; [|reflexivity].
    pose proof (charIs_true_range _ _ _ Hc) as Hr. change (strlen (js "// abc")) with 6 in Hr.
    assert (Hcases : t = 1 \/ t = 2 \/ t = 3 \/ t = 4 \/ t = 5) by lia.
    destruct Hcases as [-> | [-> | [-> | [-> | ->]]]]; vm_compute in Hc; discriminate. }
  specialize (Hclaim Hno). simpl in Hclaim.
  destruct Hclaim as [Heq|[]]. discriminate Heq.
Qed.

(** What the scan does at [//]: every occurrence starts a single-line
    comment, the only comment starting there. It ends at the next
    newline; when no newline follows, [moveToEndOfLine] does not move and
    the comment ends at the second [/] (index [i + 1]). *)
Theorem singleLine_comment_end (code : text) (i : Z) :
  charIs code i slash = true -> charIs code (i + 1) slash = true ->
  exists cs e,
    findComments code = Return cs
    /\ In (mkComment singleLine (mkTextInterval i e)) cs
    /\ (forall c, In c cs -> startIndex (interval c) = i ->
                  c = mkComment singleLine (mkTextInterval i e))
    /\ ((charIs code e newline = true /\ i < e
         /\ forall t, i < t < e -> charIs code t newline = false)
        \/ ((forall t, i < t -> charIs code t newline = false) /\ e = i + 1)).
Proof.
  intros Hfirst Hsecond.
  destruct (findComments_total code) as (cs & Hrun & Hsorted).
  exists cs, (moveToEndOfLine code (i + 1)).
  pose proof (charIs_true_range _ _ _ Hfirst) as Hrange.
  assert (Hin : In (mkComment singleLine
                      (mkTextInterval i (moveToEndOfLine code (i + 1)))) cs).
  { apply (findCommentsFrom_In code (length code) 0 i cs); [exact Hrun| |].
    - unfold strlen in Hrange. lia.
    - apply commentsAt_singleLine; assumption. }
  split; [exact Hrun|]. split; [exact Hin|]. split.
  - intros c Hc Hstart.
    apply (sorted_starts_unique cs Hsorted); [exact Hc|exact Hin|exact Hstart].
  - destruct (moveToEndOfLine_spec code (i + 1)) as [(Hnl & Hge & Hbefore)|(Hnone & Heq)].
    + left. split; [exact Hnl|]. split; [lia|]. intros t Ht. apply Hbefore. lia.
    + right. split; [|exact Heq]. intros t Ht. apply Hnone. lia.
Qed.

Lemma singleLine_comment_end_witness :
  exists cs e,
    findComments (js "x // y" ++ [newline] ++ js "z") = Return cs
    /\ In (mkComment singleLine (mkTextInterval 2 e)) cs
    /\ (forall c, In c cs -> startIndex (interval c) = 2 ->
                  c = mkComment singleLine (mkTextInterval 2 e))
    /\ ((charIs (js "x // y" ++ [newline] ++ js "z") e newline = true /\ 2 < e
         /\ forall t, 2 < t < e ->
                      charIs (js "x // y" ++ [newline] ++ js "z") t newline = false)
        \/ ((forall t, 2 < t ->
                       charIs (js "x // y" ++ [newline] ++ js "z") t newline = false)
            /\ e = 2 + 1)).
Proof.
  apply (singleLine_comment_end (js "x // y" ++ [newline] ++ js "z") 2); reflexivity.
Defined.

(** C7: on [{ // }], where no newline follows the comment,
    [moveToEndOfLine] stays at the index it was given instead of moving
    to the end of the line: the comment is [2,3], the two slashes, and
    not [2,5]. The closing brace written in the comment is then outside
    of it, and [moveToClosingBracket] returns it, index 5. With a final
    newline the comment is [2,6] and the matcher finds no closing brace:
    it returns the index it was given. *)
Theorem singleLine_comment_without_newline :
  moveToEndOfLine (js "{ // }") 3 = 3
  /\ findComments (js "{ // }") = Return [mkComment singleLine (mkTextInterval 2 3)]
  /\ includes (mkTextInterval 2 3) 5 = false
  /\ moveToClosingBracket (js "{ // }") 0 [mkComment singleLine (mkTextInterval 2 3)]
     = Return 5
  /\ findComments (js "{ // }" ++ [newline])
     = Return [mkComment singleLine (mkTextInterval 2 6)]
  /\ moveToClosingBracket (js "{ // }" ++ [newline]) 0
                          [mkComment singleLine (mkTextInterval 2 6)]
     = Return 0.
Proof. repeat split; vm_compute; reflexivity. Qed.

(** C10: the scan looks at every index, also inside a comment it has
    detected; the list it returns is in ascending order of the starting
    indexes and can hold overlapping comments, as on a block comment that
    holds [//] and is followed by a newline. *)
Theorem findComments_ascending_may_overlap :
  (forall code, exists cs,
      findComments code = Return cs
      /\ StronglySorted startsBefore cs
      /\ forall j c, 0 <= j < strlen code -> commentsAt code j = Return [c] -> In c cs)
  /\ findComments (js "/* // x */" ++ [newline])
     = Return [mkComment multiLine (mkTextInterval 0 9);
               mkComment singleLine (mkTextInterval 3 10)]
  /\ overlap (mkTextInterval 0 9) (mkTextInterval 3 10) = true.
Proof.
  split; [|split; vm_compute; reflexivity].
  intros code. destruct (findComments_total code) as (cs & Hrun & Hsorted).
  exists cs. split; [exact Hrun|]. split; [exact Hsorted|].
  intros j c Hj Hat.
  apply (findCommentsFrom_In code (length code) 0 j cs c Hrun); [|exact Hat].
  unfold strlen in Hj. lia.
Qed.

(** ** TextInterval *)

Lemma TextInterval_of_bounds (s e : Z) (t : TextInterval) :
  TextInterval_of s e = Return t ->
  startIndex t = s /\ endIndex t = e /\ 0 <= s <= e.
Proof.
  unfold TextInterval_of.
  destruct (Z.ltb_spec s 0); [discriminate|].
  destruct (Z.ltb_spec e 0); [discriminate|].
  destruct (Z.ltb_spec e s); [discriminate|].
  intros [= <-]. simpl. lia.
Qed.

(** C9: [TextInterval.of(s, e)] succeeds exactly when [0 <= s <= e] and
    throws when [s < 0], [e < 0] or [e < s]; the interval it returns holds
    the two arguments and at least one index. *)
Theorem TextInterval_of_spec (s e : Z) :
  ((exists t, TextInterval_of s e = Return t) <-> 0 <= s <= e)
  /\ ((exists x, TextInterval_of s e = Throw x) <-> (s < 0 \/ e < 0 \/ e < s))
  /\ (forall t, TextInterval_of s e = Return t ->
                startIndex t = s /\ endIndex t = e /\ 1 <= TextInterval_size t).
Proof.
  unfold TextInterval_of, TextInterval_size.
  destruct (Z.ltb_spec s 0) as [Hs|Hs];
    [|destruct (Z.ltb_spec e 0) as [He|He];
      [|destruct (Z.ltb_spec e s) as [Hes|Hes]]].
  - split; [|split].
    + split; [intros [t Ht]; discriminate|lia].
    + split; [left; exact Hs|intros _; eexists; reflexivity].
    + intros t Ht. discriminate.
  - split; [|split].
    + split; [intros [t Ht]; discriminate|lia].
    + split; [right; left; exact He|intros _; eexists; reflexivity].
    + intros t Ht. discriminate.
  - split; [|split].
    + split; [intros [t Ht]; discriminate|lia].
    + split; [right; right; exact Hes|intros _; eexists; reflexivity].
    + intros t Ht. discriminate.
  - split; [|split].
    + split; [lia|intros _; eexists; reflexivity].
    + split; [intros [x Hx]; discriminate|lia].
    + intros t [= <-]. simpl. lia.
Qed.

Lemma includes_spec (t : TextInterval) (i : Z) :
  includes t i = true <-> startIndex t <= i <= endIndex t.
Proof. unfold includes. rewrite andb_true_iff, !Z.leb_le. reflexivity. Qed.

Lemma liesWithin_spec (t outer : TextInterval) :
  liesWithin t outer = true
  <-> startIndex outer <= startIndex t /\ endIndex t <= endIndex outer.
Proof. unfold liesWithin. rewrite andb_true_iff, !Z.leb_le. reflexivity. Qed.

(** ** Bracket matcher *)

Lemma jumpBudget_drop (limit : Z) (k : nat) : forall (cs : list Comment),
  (jumpBudget limit (drop k cs) <= jumpBudget limit cs)%nat.
Proof.
  induction k as [|k IH]; intros cs; [rewrite drop_0; lia|].
  destruct cs as [|c cs]; simpl; [lia|]. specialize (IH cs). lia.
Qed.

Lemma jumpBudget_consume (limit : Z) (cs : list Comment) (k : nat) (c : Comment) :
  cs !! k = Some c ->
  jumpBudget limit (drop k cs)
  = S (Z.to_nat (limit - endIndex (interval c)) + jumpBudget limit (drop (S k) cs)).
Proof. intros Hk. rewrite (drop_S cs c k Hk). reflexivity. Qed.

(** With enough fuel the loop of [moveToClosingBracket] returns, and what
    it returns is read off the indexes it examines: the first one at which
    the nesting is back to 0, and [index] when there is none. *)
Lemma closingLoop_examined (fuel : nat) :
  forall (code : text) (cs : list Comment) (index i : Z) (k : nat) (scope : Z),
  (Z.to_nat (strlen code - i) + jumpBudget (strlen code) (drop k cs) < fuel)%nat ->
  1 <= scope ->
  closingLoop fuel code cs index i k scope
  = Return (default index
              (closingIndex code scope (examinedFrom fuel (strlen code) cs i k))).
Proof.
  induction fuel as [|fuel IH]; intros code cs index i k scope Hfuel Hscope; [lia|].
  simpl. destruct (Z.ltb_spec i (strlen code)) as [Hin|Hout]; [|reflexivity].
  assert (Hnext : forall i' k',
             jumpToCommentEnd cs i k = (i', k') ->
             (Z.to_nat (strlen code - (i' + 1))
              + jumpBudget (strlen code) (drop k' cs) < fuel)%nat).
  { unfold jumpToCommentEnd. intros i' k'.
    destruct (cs !! k) as [c|] eqn:Hk;
      [destruct (startIndex (interval c) <=? i)|]; intros [= <- <-]; [|lia|lia].
    rewrite (jumpBudget_consume _ _ _ _ Hk) in Hfuel. lia. }
  destruct (jumpToCommentEnd cs i k) as [i' k'].
  specialize (Hnext i' k' eq_refl). simpl. unfold braceValue.
  destruct (charIs code i' lbrace).
  - destruct (Z.eqb_spec (scope + 1) 0) as [Hz|_]; [lia|].
    apply IH; [exact Hnext|lia].
  - destruct (charIs code i' rbrace).
    + replace (scope + -1) with (scope - 1) by lia.
      destruct (Z.eqb_spec (scope - 1) 0) as [_|Hz]; [reflexivity|].
      apply IH; [exact Hnext|lia].
    + rewrite Z.add_0_r.
      destruct (Z.eqb_spec scope 0) as [Hz|_]; [lia|].
      apply IH; [exact Hnext|exact Hscope].
Qed.

Lemma moveToClosingBracket_examined (code : text) (index : Z) (cs : list Comment) :
  moveToClosingBracket code index cs
  = Return (default index (closingIndex code 1 (examined code index cs))).
Proof.
  unfold moveToClosingBracket, examined. apply closingLoop_examined; [|lia].
  unfold scanFuel.
  pose proof (jumpBudget_drop (strlen code)
                (skipCommentsBefore cs index (length cs) 0) cs).
  lia.
Qed.

Lemma closingIndex_None (code : text) (indexes : list Z) : forall (scope : Z),
  ~ In 0 (nestings code scope indexes) ->
  closingIndex code scope indexes = None.
Proof.
  induction indexes as [|i rest IH]; intros scope Hnone; simpl; [reflexivity|].
  simpl in Hnone.
  destruct (Z.eqb_spec (scope + braceValue code i) 0) as [Hz|Hnz].
  - exfalso. apply Hnone. left. exact Hz.
  - apply IH. intros Hin. apply Hnone. right. exact Hin.
Qed.

Lemma closingIndex_Some (code : text) (indexes : list Z) : forall (scope j : Z),
  closingIndex code scope indexes = Some j ->
  exists n, indexes !! n = Some j
            /\ nestings code scope indexes !! n = Some 0
            /\ forall m, (m < n)%nat -> nestings code scope indexes !! m <> Some 0.
Proof.
  induction indexes as [|i rest IH]; intros scope j; simpl; [discriminate|].
  destruct (Z.eqb_spec (scope + braceValue code i) 0) as [Hz|Hnz].
  - intros [= <-]. exists 0%nat. simpl. rewrite Hz.
    split; [reflexivity|]. split; [reflexivity|]. intros m Hm. lia.
  - intros Hrest. destruct (IH _ _ Hrest) as (n & Hn & Hzero & Hfirst).
    exists (S n). split; [exact Hn|]. split; [exact Hzero|].
    intros [|m] Hm; simpl; [intros [= Heq]; contradiction|].
    apply Hfirst. lia.
Qed.

(** What [moveToClosingBracket] returns when it finds a closing brace. *)
Lemma moveToClosingBracket_found (code : text) (index : Z) (cs : list Comment) (j : Z) :
  closingIndex code 1 (examined code index cs) = Some j ->
  moveToClosingBracket code index cs = Return j.
Proof. intros Hj. rewrite moveToClosingBracket_examined, Hj. reflexivity. Qed.

Example moveToClosingBracket_nested_braces :
  moveToClosingBracket (js "{A{B}C}") 0 [] = Return 6.
Proof. vm_compute. reflexivity. Qed.

Example moveToClosingBracket_brace_in_comment :
  findComments (js "{ /* } */ }") = Return [mkComment multiLine (mkTextInterval 2 8)]
  /\ moveToClosingBracket (js "{ /* } */ }") 0
                          [mkComment multiLine (mkTextInterval 2 8)] = Return 10.
Proof. split; vm_compute; reflexivity. Qed.

(** C3: on the two texts of the claim the matcher returns the closing
    brace, index 6 and index 10. It does not skip every index that a
    comment of the list covers: on [nestingText] the scanner lists the
    block comment [2,15] and then the comment [5,10] that starts at the
    [//] inside it; having jumped to 15, the matcher jumps back to 10,
    examines 11 and 12, and returns 12, the brace inside the block
    comment, where the closing brace is at 17. *)
Theorem moveToClosingBracket_nested_comment :
  moveToClosingBracket (js "{A{B}C}") 0 [] = Return 6
  /\ moveToClosingBracket (js "{ /* } */ }") 0
                          [mkComment multiLine (mkTextInterval 2 8)] = Return 10
  /\ findComments nestingText
     = Return [mkComment multiLine (mkTextInterval 2 15);
               mkComment singleLine (mkTextInterval 5 10)]
  /\ examined nestingText 0 [mkComment multiLine (mkTextInterval 2 15);
                             mkComment singleLine (mkTextInterval 5 10)]
     = [1; 15; 10; 11; 12; 13; 14; 15; 16; 17]
  /\ moveToClosingBracket nestingText 0
                          [mkComment multiLine (mkTextInterval 2 15);
                           mkComment singleLine (mkTextInterval 5 10)] = Return 12
  /\ includes (mkTextInterval 2 15) 12 = true
  /\ charIs nestingText 17 rbrace = true.
Proof. repeat split; vm_compute; reflexivity. Qed.

(** ** Bracket matcher on comments that do not overlap *)

Lemma skipCommentsBefore_spec (cs : list Comment) (index : Z) (n : nat) :
  forall (k : nat),
    (length cs <= n + k)%nat ->
    (forall j c, (k <= j < skipCommentsBefore cs index n k)%nat ->
                 cs !! j = Some c -> endIndex (interval c) < index)
    /\ (forall c, cs !! skipCommentsBefore cs index n k = Some c ->
                  index <= endIndex (interval c)).
Proof.
  induction n as [|n IH]; intros k Hlen; simpl.
  - split; [intros j c Hj; lia|].
    intros c Hc. apply lookup_lt_Some in Hc. lia.
  - destruct (cs !! k) as [c|] eqn:Hk.
    + destruct (Z.ltb_spec (endIndex (interval c)) index) as [Hlt|Hge].
      * destruct (IH (S k) ltac:(lia)) as (Hbefore & Hat). split; [|exact Hat].
        intros j cj Hj Hcj. destruct (Nat.eq_dec j k) as [->|Hne].
        -- rewrite Hk in Hcj. injection Hcj as <-. exact Hlt.
        -- apply (Hbefore j cj); [lia|exact Hcj].
      * split; [intros j cj Hj; lia|].
        intros c' Hc'. rewrite Hk in Hc'. injection Hc' as <-. exact Hge.
    + split; [intros j cj Hj; lia|]. intros c Hc. rewrite Hk in Hc. discriminate.
Qed.

Lemma skips_after (cs : list Comment) (j : Z) :
  Forall (fun c => j < startIndex (interval c)) cs -> skips cs j = false.
Proof.
  intros Hall. unfold skips. apply not_true_is_false. intros Hex.
  apply existsb_exists in Hex. destruct Hex as (c & Hc & Hskip).
  rewrite Forall_forall in Hall. apply list_elem_of_In, Hall in Hc.
  apply andb_true_iff in Hskip. destruct Hskip as (Hs & _).
  apply Z.leb_le in Hs. lia.
Qed.

Lemma filter_none {A : Type} (f : A -> bool) (l : list A) :
  (forall x, In x l -> f x = false) -> List.filter f l = [].
Proof.
  induction l as [|x l IH]; intros Hall; simpl; [reflexivity|].
  rewrite (Hall x (or_introl eq_refl)). apply IH.
  intros y Hy. apply Hall. right. exact Hy.
Qed.

(** On comments in order that do not overlap, the loop examines the
    indexes that it does not jump over, in ascending order. *)
Lemma examinedFrom_apart (limit : Z) (cs : list Comment) (fuel : nat) :
  forall (i : Z) (k : nat),
    (Z.to_nat (limit - i) + jumpBudget limit (drop k cs) < fuel)%nat ->
    StronglySorted apart (drop k cs) ->
    Forall (fun c => i <= startIndex (interval c)
                     /\ startIndex (interval c) <= endIndex (interval c) < limit)
           (drop k cs) ->
    examinedFrom fuel limit cs i k
    = List.filter (fun j => negb (skips (drop k cs) j)) (seqZ i (limit - i)).
Proof.
  induction fuel as [|fuel IH]; intros i k Hfuel Hsorted Hvalid; [lia|].
  simpl. destruct (Z.ltb_spec i limit) as [Hin|Hout];
    [|rewrite seqZ_nil by lia; reflexivity].
  unfold jumpToCommentEnd. destruct (cs !! k) as [c|] eqn:Hk.
  - rewrite (jumpBudget_consume _ _ _ _ Hk) in Hfuel.
    rewrite (drop_S cs c k Hk) in Hsorted, Hvalid |- *.
    apply StronglySorted_inv in Hsorted. destruct Hsorted as (Hrest & Hafter).
    apply Forall_cons in Hvalid. destruct Hvalid as ((Hic & Hc) & Hvalid).
    assert (Hstarts : Forall (fun c' => endIndex (interval c) < startIndex (interval c'))
                             (drop (S k) cs)) by exact Hafter.
    clear Hafter. destruct c as [t [s e]]. simpl in Hfuel, Hic, Hc, Hstarts. simpl.
    destruct (Z.leb_spec s i) as [Hjump|Hwalk].
    + (* the cursor is at the start of the comment: jump to its end *)
      replace (limit - i) with ((e - i) + (limit - e)) by lia.
      rewrite seqZ_app by lia. rewrite List.filter_app.
      rewrite filter_none.
      2:{ intros j Hj. apply list_elem_of_In, elem_of_seqZ in Hj.
          simpl. destruct (Z.leb_spec s j); [|lia].
          destruct (Z.ltb_spec j e); [|lia]. reflexivity. }
      replace (i + (e - i)) with e by lia.
      rewrite (seqZ_cons e) by lia. simpl.
      destruct (Z.ltb_spec e e); [lia|]. rewrite andb_false_r. simpl.
      rewrite (skips_after (drop (S k) cs) e) by exact Hstarts. simpl.
      f_equal. rewrite IH.
      * replace (Z.succ e) with (e + 1) by lia.
        replace (Z.pred (limit - e)) with (limit - (e + 1)) by lia.
        apply List.filter_ext_in. intros j Hj.
        apply list_elem_of_In, elem_of_seqZ in Hj. simpl.
        destruct (Z.ltb_spec j e); [lia|]. rewrite andb_false_r. reflexivity.
      * lia.
      * exact Hrest.
      * rewrite Forall_forall in Hstarts, Hvalid |- *.
        intros c' Hc'. specialize (Hstarts c' Hc'). specialize (Hvalid c' Hc').
        simpl in *. lia.
    + (* the comment starts further on: examine [i] *)
      rewrite (seqZ_cons i) by lia. simpl.
      destruct (Z.leb_spec s i); [lia|]. simpl.
      rewrite (skips_after (drop (S k) cs) i).
      2:{ eapply Forall_impl; [exact Hstarts|]. simpl. intros c' Hc'. lia. }
      simpl. f_equal.
      replace (Z.succ i) with (i + 1) by lia.
      replace (Z.pred (limit - i)) with (limit - (i + 1)) by lia.
      rewrite IH.
      * rewrite (drop_S cs _ k Hk). reflexivity.
      * rewrite (jumpBudget_consume _ _ _ _ Hk). simpl. lia.
      * rewrite (drop_S cs _ k Hk). constructor; assumption.
      * rewrite (drop_S cs _ k Hk). constructor; [simpl; lia|].
        rewrite Forall_forall in Hstarts, Hvalid |- *.
        intros c' Hc'. specialize (Hstarts c' Hc'). specialize (Hvalid c' Hc').
        simpl in *. lia.
  - (* no comment is left *)
    rewrite (drop_ge cs k) in * by (apply lookup_ge_None; exact Hk).
    rewrite (seqZ_cons i) by lia. simpl. f_equal.
    replace (Z.succ i) with (i + 1) by lia.
    replace (Z.pred (limit - i)) with (limit - (i + 1)) by lia.
    rewrite IH.
    + rewrite (drop_ge cs k) by (apply lookup_ge_None; exact Hk). reflexivity.
    + rewrite (drop_ge cs k) by (apply lookup_ge_None; exact Hk). simpl in *. lia.
    + rewrite (drop_ge cs k) by (apply lookup_ge_None; exact Hk). constructor.
    + rewrite (drop_ge cs k) by (apply lookup_ge_None; exact Hk). constructor.
Qed.

Lemma StronglySorted_drop {A : Type} (R : A -> A -> Prop) (k : nat) :
  forall (l : list A), StronglySorted R l -> StronglySorted R (drop k l).
Proof.
  induction k as [|k IH]; intros l Hl; [rewrite drop_0; exact Hl|].
  destruct l as [|x l]; [exact Hl|]. simpl.
  apply IH. apply StronglySorted_inv in Hl. exact (proj1 Hl).
Qed.

Lemma skips_app (cs cs' : list Comment) (j : Z) :
  skips (cs ++ cs') j = skips cs j || skips cs' j.
Proof. unfold skips. apply existsb_app. Qed.

(** The comments that [skipCommentsBefore] passes end before [index], and
    the comments that it leaves start after [index]. *)
Lemma skipCommentsBefore_separate (cs : list Comment) (index : Z) :
  StronglySorted apart cs ->
  Forall (fun c => includes (interval c) index = false) cs ->
  Forall (fun c => endIndex (interval c) < index)
         (take (skipCommentsBefore cs index (length cs) 0) cs)
  /\ Forall (fun c => index < startIndex (interval c))
            (drop (skipCommentsBefore cs index (length cs) 0) cs).
Proof.
  intros Hsorted Hout.
  set (k := skipCommentsBefore cs index (length cs) 0).
  destruct (skipCommentsBefore_spec cs index (length cs) 0%nat ltac:(lia))
    as (Hbefore & Hat). fold k in Hbefore, Hat.
  split.
  - apply Forall_forall. intros c Hc. apply elem_of_take in Hc.
    destruct Hc as (n & Hn & Hlt). apply (Hbefore n c); [lia|exact Hn].
  - pose proof (StronglySorted_drop apart k cs Hsorted) as Hsd.
    assert (Hsub : Forall (fun c => includes (interval c) index = false) (drop k cs)).
    { apply Forall_forall. intros c Hc. rewrite Forall_forall in Hout.
      apply Hout. apply list_elem_of_lookup in Hc. destruct Hc as (n & Hn).
      rewrite lookup_drop in Hn. apply list_elem_of_lookup. exists (k + n)%nat.
      exact Hn. }
    destruct (drop k cs) as [|c0 rest] eqn:Hdk; [constructor|].
    assert (Hc0 : cs !! k = Some c0).
    { pose proof (lookup_drop cs k 0) as Hl. rewrite Hdk in Hl. simpl in Hl.
      rewrite Nat.add_0_r in Hl. symmetry. exact Hl. }
    specialize (Hat c0 Hc0).
    apply StronglySorted_inv in Hsd. destruct Hsd as (_ & Hafter).
    apply Forall_cons in Hsub. destruct Hsub as (Hout0 & _).
    assert (Hstart0 : index < startIndex (interval c0)).
    { unfold includes in Hout0. apply andb_false_iff in Hout0.
      destruct Hout0 as [Hlow|Hhigh];
        [apply Z.leb_gt in Hlow|apply Z.leb_gt in Hhigh]; lia. }
    constructor; [exact Hstart0|].
    eapply Forall_impl; [exact Hafter|]. unfold apart. simpl. intros c Hc.
    unfold includes in Hout0. apply andb_false_iff in Hout0.
    destruct Hout0 as [Hlow|Hhigh];
      [apply Z.leb_gt in Hlow|apply Z.leb_gt in Hhigh]; lia.
Qed.

Lemma skips_before (cs : list Comment) (j : Z) :
  Forall (fun c => endIndex (interval c) <= j) cs -> skips cs j = false.
Proof.
  intros Hall. apply not_true_is_false. intros Hex.
  apply existsb_exists in Hex. destruct Hex as (c & Hc & Hskip).
  rewrite Forall_forall in Hall. apply list_elem_of_In, Hall in Hc.
  apply andb_true_iff in Hskip. destruct Hskip as (_ & He).
  apply Z.ltb_lt in He. lia.
Qed.

Lemma examined_separate (code : text) (index : Z) (cs : list Comment) :
  separateComments code index cs ->
  examined code index cs
  = List.filter (fun j => negb (skips cs j))
                (seqZ (index + 1) (strlen code - (index + 1))).
Proof.
  intros (Hsorted & Hvalid). unfold examined.
  destruct (skipCommentsBefore_separate cs index Hsorted) as (Htake & Hdrop).
  { eapply Forall_impl; [exact Hvalid|]. simpl. intros c (_ & _ & Hc). exact Hc. }
  set (k := skipCommentsBefore cs index (length cs) 0) in *.
  rewrite examinedFrom_apart.
  - apply List.filter_ext_in. intros j Hj.
    apply list_elem_of_In, elem_of_seqZ in Hj.
    rewrite <- (take_drop k cs) at 2. rewrite skips_app.
    rewrite (skips_before (take k cs) j); [reflexivity|].
    eapply Forall_impl; [exact Htake|]. simpl. intros c Hc. lia.
  - unfold scanFuel. pose proof (jumpBudget_drop (strlen code) k cs). lia.
  - apply StronglySorted_drop. exact Hsorted.
  - assert (Hsub : Forall (fun c => startIndex (interval c) <= endIndex (interval c)
                                    < strlen code) (drop k cs)).
    { apply Forall_forall. intros c Hc. rewrite Forall_forall in Hvalid.
      assert (Hin : c ∈ cs).
      { apply list_elem_of_lookup in Hc. destruct Hc as (n & Hn).
        rewrite lookup_drop in Hn. apply list_elem_of_lookup. exists (k + n)%nat.
        exact Hn. }
      exact (proj1 (Hvalid c Hin)). }
    rewrite Forall_forall in Hsub, Hdrop |- *. intros c Hc.
    specialize (Hsub c Hc). specialize (Hdrop c Hc). simpl in *. lia.
Qed.

Lemma braceValue_range (code : text) (i : Z) : -1 <= braceValue code i <= 1.
Proof.
  unfold braceValue. destruct (charIs code i lbrace); [lia|].
  destruct (charIs code i rbrace); lia.
Qed.

(** Indexes that hold no brace can be left out of the count. *)
Lemma closingIndex_filter (code : text) (P : Z -> bool) (l : list Z) :
  (forall j, In j l -> P j = false -> braceValue code j = 0) ->
  forall (scope : Z), 1 <= scope ->
    closingIndex code scope (List.filter P l) = closingIndex code scope l.
Proof.
  induction l as [|x l IH]; intros Hzero scope Hscope; simpl; [reflexivity|].
  assert (Hrest : forall j, In j l -> P j = false -> braceValue code j = 0)
    by (intros j Hj; apply Hzero; right; exact Hj).
  pose proof (braceValue_range code x) as Hrange.
  destruct (P x) eqn:HP; simpl.
  - destruct (Z.eqb_spec (scope + braceValue code x) 0); [reflexivity|].
    apply IH; [exact Hrest|lia].
  - rewrite (Hzero x (or_introl eq_refl) HP), Z.add_0_r.
    destruct (Z.eqb_spec scope 0); [lia|]. apply IH; [exact Hrest|exact Hscope].
Qed.

Lemma filter_filter_weaker {A : Type} (f g : A -> bool) (l : list A) :
  (forall x, f x = true -> g x = true) ->
  List.filter f (List.filter g l) = List.filter f l.
Proof.
  intros Hfg. induction l as [|x l IH]; simpl; [reflexivity|].
  destruct (g x) eqn:Hg; simpl.
  - destruct (f x); [f_equal|]; exact IH.
  - destruct (f x) eqn:Hf; [|exact IH]. rewrite (Hfg x Hf) in Hg. discriminate.
Qed.

Lemma skips_covers (cs : list Comment) (j : Z) :
  skips cs j = true -> covers cs j = true.
Proof.
  unfold skips, covers. rewrite !existsb_exists.
  intros (c & Hc & Hskip). exists c. split; [exact Hc|].
  apply andb_true_iff in Hskip. destruct Hskip as (Hs & He).
  apply Z.leb_le in Hs. apply Z.ltb_lt in He. apply includes_spec. lia.
Qed.

(** On a list of comments that do not overlap, the matcher does what C3
    says: it returns the first index after [index], outside the comments,
    at which the nesting of the braces outside the comments is back to 0,
    and [index] when there is none. *)
Lemma moveToClosingBracket_separate (code : text) (index : Z) (cs : list Comment) :
  separateComments code index cs ->
  moveToClosingBracket code index cs
  = Return (default index (closingIndex code 1 (outsideComments code index cs))).
Proof.
  intros Hsep. rewrite moveToClosingBracket_examined.
  rewrite (examined_separate code index cs Hsep). unfold outsideComments.
  rewrite <- (filter_filter_weaker (fun j => negb (covers cs j))
                                   (fun j => negb (skips cs j))).
  - rewrite (closingIndex_filter code (fun j => negb (covers cs j))
               (List.filter (fun j => negb (skips cs j))
                            (seqZ (index + 1) (strlen code - (index + 1)))));
      [reflexivity| |lia].
    intros j Hj Hcov. apply filter_In in Hj. destruct Hj as (_ & Hskip).
    apply negb_false_iff in Hcov. apply negb_true_iff in Hskip.
    unfold covers in Hcov. apply existsb_exists in Hcov.
    destruct Hcov as (c & Hc & Hinc). apply includes_spec in Hinc.
    destruct Hsep as (_ & Hvalid). rewrite Forall_forall in Hvalid.
    destruct (Hvalid c ltac:(apply list_elem_of_In; exact Hc)) as (_ & Hbrace & _).
    assert (Hnot : (startIndex (interval c) <=? j) && (j <? endIndex (interval c))
                   = false).
    { apply not_true_is_false. intros Hyes.
      assert (Hs : skips cs j = true)
        by (unfold skips; apply existsb_exists; exists c; split; assumption).
      congruence. }
    apply andb_false_iff in Hnot.
    destruct Hnot as [Hn|Hn]; [apply Z.leb_gt in Hn; lia|apply Z.ltb_ge in Hn].
    replace j with (endIndex (interval c)) by lia. exact Hbrace.
  - intros j Hj. apply negb_true_iff in Hj. apply negb_true_iff.
    apply not_true_is_false. intros Hs. apply skips_covers in Hs. congruence.
Qed.

Example moveToClosingBracket_separate_braces :
  separateComments (js "{ /* } */ }") 0 [mkComment multiLine (mkTextInterval 2 8)]
  /\ outsideComments (js "{ /* } */ }") 0 [mkComment multiLine (mkTextInterval 2 8)]
     = [1; 9; 10].
Proof.
  split; [|vm_compute; reflexivity].
  split; [repeat constructor|].
  constructor; [|constructor]. simpl. vm_compute. repeat split; discriminate.
Qed.

(** When the nesting is back to 0 at none of the indexes that the scan
    examines before the end of the text, [moveToClosingBracket] returns
    the index it was given. On comments that do not overlap, these are
    the indexes outside the comments: the matcher returns the index it
    was given when no closing brace outside the comments matches. *)
Theorem moveToClosingBracket_not_found (code : text) (index : Z) (cs : list Comment) :
  (~ In 0 (nestings code 1 (examined code index cs)) ->
   moveToClosingBracket code index cs = Return index)
  /\ (separateComments code index cs ->
      ~ In 0 (nestings code 1 (outsideComments code index cs)) ->
      moveToClosingBracket code index cs = Return index).
Proof.
  split.
  - intros Hnone. rewrite moveToClosingBracket_examined.
    rewrite (closingIndex_None code _ 1 Hnone). reflexivity.
  - intros Hsep Hnone. rewrite (moveToClosingBracket_separate code index cs Hsep).
    rewrite (closingIndex_None code _ 1 Hnone). reflexivity.
Qed.

Lemma moveToClosingBracket_not_found_witness :
  moveToClosingBracket (js "{ /* } */ { x }") 0
                       [mkComment multiLine (mkTextInterval 2 8)]
  = Return 0
  /\ moveToClosingBracket (js "{ /* } */ { x }") 0
                          [mkComment multiLine (mkTextInterval 2 8)]
     = Return 0.
Proof.
  destruct (moveToClosingBracket_not_found (js "{ /* } */ { x }") 0
              [mkComment multiLine (mkTextInterval 2 8)]) as [Hscan Hseparate].
  split.
  - apply Hscan. vm_compute. intros Hin.
    repeat (destruct Hin as [Hin|Hin]; [discriminate Hin|]). exact Hin.
  - apply Hseparate.
    + split; [repeat constructor|].
      constructor; [|constructor]. vm_compute. repeat split; discriminate.
    + vm_compute. intros Hin.
      repeat (destruct Hin as [Hin|Hin]; [discriminate Hin|]). exact Hin.
Defined.

(** C8: on [unclosedText] no closing brace matches the opening brace at
    index 0: the only closing brace of the text, index 12, is inside the
    block comment [2,15], and no index outside the comments holds one.
    The scanner lists the block comment and then the comment [5,10] that
    starts at the [//] inside it; having jumped to 15, the matcher jumps
    back to 10, examines 11 and 12, and returns 12 instead of the index
    it was given. *)
Theorem moveToClosingBracket_unclosed_nested_comment :
  findComments unclosedText = Return unclosedComments
  /\ List.filter (fun j => charIs unclosedText j rbrace)
                 (seqZ 0 (strlen unclosedText)) = [12]
  /\ covers unclosedComments 12 = true
  /\ includes (mkTextInterval 2 15) 12 = true
  /\ outsideComments unclosedText 0 unclosedComments = [1; 16; 17]
  /\ closingIndex unclosedText 1 (outsideComments unclosedText 0 unclosedComments)
     = None
  /\ examined unclosedText 0 unclosedComments = [1; 15; 10; 11; 12; 13; 14; 15; 16; 17]
  /\ moveToClosingBracket unclosedText 0 unclosedComments = Return 12.
Proof. repeat split; vm_compute; reflexivity. Qed.

(** ** Depth counted by [getScopeOf] on comments that do not overlap *)

Lemma covers_after (cs : list Comment) (j : Z) :
  Forall (fun c => j < startIndex (interval c)) cs -> covers cs j = false.
Proof.
  intros Hall. apply not_true_is_false. intros Hex.
  apply existsb_exists in Hex. destruct Hex as (c & Hc & Hinc).
  rewrite Forall_forall in Hall. apply list_elem_of_In, Hall in Hc.
  apply includes_spec in Hinc. lia.
Qed.

Lemma scopeLoop_apart (code : text) (limit : Z) (cs : list Comment) (fuel : nat) :
  forall (i : Z) (k : nat) (scope : Z),
    (Z.to_nat (limit - i) + jumpBudget limit (drop k cs) < fuel)%nat ->
    StronglySorted apart (drop k cs) ->
    Forall (fun c => i <= startIndex (interval c) <= endIndex (interval c))
           (drop k cs) ->
    scopeLoop fuel code cs limit i k scope
    = Return (scope
              + depthOver code
                  (List.filter (fun j => negb (covers (drop k cs) j))
                               (seqZ i (limit - i)))).
Proof.
  induction fuel as [|fuel IH]; intros i k scope Hfuel Hsorted Hvalid; [lia|].
  simpl. destruct (Z.ltb_spec i limit) as [Hin|Hout];
    [|rewrite seqZ_nil by lia; simpl; f_equal; lia].
  assert (Hexamine :
            (if charIs code i lbrace
             then scopeLoop fuel code cs limit (i + 1) k (scope + 1)
             else if charIs code i rbrace
                  then scopeLoop fuel code cs limit (i + 1) k (scope - 1)
                  else scopeLoop fuel code cs limit (i + 1) k scope)
            = scopeLoop fuel code cs limit (i + 1) k (scope + braceValue code i)).
  { unfold braceValue. destruct (charIs code i lbrace); [reflexivity|].
    destruct (charIs code i rbrace); [reflexivity|]. rewrite Z.add_0_r. reflexivity. }
  rewrite Hexamine. clear Hexamine.
  destruct (cs !! k) as [c|] eqn:Hk.
  - rewrite (jumpBudget_consume _ _ _ _ Hk) in Hfuel.
    rewrite (drop_S cs c k Hk) in Hsorted, Hvalid |- *.
    apply StronglySorted_inv in Hsorted. destruct Hsorted as (Hrest & Hafter).
    apply Forall_cons in Hvalid. destruct Hvalid as (Hc & Hvalid).
    assert (Hstarts : Forall (fun c' => endIndex (interval c) < startIndex (interval c'))
                             (drop (S k) cs)) by exact Hafter.
    clear Hafter. destruct c as [t [s e]]. simpl in Hfuel, Hc, Hstarts. simpl.
    destruct (Z.leb_spec s i) as [Hjump|Hwalk].
    + (* the cursor is at the start of the comment: go on after its end *)
      rewrite IH; [|lia|exact Hrest|].
      2:{ rewrite Forall_forall in Hstarts, Hvalid |- *.
          intros c' Hc'. specialize (Hstarts c' Hc'). specialize (Hvalid c' Hc').
          simpl in *. lia. }
      do 3 f_equal.
      destruct (Z.le_gt_cases (e + 1) limit) as [Hinside|Hbeyond].
      * replace (limit - i) with ((e + 1 - i) + (limit - (e + 1))) by lia.
        rewrite seqZ_app by lia. rewrite List.filter_app.
        rewrite (filter_none _ (seqZ i (e + 1 - i))).
        2:{ intros j Hj. apply list_elem_of_In, elem_of_seqZ in Hj.
            simpl. unfold includes. simpl.
            destruct (Z.leb_spec s j); [|lia]. destruct (Z.leb_spec j e); [|lia].
            reflexivity. }
        replace (i + (e + 1 - i)) with (e + 1) by lia. simpl.
        apply List.filter_ext_in. intros j Hj.
        apply list_elem_of_In, elem_of_seqZ in Hj. simpl. unfold includes. simpl.
        destruct (Z.leb_spec j e); [lia|]. rewrite andb_false_r. reflexivity.
      * rewrite (seqZ_nil (e + 1)) by lia. simpl. symmetry. apply filter_none.
        intros j Hj. apply list_elem_of_In, elem_of_seqZ in Hj.
        simpl. unfold includes. simpl.
        destruct (Z.leb_spec s j); [|lia]. destruct (Z.leb_spec j e); [|lia].
        reflexivity.
    + (* the comment starts further on: examine [i] *)
      rewrite (seqZ_cons i) by lia. simpl. unfold includes at 1. simpl.
      destruct (Z.leb_spec s i); [lia|]. simpl.
      rewrite (covers_after (drop (S k) cs) i).
      2:{ eapply Forall_impl; [exact Hstarts|]. simpl. intros c' Hc'. lia. }
      simpl.
      replace (Z.succ i) with (i + 1) by lia.
      replace (Z.pred (limit - i)) with (limit - (i + 1)) by lia.
      rewrite IH.
      * rewrite (drop_S cs _ k Hk). f_equal. rewrite <- Z.add_assoc. reflexivity.
      * rewrite (jumpBudget_consume _ _ _ _ Hk). simpl. lia.
      * rewrite (drop_S cs _ k Hk). constructor; assumption.
      * rewrite (drop_S cs _ k Hk). constructor; [simpl; lia|].
        rewrite Forall_forall in Hstarts, Hvalid |- *.
        intros c' Hc'. specialize (Hstarts c' Hc'). specialize (Hvalid c' Hc').
        simpl in *. lia.
  - (* no comment is left *)
    rewrite (drop_ge cs k) in * by (apply lookup_ge_None; exact Hk).
    rewrite (seqZ_cons i) by lia. simpl.
    replace (Z.succ i) with (i + 1) by lia.
    replace (Z.pred (limit - i)) with (limit - (i + 1)) by lia.
    rewrite IH.
    + rewrite (drop_ge cs k) by (apply lookup_ge_None; exact Hk). f_equal.
      rewrite <- Z.add_assoc. reflexivity.
    + rewrite (drop_ge cs k) by (apply lookup_ge_None; exact Hk). simpl in *. lia.
    + rewrite (drop_ge cs k) by (apply lookup_ge_None; exact Hk). constructor.
    + rewrite (drop_ge cs k) by (apply lookup_ge_None; exact Hk). constructor.
Qed.

Lemma covers_app (cs cs' : list Comment) (j : Z) :
  covers (cs ++ cs') j = covers cs j || covers cs' j.
Proof. unfold covers. apply existsb_app. Qed.

Lemma covers_before (cs : list Comment) (j : Z) :
  Forall (fun c => endIndex (interval c) < j) cs -> covers cs j = false.
Proof.
  intros Hall. apply not_true_is_false. intros Hex.
  apply existsb_exists in Hex. destruct Hex as (c & Hc & Hinc).
  rewrite Forall_forall in Hall. apply list_elem_of_In, Hall in Hc.
  apply includes_spec in Hinc. lia.
Qed.

(** On a class whose comments do not overlap, at an index outside them,
    [getScopeOf] counts the braces outside the comments from the index to
    the end of the body. *)
Lemma getScopeOf_separate (this : JavaClass) (index : Z) (code : text) :
  StronglySorted apart (comments this) ->
  Forall (fun c => startIndex (interval c) <= endIndex (interval c)
                   /\ includes (interval c) index = false) (comments this) ->
  getScopeOf this index code = Return (depthToBodyEnd this index code).
Proof.
  intros Hsorted Hvalid. unfold getScopeOf, depthToBodyEnd.
  destruct (skipCommentsBefore_separate (comments this) index Hsorted)
    as (Htake & Hdrop).
  { eapply Forall_impl; [exact Hvalid|]. simpl. intros c (_ & Hc). exact Hc. }
  set (k := skipCommentsBefore (comments this) index (length (comments this)) 0) in *.
  rewrite scopeLoop_apart.
  - rewrite Z.add_0_l. do 2 f_equal. apply List.filter_ext_in. intros j Hj.
    apply list_elem_of_In, elem_of_seqZ in Hj.
    rewrite <- (take_drop k (comments this)) at 2. rewrite covers_app.
    rewrite (covers_before (take k (comments this)) j); [reflexivity|].
    eapply Forall_impl; [exact Htake|]. simpl. intros c Hc. lia.
  - unfold scanFuel.
    pose proof (jumpBudget_drop (endIndex (bodyInterval this)) k (comments this)).
    lia.
  - apply StronglySorted_drop. exact Hsorted.
  - assert (Hsub : Forall (fun c => startIndex (interval c) <= endIndex (interval c))
                          (drop k (comments this))).
    { apply Forall_forall. intros c Hc. rewrite Forall_forall in Hvalid.
      assert (Hin : c ∈ comments this).
      { apply list_elem_of_lookup in Hc. destruct Hc as (n & Hn).
        rewrite lookup_drop in Hn. apply list_elem_of_lookup. exists (k + n)%nat.
        exact Hn. }
      exact (proj1 (Hvalid c Hin)). }
    rewrite Forall_forall in Hsub, Hdrop |- *. intros c Hc.
    specialize (Hsub c Hc). specialize (Hdrop c Hc). simpl in *. lia.
Qed.

(** ** Insertion index *)

Lemma scopeLoop_total (fuel : nat) :
  forall (code : text) (cs : list Comment) (limit i : Z) (k : nat) (scope : Z),
  (Z.to_nat (limit - i) + jumpBudget limit (drop k cs) < fuel)%nat ->
  exists depth, scopeLoop fuel code cs limit i k scope = Return depth.
Proof.
  induction fuel as [|fuel IH]; intros code cs limit i k scope Hfuel; [lia|].
  simpl. destruct (Z.ltb_spec i limit) as [Hin|Hout]; [|exists scope; reflexivity].
  assert (Hexamine : forall s,
             exists depth, scopeLoop fuel code cs limit (i + 1) k s = Return depth).
  { intros s. apply IH. lia. }
  assert (Hbody : exists depth,
             (if charIs code i lbrace
              then scopeLoop fuel code cs limit (i + 1) k (scope + 1)
              else if charIs code i rbrace
                   then scopeLoop fuel code cs limit (i + 1) k (scope - 1)
                   else scopeLoop fuel code cs limit (i + 1) k scope)
             = Return depth).
  { destruct (charIs code i lbrace); [apply Hexamine|].
    destruct (charIs code i rbrace); apply Hexamine. }
  destruct (cs !! k) as [c|] eqn:Hk; [|exact Hbody].
  destruct (startIndex (interval c) <=? i); [|exact Hbody].
  apply IH. rewrite (jumpBudget_consume _ _ _ _ Hk) in Hfuel. lia.
Qed.

(** [getScopeOf] returns on every class, index and text. *)
Lemma getScopeOf_total (this : JavaClass) (index : Z) (code : text) :
  exists depth, getScopeOf this index code = Return depth.
Proof.
  unfold getScopeOf. apply scopeLoop_total. unfold scanFuel.
  pose proof (jumpBudget_drop (endIndex (bodyInterval this))
                (skipCommentsBefore (comments this) index
                                    (length (comments this)) 0)
                (comments this)).
  lia.
Qed.

Lemma belongsToAComment_spec (this : JavaClass) (index : Z) :
  belongsToAComment this index = true
  <-> exists c, In c (comments this)
                /\ startIndex (interval c) <= index <= endIndex (interval c).
Proof.
  unfold belongsToAComment. rewrite existsb_exists.
  split; intros (c & Hin & Hc); exists c; (split; [exact Hin|]);
    apply includes_spec; exact Hc.
Qed.

(** [getInsertIndex] returns the end of the body when the probed index
    is outside the body, or holds no white space, or lies inside a comment
    of the class, or when the depth that [getScopeOf] counts from the
    index to the end of the body is not 0; it returns the index itself in
    every other case. [getScopeOf] returns a depth on every input; on
    comments that do not overlap it is the depth of the braces outside
    the comments. *)
Theorem getInsertIndex_spec (this : JavaClass) (javaFileContent : text) (index : Z) :
  exists depth,
    getScopeOf this index javaFileContent = Return depth
    /\ (StronglySorted apart (comments this) ->
        Forall (fun c => startIndex (interval c) <= endIndex (interval c)
                         /\ includes (interval c) index = false) (comments this) ->
        depth = depthToBodyEnd this index javaFileContent)
    /\ ((index < startIndex (bodyInterval this)
         \/ endIndex (bodyInterval this) < index
         \/ (forall c, charAt javaFileContent index = Some c -> isWhitespace c = false)
         \/ (exists c, In c (comments this)
                       /\ startIndex (interval c) <= index <= endIndex (interval c))
         \/ depth <> 0) ->
        getInsertIndex this javaFileContent index
        = Return (endIndex (bodyInterval this)))
    /\ (startIndex (bodyInterval this) <= index <= endIndex (bodyInterval this) ->
        (exists c, charAt javaFileContent index = Some c /\ isWhitespace c = true) ->
        (forall c, In c (comments this) ->
                   ~ startIndex (interval c) <= index <= endIndex (interval c)) ->
        depth = 0 ->
        getInsertIndex this javaFileContent index = Return index).
Proof.
  destruct (getScopeOf_total this index javaFileContent) as (depth & Hdepth).
  exists depth. split; [exact Hdepth|]. split.
  { intros Hsorted Hvalid.
    rewrite (getScopeOf_separate this index javaFileContent Hsorted Hvalid) in Hdepth.
    injection Hdepth as <-. reflexivity. }
  unfold getInsertIndex. rewrite Hdepth. simpl.
  destruct (includes (bodyInterval this) index) eqn:Hbody; simpl.
  - apply includes_spec in Hbody.
    unfold isWhitespaceAt.
    destruct (charAt javaFileContent index) as [c|] eqn:Hat.
    + destruct (isWhitespace c) eqn:Hws; simpl.
      * destruct (belongsToAComment this index) eqn:Hcomment.
        -- split; [reflexivity|]. intros _ _ Hnone _.
           apply belongsToAComment_spec in Hcomment.
           destruct Hcomment as (k & Hin & Hk). contradiction (Hnone k Hin Hk).
        -- destruct (Z.eqb_spec depth 0) as [Hz|Hnz]; simpl.
           ++ split; [|reflexivity].
              intros [Hlow|[Hhigh|[Hnows|[Hin|Hne]]]]; try lia.
              ** specialize (Hnows c eq_refl). congruence.
              ** apply belongsToAComment_spec in Hin. congruence.
           ++ split; [reflexivity|]. intros _ _ _ Hz. contradiction.
      * split; [reflexivity|]. intros _ (d & [= <-] & Hd) _ _. congruence.
    + simpl. split; [reflexivity|]. intros _ (d & Hd & _) _ _. discriminate.
  - split; [reflexivity|]. intros Hin _ _ _.
    apply includes_spec in Hin. congruence.
Qed.

(** C4: [twoCommentsText] is a class whose body holds two block comments
    with [//] on their first line. The scanner lists the four comments of
    [twoComments], and the parser builds [twoCommentsClass], whose body
    [8,47] is the body of the class. Index 31, the blank after the field,
    is inside the body, holds white space, lies in no comment of the
    class, and the depth of the braces outside the comments from there to
    the end of the body is 0. [getScopeOf] jumps to the end of the second
    block comment, 45, then back to the end of the comment that starts at
    the [//] inside it, 40, and counts the closing brace of the block
    comment: it returns -1, and [getInsertIndex] returns the end of the
    body, 47, where the index itself is expected. *)
Theorem getInsertIndex_nested_comments :
  findComments twoCommentsText = Return twoComments
  /\ findClasses twoCommentsText twoComments [mkClassMatch 0 8 "A"]
     = Return ([0%nat], [twoCommentsClass])
  /\ includes (bodyInterval twoCommentsClass) 31 = true
  /\ isWhitespaceAt twoCommentsText 31 = true
  /\ belongsToAComment twoCommentsClass 31 = false
  /\ covers twoComments 31 = false
  /\ depthToBodyEnd twoCommentsClass 31 twoCommentsText = 0
  /\ getScopeOf twoCommentsClass 31 twoCommentsText = Return (-1)
  /\ getInsertIndex twoCommentsClass twoCommentsText 31 = Return 47.
Proof. repeat split; vm_compute; reflexivity. Qed.

(** ** Class tree: scope *)

Lemma getScope_fuel_mono (fuel : nat) : forall (fuel' : nat) (h : heap) (this : ref) (n : Z),
  getScope fuel h this = Return n -> (fuel <= fuel')%nat ->
  getScope fuel' h this = Return n.
Proof.
  induction fuel as [|fuel IH]; intros fuel' h this n; simpl; [discriminate|].
  intros Hrun Hle. destruct fuel' as [|fuel']; [lia|]. simpl.
  destruct (deref h this) as [self| |]; simpl in *; try discriminate.
  destruct (outherClass self) as [outher|]; [|exact Hrun].
  destruct (getScope fuel h outher) as [scope| |] eqn:Hout; simpl in Hrun;
    try discriminate.
  rewrite (IH fuel' h outher scope Hout) by lia. exact Hrun.
Qed.

Example nestedHeap_built :
  moveToClosingBracket nestedText 8 [] = Return 33
  /\ moveToClosingBracket nestedText 18 [] = Return 31
  /\ (a <- JavaClass_of "A" (mkTextInterval 0 7) (mkTextInterval 8 33) [] [] ;;
      b <- JavaClass_of "B" (mkTextInterval 10 17) (mkTextInterval 18 31) [] (snd a) ;;
      add (fst a) (fst b) (snd b)) = Return nestedHeap.
Proof. repeat split; vm_compute; reflexivity. Qed.

(** C1, as stated, fails: the scope of a class that has no outer class
    is 1, not 0. *)
Lemma getScope_top_level_counterexample :
  ~ (forall (fuel : nat) (h : heap) (this : ref) (self : JavaClass),
        h !! this = Some self -> outherClass self = None ->
        getScope (S fuel) h this = Return 0).
Proof.
  intros Hclaim.
  specialize (Hclaim 0%nat nestedHeap 0%nat _ eq_refl eq_refl).
  vm_compute in Hclaim. discriminate Hclaim.
Qed.

(** C1, amended: [getScope] returns 1 on a class that has no outer class,
    and 1 plus what it returns on the outer class on a class that has
    one. *)
Theorem getScope_spec (fuel : nat) (h : heap) (this : ref) (self : JavaClass) :
  h !! this = Some self ->
  (outherClass self = None -> getScope (S fuel) h this = Return 1)
  /\ (forall outher scope,
         outherClass self = Some outher ->
         getScope fuel h outher = Return scope ->
         getScope (S fuel) h this = Return (scope + 1)).
Proof.
  intros Hself. simpl. unfold deref. rewrite Hself. simpl. split.
  - intros ->. reflexivity.
  - intros outher scope -> ->. reflexivity.
Qed.

Lemma getScope_spec_witness :
  getScope 1 nestedHeap 0%nat = Return 1
  /\ getScope 2 nestedHeap 1%nat = Return (1 + 1).
Proof.
  split.
  - apply (getScope_spec 0 nestedHeap 0%nat _ eq_refl). reflexivity.
  - apply (getScope_spec 1 nestedHeap 1%nat _ eq_refl) with (outher := 0%nat);
      reflexivity.
Defined.

(** ** Method locator on a class without comments *)

(** A match owned by a class that holds no comment makes
    [findExistingMethod] throw: [findJavaDoc] reads [comments[0].interval]. *)
Lemma findExistingMethod_no_comment (fuel : nat) (h : heap) (code : text)
    (m : RegExpMatch) (rest : list RegExpMatch) (javaClass : ref) (self : JavaClass) :
  h !! javaClass = Some self ->
  comments self = [] ->
  getEnclosingClass fuel h javaClass (matchIndex m) = Return (Some javaClass) ->
  findExistingMethod fuel h code (m :: rest) javaClass = Throw TypeError.
Proof.
  intros Hself Hnone Howner. simpl. rewrite Howner. simpl.
  rewrite Nat.eqb_refl. unfold deref. rewrite Hself. simpl.
  rewrite Hnone. reflexivity.
Qed.

(** C2: on [plainText], whose class [A] holds no comment and owns the
    match of the method, [findExistingMethod] throws a [TypeError]. *)
Theorem findExistingMethod_throws_without_comments :
  findComments plainText = Return []
  /\ moveToClosingBracket plainText 8 [] = Return 21
  /\ JavaClass_of "A" (mkTextInterval 0 7) (mkTextInterval 8 21) [] []
     = Return (0%nat, plainHeap)
  /\ getEnclosingClass 1 plainHeap 0%nat (matchIndex plainMatch) = Return (Some 0%nat)
  /\ findJavaDoc plainText (matchIndex plainMatch) [] = Throw TypeError
  /\ findExistingMethod 1 plainHeap plainText [plainMatch] 0%nat = Throw TypeError.
Proof. repeat split; vm_compute; reflexivity. Qed.

(** ** Class tree: enclosing class *)

Lemma firstPointed_skip (pointed : ref -> outcome (option ref)) (this : ref)
    (before rest : list ref) :
  Forall (fun x => pointed x = Return None) before ->
  firstPointed pointed this (before ++ rest) = firstPointed pointed this rest.
Proof.
  induction 1 as [|x before Hx _ IH]; simpl; [reflexivity|].
  rewrite Hx. simpl. exact IH.
Qed.

Lemma firstPointed_nonnull (pointed : ref -> outcome (option ref)) (this : ref)
    (inner : list ref) (found : option ref) :
  firstPointed pointed this inner = Return found -> found <> None.
Proof.
  induction inner as [|x inner IH]; simpl.
  - intros [= <-]. discriminate.
  - destruct (pointed x) as [[p|]| |]; simpl; try discriminate.
    + intros [= <-]. discriminate.
    + exact IH.
Qed.

Lemma firstPointed_cons (pointed : ref -> outcome (option ref)) (this x : ref)
    (rest : list ref) :
  firstPointed pointed this (x :: rest)
  = (pointedClass <- pointed x ;;
     match pointedClass with
     | Some p => Return (Some p)
     | None => firstPointed pointed this rest
     end).
Proof. reflexivity. Qed.

Lemma getEnclosingClass_inside (fuel : nat) (h : heap) (this : ref)
    (self : JavaClass) (index : Z) :
  h !! this = Some self -> includes (classInterval self) index = true ->
  getEnclosingClass (S fuel) h this index
  = firstPointed (fun innerClass => getEnclosingClass fuel h innerClass index)
                 this (innerClasses self).
Proof.
  intros Hself Hin. simpl. unfold deref. rewrite Hself. simpl.
  rewrite Hin. reflexivity.
Qed.

Lemma getEnclosingClass_miss (fuel : nat) (h : heap) (index : Z) (r : ref) :
  misses h index r -> getEnclosingClass (S fuel) h r index = Return None.
Proof.
  intros (c & Hc & Hout). simpl. unfold deref. rewrite Hc. simpl.
  rewrite Hout. reflexivity.
Qed.

Lemma getEnclosingClass_nonnull (fuel : nat) (h : heap) (index : Z) (r : ref)
    (found : option ref) :
  spans h index r -> getEnclosingClass fuel h r index = Return found ->
  found <> None.
Proof.
  intros (c & Hc & Hin). destruct fuel as [|fuel]; simpl; [discriminate|].
  unfold deref. rewrite Hc. simpl. rewrite Hin. simpl.
  apply firstPointed_nonnull.
Qed.

Lemma JavaClass_of_inv (n : string) (sig body : TextInterval) (cs : list Comment)
    (h h' : heap) (r : ref) :
  JavaClass_of n sig body cs h = Return (r, h') ->
  exists classComments,
    r = length h
    /\ h' = h ++ [mkJavaClass n classComments sig body
                    (mkTextInterval (startIndex sig) (endIndex body)) [] None].
Proof.
  unfold JavaClass_of, JavaClass_new.
  destruct (TextInterval_of (startIndex sig) (endIndex body)) as [cls| |] eqn:Hcls;
    simpl; try discriminate.
  intros [= <- <-].
  destruct (TextInterval_of_bounds _ _ cls Hcls) as (Hs & He & _).
  destruct cls as [s e]. simpl in Hs, He. subst s e. eexists. split; reflexivity.
Qed.

Lemma add_inv (this innerClass : ref) (h h' : heap) :
  this <> innerClass ->
  add this innerClass h = Return h' ->
  exists self inner,
    h !! this = Some self /\ h !! innerClass = Some inner
    /\ outherClass inner = None
    /\ liesWithin (classInterval inner) (bodyInterval self) = true
    /\ h' = <[innerClass := mkJavaClass (name inner) (comments inner)
                              (signatureInterval inner) (bodyInterval inner)
                              (classInterval inner) (innerClasses inner)
                              (Some this)]>
              (<[this := mkJavaClass (name self) (comments self)
                           (signatureInterval self) (bodyInterval self)
                           (classInterval self) (innerClasses self ++ [innerClass])
                           (outherClass self)]> h).
Proof.
  intros Hne. unfold add, setOutherClass, deref.
  destruct (h !! this) as [self|] eqn:Hself; simpl; [|discriminate].
  destruct (h !! innerClass) as [inner|] eqn:Hinner; simpl; [|discriminate].
  destruct (liesWithin (classInterval inner) (bodyInterval self)) eqn:Hlies;
    simpl; [|discriminate].
  rewrite list_lookup_insert_ne by exact Hne. rewrite Hinner. simpl.
  destruct (outherClass inner) eqn:Hout; [discriminate|].
  rewrite list_lookup_insert_eq by (apply lookup_lt_Some in Hself; exact Hself).
  simpl. rewrite Hlies. simpl. intros [= <-].
  exists self, inner. repeat split; try assumption.
Qed.

Lemma add_Return (this innerClass : ref) (h : heap) (self inner : JavaClass) :
  this <> innerClass ->
  h !! this = Some self -> h !! innerClass = Some inner ->
  outherClass inner = None ->
  liesWithin (classInterval inner) (bodyInterval self) = true ->
  add this innerClass h
  = Return (<[innerClass := mkJavaClass (name inner) (comments inner)
                              (signatureInterval inner) (bodyInterval inner)
                              (classInterval inner) (innerClasses inner)
                              (Some this)]>
              (<[this := mkJavaClass (name self) (comments self)
                           (signatureInterval self) (bodyInterval self)
                           (classInterval self) (innerClasses self ++ [innerClass])
                           (outherClass self)]> h)).
Proof.
  intros Hne Hself Hinner Hout Hlies. unfold add, setOutherClass, deref.
  rewrite Hself, Hinner. simpl. rewrite Hlies. simpl.
  rewrite list_lookup_insert_ne by exact Hne. rewrite Hinner. simpl.
  rewrite Hout.
  rewrite list_lookup_insert_eq by (apply lookup_lt_Some in Hself; exact Hself).
  simpl. rewrite Hlies. reflexivity.
Qed.

(** C5: [getEnclosingClass] returns [null] at an index outside the class
    interval; at an index inside it, it returns what the first inner class
    whose class interval holds the index returns, which is not [null], and
    the class itself when no inner class holds the index. In particular,
    when the class interval of [B] lies within the body of [A], whose
    signature starts no later than its body, [A] accepts [B] as an inner
    class, the outer class of [B] is then [A], and [getEnclosingClass] on
    [A] returns [B] at every index of the class interval of [B]. *)
Theorem getEnclosingClass_spec :
  (forall (fuel : nat) (h : heap) (this : ref) (self : JavaClass) (index : Z),
      h !! this = Some self ->
      (includes (classInterval self) index = false ->
       getEnclosingClass (S fuel) h this index = Return None)
      /\ (includes (classInterval self) index = true ->
          (forall before child after found,
              innerClasses self = before ++ child :: after ->
              Forall (misses h index) before ->
              spans h index child ->
              getEnclosingClass (S fuel) h child index = Return found ->
              found <> None
              /\ getEnclosingClass (S (S fuel)) h this index = Return found)
          /\ (Forall (misses h index) (innerClasses self) ->
              getEnclosingClass (S (S fuel)) h this index = Return (Some this))))
  /\ (forall (h0 h1 h2 : heap) (a b : ref) nameA sigA bodyA nameB sigB bodyB cs,
         JavaClass_of nameA sigA bodyA cs h0 = Return (a, h1) ->
         JavaClass_of nameB sigB bodyB cs h1 = Return (b, h2) ->
         startIndex sigA <= startIndex bodyA ->
         liesWithin (mkTextInterval (startIndex sigB) (endIndex bodyB)) bodyA = true ->
         exists h3 classB,
           add a b h2 = Return h3
           /\ h3 !! b = Some classB
           /\ outherClass classB = Some a
           /\ classInterval classB = mkTextInterval (startIndex sigB) (endIndex bodyB)
           /\ forall fuel index,
                includes (classInterval classB) index = true ->
                getEnclosingClass (S (S fuel)) h3 a index = Return (Some b)).
Proof.
  split.
  - intros fuel h this self index Hself. split; [|intros Hin; split].
    + intros Hout. apply getEnclosingClass_miss. exists self. split; assumption.
    + intros before child after found Hinner Hbefore Hchild Hfound.
      pose proof (getEnclosingClass_nonnull _ _ _ _ _ Hchild Hfound) as Hnonnull.
      split; [exact Hnonnull|].
      rewrite (getEnclosingClass_inside (S fuel) h this self index Hself Hin).
      rewrite Hinner, firstPointed_skip.
      * rewrite firstPointed_cons. cbv beta. rewrite Hfound.
        destruct found as [p|]; [reflexivity|contradiction].
      * eapply Forall_impl; [exact Hbefore|].
        intros x Hx. apply getEnclosingClass_miss. exact Hx.
    + intros Hnone.
      rewrite (getEnclosingClass_inside (S fuel) h this self index Hself Hin).
      rewrite <- (app_nil_r (innerClasses self)). rewrite firstPointed_skip.
      * reflexivity.
      * eapply Forall_impl; [exact Hnone|].
        intros x Hx. apply getEnclosingClass_miss. exact Hx.
  - intros h0 h1 h2 a b nameA sigA bodyA nameB sigB bodyB cs HA HB Hshape Hlies.
    apply JavaClass_of_inv in HA. destruct HA as (csA & -> & ->).
    apply JavaClass_of_inv in HB. destruct HB as (csB & -> & ->).
    rewrite length_app. simpl length.
    set (clsA := mkJavaClass nameA csA sigA bodyA
                   (mkTextInterval (startIndex sigA) (endIndex bodyA)) [] None).
    set (clsB := mkJavaClass nameB csB sigB bodyB
                   (mkTextInterval (startIndex sigB) (endIndex bodyB)) [] None).
    assert (HlookA : ((h0 ++ [clsA]) ++ [clsB]) !! length h0 = Some clsA).
    { rewrite lookup_app_l by (rewrite length_app; simpl; lia).
      apply list_lookup_middle. reflexivity. }
    assert (HlookB : ((h0 ++ [clsA]) ++ [clsB]) !! (length h0 + 1)%nat = Some clsB).
    { apply list_lookup_middle. rewrite length_app. reflexivity. }
    eexists. eexists. split.
    { apply (add_Return _ _ _ clsA clsB); [lia|exact HlookA|exact HlookB| |exact Hlies].
      reflexivity. }
    apply liesWithin_spec in Hlies. simpl in Hlies.
    split.
    + apply list_lookup_insert_eq. rewrite length_insert, !length_app. simpl. lia.
    + simpl. split; [reflexivity|]. split; [reflexivity|].
      intros fuel index Hindex. apply includes_spec in Hindex. simpl in Hindex.
      simpl. unfold deref.
      rewrite list_lookup_insert_ne by lia.
      rewrite list_lookup_insert_eq by (rewrite !length_app; simpl; lia).
      simpl.
      assert (HinA : includes (mkTextInterval (startIndex sigA) (endIndex bodyA)) index
                     = true) by (apply includes_spec; simpl; lia).
      rewrite HinA. simpl.
      rewrite list_lookup_insert_eq
        by (rewrite length_insert, !length_app; simpl; lia).
      simpl.
      assert (HinB : includes (mkTextInterval (startIndex sigB) (endIndex bodyB)) index
                     = true) by (apply includes_spec; simpl; lia).
      rewrite HinB. reflexivity.
Qed.

Lemma getEnclosingClass_spec_witness :
  getEnclosingClass 1 nestedHeap 0%nat 40 = Return None
  /\ getEnclosingClass 2 nestedHeap 0%nat 20 = Return (Some 1%nat)
  /\ getEnclosingClass 2 nestedHeap 0%nat 9 = Return (Some 0%nat)
  /\ exists h3 classB,
       add 0%nat 1%nat
           [mkJavaClass "A" [] (mkTextInterval 0 7) (mkTextInterval 8 33)
                        (mkTextInterval 0 33) [] None;
            mkJavaClass "B" [] (mkTextInterval 10 17) (mkTextInterval 18 31)
                        (mkTextInterval 10 31) [] None] = Return h3
       /\ h3 !! 1%nat = Some classB
       /\ outherClass classB = Some 0%nat
       /\ classInterval classB = mkTextInterval 10 31
       /\ forall fuel index,
            includes (classInterval classB) index = true ->
            getEnclosingClass (S (S fuel)) h3 0%nat index = Return (Some 1%nat).
Proof.
  destruct getEnclosingClass_spec as [Hgeneral Hpair].
  split; [|split; [|split]].
  - exact (proj1 (Hgeneral 0%nat nestedHeap 0%nat _ 40 eq_refl) eq_refl).
  - destruct (Hgeneral 0%nat nestedHeap 0%nat _ 20 eq_refl) as [_ Hinside].
    destruct (Hinside eq_refl) as [Hchild _].
    refine (proj2 (Hchild [] 1%nat [] (Some 1%nat) eq_refl ltac:(constructor) _ eq_refl)).
    eexists. split; reflexivity.
  - destruct (Hgeneral 0%nat nestedHeap 0%nat _ 9 eq_refl) as [_ Hinside].
    destruct (Hinside eq_refl) as [_ Hself].
    apply Hself. constructor; [|constructor]. eexists. split; reflexivity.
  - eapply (Hpair [] _ _ 0%nat 1%nat
                  "A"%string (mkTextInterval 0 7) (mkTextInterval 8 33)
                  "B"%string (mkTextInterval 10 17) (mkTextInterval 18 31) []);
      [reflexivity|reflexivity|simpl; lia|reflexivity].
Defined.

(** ** Method locator and inner classes *)

Lemma properHeap_lookup (h : heap) (r : ref) (c : JavaClass) :
  properHeap h = true -> h !! r = Some c -> properClass h c = true.
Proof.
  unfold properHeap. rewrite forallb_forall. intros Hall Hr.
  apply Hall. apply list_elem_of_In. exact (list_elem_of_lookup_2 h r c Hr).
Qed.

Lemma properClass_iff (h : heap) (c : JavaClass) :
  properClass h c = true
  <-> (startIndex (classInterval c) < startIndex (bodyInterval c)
       /\ startIndex (bodyInterval c) <= endIndex (bodyInterval c)
       /\ endIndex (classInterval c) = endIndex (bodyInterval c))
      /\ (forall x, In x (innerClasses c) ->
                    exists cx, h !! x = Some cx
                               /\ liesWithin (classInterval cx) (bodyInterval c) = true)
      /\ (forall o, outherClass c = Some o ->
                    exists oc, h !! o = Some oc
                               /\ liesWithin (classInterval c) (bodyInterval oc) = true).
Proof.
  unfold properClass.
  rewrite !andb_true_iff, forallb_forall, Z.ltb_lt, Z.leb_le, Z.eqb_eq.
  split.
  - intros ((((Hsig & Hbody) & Hend) & Hinner) & Houter).
    split; [repeat split; assumption|]. split.
    + intros x Hx. specialize (Hinner x Hx).
      destruct (h !! x) as [cx|]; [|discriminate]. exists cx. split; [reflexivity|exact Hinner].
    + intros o Ho. rewrite Ho in Houter.
      destruct (h !! o) as [oc|]; [|discriminate]. exists oc. split; [reflexivity|exact Houter].
  - intros ((Hsig & Hbody & Hend) & Hinner & Houter).
    split; [split; [repeat split; assumption|]|].
    + intros x Hx. destruct (Hinner x Hx) as (cx & -> & Hcx). exact Hcx.
    + destruct (outherClass c) as [o|]; [|reflexivity].
      destruct (Houter o eq_refl) as (oc & -> & Hoc). exact Hoc.
Qed.

(** An inner class of a proper class holds fewer indexes than the class. *)
Lemma properClass_inner (h : heap) (c : JavaClass) (x : ref) :
  properClass h c = true -> In x (innerClasses c) ->
  exists cx, h !! x = Some cx /\ (extent cx < extent c)%nat.
Proof.
  intros Hc Hx. apply properClass_iff in Hc.
  destruct Hc as ((Hsig & Hbody & Hend) & Hinner & _).
  destruct (Hinner x Hx) as (cx & Hcx & Hlies).
  exists cx. split; [exact Hcx|].
  apply liesWithin_spec in Hlies. unfold extent, TextInterval_size. lia.
Qed.

(** A class of a proper heap holds fewer indexes than its outer class. *)
Lemma properHeap_outer (h : heap) (r : ref) (c : JavaClass) (o : ref) :
  properHeap h = true -> h !! r = Some c -> outherClass c = Some o ->
  exists oc, h !! o = Some oc /\ (extent c < extent oc)%nat.
Proof.
  intros Hproper Hr Ho.
  pose proof (properHeap_lookup h r c Hproper Hr) as Hc.
  apply properClass_iff in Hc. destruct Hc as ((Hsig & Hbody & Hend) & _ & Houter).
  destruct (Houter o Ho) as (oc & Hoc & Hlies).
  exists oc. split; [exact Hoc|].
  pose proof (properHeap_lookup h o oc Hproper Hoc) as Hshape.
  apply properClass_iff in Hshape. destruct Hshape as ((Hsig' & Hbody' & Hend') & _).
  apply liesWithin_spec in Hlies. unfold extent, TextInterval_size. lia.
Qed.

Lemma firstPointed_cases (pointed : ref -> outcome (option ref)) (this : ref)
    (P Q : ref -> Prop) (inner : list ref) :
  Forall (fun x => (pointed x = Return None /\ ~ P x)
                   \/ exists y, pointed x = Return (Some y) /\ Q y) inner ->
  (firstPointed pointed this inner = Return (Some this)
   /\ Forall (fun x => ~ P x) inner)
  \/ exists y, firstPointed pointed this inner = Return (Some y) /\ Q y.
Proof.
  induction 1 as [|x inner Hx _ IH]; simpl.
  - left. split; [reflexivity|constructor].
  - destruct Hx as [(-> & HnP)|(y & -> & HQ)]; simpl.
    + destruct IH as [(Hrun & Hnone)|(y & Hrun & HQ)].
      * left. split; [exact Hrun|]. constructor; assumption.
      * right. exists y. split; assumption.
    + right. exists y. split; [reflexivity|exact HQ].
Qed.

(** On a proper heap, fuel above the extent of the class suffices for
    [getEnclosingClass] to return; it returns [null] outside the class, and
    inside it a class that holds no more indexes, and fewer when an inner
    class spans the index. *)
Lemma getEnclosingClass_descends (h : heap) (index : Z) :
  properHeap h = true ->
  forall (fuel : nat) (r : ref) (c : JavaClass),
    h !! r = Some c -> (extent c < fuel)%nat ->
    exists found,
      getEnclosingClass fuel h r index = Return found
      /\ (includes (classInterval c) index = false -> found = None)
      /\ (includes (classInterval c) index = true ->
          exists x cx,
            found = Some x /\ h !! x = Some cx
            /\ (extent cx <= extent c)%nat
            /\ ((exists inner, In inner (innerClasses c) /\ spans h index inner) ->
                (extent cx < extent c)%nat)).
Proof.
  intros Hproper. induction fuel as [|fuel IH]; intros r c Hr Hfuel; [lia|].
  destruct (includes (classInterval c) index) eqn:Hin.
  - rewrite (getEnclosingClass_inside fuel h r c index Hr Hin).
    pose proof (properHeap_lookup h r c Hproper Hr) as Hc.
    destruct (firstPointed_cases
                (fun innerClass => getEnclosingClass fuel h innerClass index) r
                (spans h index)
                (fun y => exists cy, h !! y = Some cy /\ (extent cy < extent c)%nat)
                (innerClasses c)) as [(Hrun & Hnone)|(y & Hrun & cy & Hy & Hless)].
    + apply Forall_forall. intros x Hx. apply list_elem_of_In in Hx.
      destruct (properClass_inner h c x Hc Hx) as (cx & Hcx & Hext).
      destruct (IH x cx Hcx ltac:(lia)) as (found & Hfound & Hout & Hinside).
      rewrite Hfound. destruct (includes (classInterval cx) index) eqn:Hinx.
      * right. destruct (Hinside eq_refl) as (y & cy & -> & Hy & Hle & _).
        exists y. split; [reflexivity|]. exists cy. split; [exact Hy|lia].
      * left. rewrite (Hout eq_refl). split; [reflexivity|].
        intros (cx' & Hcx' & Hspan). rewrite Hcx in Hcx'. injection Hcx' as <-.
        congruence.
    + exists (Some r). split; [exact Hrun|]. split; [discriminate|].
      intros _. exists r, c. split; [reflexivity|]. split; [exact Hr|].
      split; [lia|]. intros (inner & Hinner & Hspan).
      rewrite Forall_forall in Hnone.
      exfalso. apply (Hnone inner); [apply list_elem_of_In; exact Hinner|exact Hspan].
    + exists (Some y). split; [exact Hrun|]. split; [discriminate|].
      intros _. exists y, cy. split; [reflexivity|]. split; [exact Hy|].
      split; [lia|]. intros _. exact Hless.
  - exists None. split; [|split; [reflexivity|discriminate]].
    apply getEnclosingClass_miss. exists c. split; assumption.
Qed.

(** C6: when every match of the pattern starts inside an inner class of
    the target class, [findExistingMethod] returns [null]: the class that
    [getEnclosingClass] returns for the match is another object than the
    target. *)
Theorem findExistingMethod_inner_only (fuel : nat) (h : heap) (javaFileContent : text)
    (allMatches : list RegExpMatch) (javaClass : ref) (self : JavaClass) :
  properHeap h = true ->
  h !! javaClass = Some self ->
  (extent self < fuel)%nat ->
  Forall (fun m => exists inner, In inner (innerClasses self)
                                 /\ spans h (matchIndex m) inner) allMatches ->
  findExistingMethod fuel h javaFileContent allMatches javaClass = Return None.
Proof.
  intros Hproper Hself Hfuel Hall.
  induction Hall as [|m rest Hm _ IH]; simpl; [reflexivity|].
  destruct (getEnclosingClass_descends h (matchIndex m) Hproper fuel javaClass self
              Hself Hfuel) as (found & -> & Hout & Hinside).
  simpl.
  assert (Hother : sameObject found javaClass = false).
  { destruct (includes (classInterval self) (matchIndex m)).
    - destruct (Hinside eq_refl) as (x & cx & -> & Hx & _ & Hless).
      specialize (Hless Hm). simpl. apply Nat.eqb_neq. intros ->.
      rewrite Hself in Hx. injection Hx as <-. lia.
    - rewrite (Hout eq_refl). reflexivity. }
  rewrite Hother. exact IH.
Qed.

Lemma findExistingMethod_inner_only_witness :
  findExistingMethod 35 nestedHeap nestedText [nestedMatch] 0%nat = Return None.
Proof.
  apply (findExistingMethod_inner_only 35 nestedHeap nestedText [nestedMatch] 0%nat
           (mkJavaClass "A" [] (mkTextInterval 0 7) (mkTextInterval 8 33)
                        (mkTextInterval 0 33) [1%nat] None)).
  - reflexivity.
  - reflexivity.
  - vm_compute. lia.
  - constructor; [|constructor].
    exists 1%nat. split; [left; reflexivity|].
    eexists. split; reflexivity.
Defined.

(** With a JavaDoc in the class the same call returns the interval of the
    method: from the white space before the JavaDoc to the white space
    after the closing brace. *)
Example findExistingMethod_with_javaDoc :
  findExistingMethod 1
    [mkJavaClass "A" [mkComment javaDoc (mkTextInterval 10 17)]
                 (mkTextInterval 0 7) (mkTextInterval 8 31) (mkTextInterval 0 31)
                 [] None]
    (js "class A { /** d */ void m(){ } }") [mkMatch 18 10] 0%nat
  = Return (Some (mkTextInterval 9 30)).
Proof. vm_compute. reflexivity. Qed.

Example findClasses_nested :
  findClasses nestedText [] [mkClassMatch 0 8 "A"; mkClassMatch 10 8 "B"]
  = Return ([0%nat], nestedHeap).
Proof. vm_compute. reflexivity. Qed.

(** ** Class forest builder: the heaps it builds are proper *)

Lemma properHeap_iff (h : heap) :
  properHeap h = true <-> forall r c, h !! r = Some c -> properClass h c = true.
Proof.
  split.
  - intros Hproper r c Hr. exact (properHeap_lookup h r c Hproper Hr).
  - intros Hall. unfold properHeap. apply forallb_forall. intros c Hc.
    apply list_elem_of_In, list_elem_of_lookup_1 in Hc. destruct Hc as (r & Hr).
    exact (Hall r c Hr).
Qed.

Lemma properClass_mono (h h' : heap) (c : JavaClass) :
  keepsIntervals h h' -> properClass h c = true -> properClass h' c = true.
Proof.
  intros Hkeep. rewrite !properClass_iff.
  intros (Hshape & Hinner & Houter). split; [exact Hshape|]. split.
  - intros x Hx. destruct (Hinner x Hx) as (cx & Hcx & Hlies).
    destruct (Hkeep x cx Hcx) as (cx' & Hcx' & Hclass & _).
    exists cx'. split; [exact Hcx'|]. rewrite Hclass. exact Hlies.
  - intros o Ho. destruct (Houter o Ho) as (oc & Hoc & Hlies).
    destruct (Hkeep o oc Hoc) as (oc' & Hoc' & _ & Hbody).
    exists oc'. split; [exact Hoc'|]. rewrite Hbody. exact Hlies.
Qed.

Lemma keepsIntervals_alloc (h : heap) (c : JavaClass) : keepsIntervals h (h ++ [c]).
Proof.
  intros r cr Hr. exists cr. split; [|split; reflexivity].
  rewrite lookup_app_l by (apply lookup_lt_Some in Hr; exact Hr). exact Hr.
Qed.

Lemma JavaClass_of_proper (n : string) (sig body : TextInterval) (cs : list Comment)
    (h h' : heap) (r : ref) :
  properHeap h = true ->
  startIndex sig < startIndex body -> startIndex body <= endIndex body ->
  JavaClass_of n sig body cs h = Return (r, h') ->
  properHeap h' = true.
Proof.
  intros Hproper Hsig Hbody Hof. apply JavaClass_of_inv in Hof.
  destruct Hof as (classComments & -> & ->).
  apply properHeap_iff. intros r c Hr.
  destruct (lookup_app_Some h [mkJavaClass n classComments sig body
              (mkTextInterval (startIndex sig) (endIndex body)) [] None] r c)
    as [Hcases _].
  destruct (Hcases Hr) as [Hold|(_ & Hnew)].
  - apply (properClass_mono h); [apply keepsIntervals_alloc|].
    exact (properHeap_lookup h r c Hproper Hold).
  - destruct (r - length h)%nat; simpl in Hnew; [|discriminate].
    injection Hnew as <-. apply properClass_iff. simpl.
    split; [repeat split; assumption|]. split.
    + intros x [].
    + intros o Ho. discriminate Ho.
Qed.

Lemma add_proper (this innerClass : ref) (h h' : heap) :
  properHeap h = true -> add this innerClass h = Return h' ->
  properHeap h' = true.
Proof.
  intros Hproper Hadd.
  assert (Hne : this <> innerClass).
  { intros <-. unfold add, deref in Hadd.
    destruct (h !! this) as [self|] eqn:Hself; simpl in Hadd; [|discriminate].
    pose proof (properHeap_lookup h this self Hproper Hself) as Hshape.
    apply properClass_iff in Hshape. destruct Hshape as ((Hsig & _) & _).
    destruct (liesWithin (classInterval self) (bodyInterval self)) eqn:Hlies;
      simpl in Hadd; [|discriminate].
    apply liesWithin_spec in Hlies. lia. }
  destruct (add_inv this innerClass h h' Hne Hadd)
    as (self & inner & Hself & Hinner & _ & Hlies & ->).
  set (self' := mkJavaClass (name self) (comments self) (signatureInterval self)
                  (bodyInterval self) (classInterval self)
                  (innerClasses self ++ [innerClass]) (outherClass self)).
  set (inner' := mkJavaClass (name inner) (comments inner) (signatureInterval inner)
                   (bodyInterval inner) (classInterval inner) (innerClasses inner)
                   (Some this)).
  pose proof (lookup_lt_Some _ _ _ Hself) as Hlt.
  pose proof (lookup_lt_Some _ _ _ Hinner) as Hlt'.
  assert (Hself' : <[innerClass := inner']> (<[this := self']> h) !! this = Some self').
  { rewrite list_lookup_insert_ne by congruence.
    apply list_lookup_insert_eq. exact Hlt. }
  assert (Hinner' : <[innerClass := inner']> (<[this := self']> h) !! innerClass
                    = Some inner').
  { apply list_lookup_insert_eq. rewrite length_insert. exact Hlt'. }
  assert (Hkeep : keepsIntervals h (<[innerClass := inner']> (<[this := self']> h))).
  { intros r c Hr. destruct (Nat.eq_dec r innerClass) as [->|Hri].
    - exists inner'. split; [exact Hinner'|].
      rewrite Hinner in Hr. injection Hr as <-. split; reflexivity.
    - destruct (Nat.eq_dec r this) as [->|Hrt].
      + exists self'. split; [exact Hself'|].
        rewrite Hself in Hr. injection Hr as <-. split; reflexivity.
      + exists c. rewrite !list_lookup_insert_ne by congruence.
        split; [exact Hr|split; reflexivity]. }
  apply properHeap_iff. intros r c Hr.
  destruct (Nat.eq_dec r innerClass) as [->|Hri].
  - (* the inner class: its outer class is now [this] *)
    rewrite Hinner' in Hr. injection Hr as <-.
    pose proof (properClass_mono _ _ _ Hkeep
                  (properHeap_lookup h innerClass inner Hproper Hinner)) as Hok.
    apply properClass_iff in Hok. destruct Hok as (Hshape & Hchildren & _).
    apply properClass_iff. split; [exact Hshape|]. split; [exact Hchildren|].
    intros o [= <-]. exists self'. split; [exact Hself'|exact Hlies].
  - destruct (Nat.eq_dec r this) as [->|Hrt].
    + (* the class: it has one more inner class *)
      rewrite Hself' in Hr. injection Hr as <-.
      pose proof (properClass_mono _ _ _ Hkeep
                    (properHeap_lookup h this self Hproper Hself)) as Hok.
      apply properClass_iff in Hok. destruct Hok as (Hshape & Hchildren & Houter).
      apply properClass_iff. split; [exact Hshape|]. split; [|exact Houter].
      intros x Hx. change (innerClasses self') with (innerClasses self ++ [innerClass]) in Hx.
      apply in_app_or in Hx. destruct Hx as [Hx|[<-|[]]].
      * exact (Hchildren x Hx).
      * exists inner'. split; [exact Hinner'|exact Hlies].
    + rewrite !list_lookup_insert_ne in Hr by congruence.
      apply (properClass_mono h); [exact Hkeep|].
      exact (properHeap_lookup h r c Hproper Hr).
Qed.

Lemma addAll_proper (javaClass : ref) (innerClasses : list ref) :
  forall (h h' : heap),
    properHeap h = true -> addAll javaClass innerClasses h = Return h' ->
    properHeap h' = true.
Proof.
  induction innerClasses as [|x rest IH]; intros h h' Hproper; simpl.
  - intros [= <-]. exact Hproper.
  - destruct (add javaClass x h) as [h1| |] eqn:Hadd; simpl; try discriminate.
    apply IH. exact (add_proper javaClass x h h1 Hproper Hadd).
Qed.

(** Every heap that [parseClasses] returns from a proper heap is proper. *)
Lemma parseClasses_proper (code : text) (allComments : list Comment) (fuel : nat) :
  forall (classMatches : list ClassMatch) (h h' : heap) (classes : list ref),
    properHeap h = true ->
    parseClasses fuel code allComments classMatches h = Return (classes, h') ->
    properHeap h' = true.
Proof.
  induction fuel as [|fuel IH]; intros classMatches h h' classes Hproper; simpl;
    [discriminate|].
  destruct classMatches as [|m rest]; [intros [= <- <-]; exact Hproper|].
  destruct (moveToClosingBracket code _ allComments) as [bodyEnd| |]; simpl;
    try discriminate.
  destruct (TextInterval_of (classIndex m) _) as [sig| |] eqn:Hsig; simpl;
    try discriminate.
  destruct (TextInterval_of _ bodyEnd) as [body| |] eqn:Hbody; simpl;
    try discriminate.
  destruct (JavaClass_of (className m) sig body allComments h) as [[r h1]| |] eqn:Hof;
    simpl; try discriminate.
  destruct (splitInner body rest) as [inner others].
  destruct (parseClasses fuel code allComments inner h1) as [[rs h2]| |] eqn:Hinner;
    simpl; try discriminate.
  destruct (addAll r rs h2) as [h3| |] eqn:Hadd; simpl; try discriminate.
  destruct (parseClasses fuel code allComments others h3) as [[rs' h4]| |] eqn:Hothers;
    simpl; try discriminate.
  intros [= <- <-].
  apply TextInterval_of_bounds in Hsig. destruct Hsig as (Hs1 & Hs2 & Hs3).
  apply TextInterval_of_bounds in Hbody. destruct Hbody as (Hb1 & Hb2 & Hb3).
  assert (H1 : properHeap h1 = true).
  { apply (JavaClass_of_proper (className m) sig body allComments h h1 r Hproper);
      [lia|lia|exact Hof]. }
  pose proof (IH _ _ _ _ H1 Hinner) as H2.
  pose proof (addAll_proper _ _ _ _ H2 Hadd) as H3.
  exact (IH _ _ _ _ H3 Hothers).
Qed.

Lemma splitInner_length (body : TextInterval) (classMatches : list ClassMatch) :
  (length (fst (splitInner body classMatches)) <= length classMatches
   /\ length (snd (splitInner body classMatches)) <= length classMatches)%nat.
Proof.
  induction classMatches as [|m rest IH]; simpl; [lia|].
  destruct (includes body (classIndex m)); simpl; [|lia].
  destruct (splitInner body rest) as [inner others]. simpl in *. lia.
Qed.

Lemma bind_terminates {A B : Type} (m : outcome A) (k : A -> outcome B) :
  m <> OutOfFuel -> (forall a, m = Return a -> k a <> OutOfFuel) ->
  bind m k <> OutOfFuel.
Proof.
  intros Hm Hk. destruct m as [a| |]; simpl;
    [exact (Hk a eq_refl)|discriminate|contradiction].
Qed.

Lemma TextInterval_of_terminates (s e : Z) : TextInterval_of s e <> OutOfFuel.
Proof.
  unfold TextInterval_of.
  destruct (s <? 0); [discriminate|]. destruct (e <? 0); [discriminate|].
  destruct (e <? s); discriminate.
Qed.

Lemma JavaClass_of_terminates (n : string) (sig body : TextInterval)
    (cs : list Comment) (h : heap) :
  JavaClass_of n sig body cs h <> OutOfFuel.
Proof.
  unfold JavaClass_of, JavaClass_new.
  apply bind_terminates; [apply TextInterval_of_terminates|discriminate].
Qed.

Lemma deref_terminates (h : heap) (r : ref) : deref h r <> OutOfFuel.
Proof. unfold deref. destruct (h !! r); discriminate. Qed.

Lemma add_terminates (this innerClass : ref) (h : heap) :
  add this innerClass h <> OutOfFuel.
Proof.
  unfold add, setOutherClass.
  apply bind_terminates; [apply deref_terminates|intros self _].
  apply bind_terminates; [apply deref_terminates|intros inner _].
  destruct (negb _); [discriminate|].
  apply bind_terminates; [apply deref_terminates|intros self0 _].
  destruct (outherClass self0); [discriminate|].
  apply bind_terminates; [apply deref_terminates|intros out _].
  destruct (negb _); discriminate.
Qed.

Lemma addAll_terminates (javaClass : ref) (innerClasses : list ref) :
  forall (h : heap), addAll javaClass innerClasses h <> OutOfFuel.
Proof.
  induction innerClasses as [|x rest IH]; intros h; simpl; [discriminate|].
  apply bind_terminates; [apply add_terminates|intros h1 _; apply IH].
Qed.

Lemma moveToClosingBracket_terminates (code : text) (index : Z) (cs : list Comment) :
  moveToClosingBracket code index cs <> OutOfFuel.
Proof. rewrite moveToClosingBracket_examined. discriminate. Qed.

(** Fuel above the number of matches is enough for [parseClasses]. *)
Lemma parseClasses_terminates (code : text) (allComments : list Comment) (fuel : nat) :
  forall (classMatches : list ClassMatch) (h : heap),
    (length classMatches < fuel)%nat ->
    parseClasses fuel code allComments classMatches h <> OutOfFuel.
Proof.
  induction fuel as [|fuel IH]; intros classMatches h Hfuel; [lia|]. simpl.
  destruct classMatches as [|m rest]; [discriminate|]. simpl in Hfuel.
  apply bind_terminates; [apply moveToClosingBracket_terminates|intros bodyEnd _].
  apply bind_terminates; [apply TextInterval_of_terminates|intros sig _].
  apply bind_terminates; [apply TextInterval_of_terminates|intros body _].
  apply bind_terminates; [apply JavaClass_of_terminates|intros created _].
  pose proof (splitInner_length body rest) as Hlen.
  destruct (splitInner body rest) as [inner others]. simpl in Hlen.
  apply bind_terminates; [apply IH; lia|intros parsed _].
  apply bind_terminates; [apply addAll_terminates|intros h' _].
  apply bind_terminates; [apply IH; lia|discriminate].
Qed.

(** [findClasses] returns or throws, and the heap it returns is proper:
    the hypothesis of the statements on class trees holds of every tree
    that the parser builds. *)
Lemma findClasses_proper (code : text) (allComments : list Comment)
    (classMatches : list ClassMatch) :
  findClasses code allComments classMatches <> OutOfFuel
  /\ forall classes h,
       findClasses code allComments classMatches = Return (classes, h) ->
       properHeap h = true.
Proof.
  unfold findClasses. split.
  - apply parseClasses_terminates. lia.
  - intros classes h Hrun.
    exact (parseClasses_proper code allComments _ _ [] h classes eq_refl Hrun).
Qed.

(** The class of [class A { int x; void m() { } }] and four probes: after
    the field, inside the method, on a letter, and on the signature. *)
Example getInsertIndex_probes :
  let classA := mkJavaClass "A" [] (mkTextInterval 0 7) (mkTextInterval 8 30)
                            (mkTextInterval 0 30) [] None in
  let code := js "class A { int x; void m() { } }" in
  getInsertIndex classA code 16 = Return 16
  /\ getInsertIndex classA code 27 = Return 30
  /\ getInsertIndex classA code 11 = Return 30
  /\ getInsertIndex classA code 5 = Return 30.
Proof. repeat split; vm_compute; reflexivity. Qed.

(** ** Scope on the heaps that the parser builds *)

Lemma extent_le_max (h : heap) : forall (r : ref) (c : JavaClass),
  h !! r = Some c -> (extent c <= maxExtent h)%nat.
Proof.
  induction h as [|x h IH]; intros r c Hr; [discriminate|].
  unfold maxExtent. simpl. fold (maxExtent h).
  destruct r as [|r]; simpl in Hr.
  - injection Hr as <-. lia.
  - specialize (IH r c Hr). lia.
Qed.

(** On a proper heap [getScope] returns: the classes met on the way up
    hold more and more indexes. *)
Lemma getScope_total (h : heap) :
  properHeap h = true ->
  forall (fuel : nat) (r : ref) (c : JavaClass),
    h !! r = Some c -> (maxExtent h - extent c < fuel)%nat ->
    exists scope, getScope fuel h r = Return scope /\ 1 <= scope.
Proof.
  intros Hproper. induction fuel as [|fuel IH]; intros r c Hr Hfuel; [lia|].
  simpl. unfold deref. rewrite Hr. simpl.
  destruct (outherClass c) as [o|] eqn:Ho; [|exists 1; split; [reflexivity|lia]].
  destruct (properHeap_outer h r c o Hproper Hr Ho) as (oc & Hoc & Hless).
  pose proof (extent_le_max h o oc Hoc) as Hmax.
  destruct (IH o oc Hoc ltac:(lia)) as (scope & -> & Hscope).
  exists (scope + 1). split; [reflexivity|lia].
Qed.

(* ================================================================== *)
(** * Further properties of the scanner *)

(** ** Whitespace boundaries *)

Lemma newline_isWhitespace (code : text) (j : Z) :
  charIs code j newline = true -> isWhitespaceAt code j = true.
Proof.
  unfold charIs, isWhitespaceAt. destruct (charAt code j) as [c|]; [|discriminate].
  intros Hc. apply N.eqb_eq in Hc. subst c. reflexivity.
Qed.

Lemma leadingLoop_spec (code : text) (n : nat) : forall (i : Z),
  i = Z.of_nat n - 1 ->
  0 <= leadingLoop code n i <= i + 1
  /\ (forall j, leadingLoop code n i <= j <= i -> isWhitespaceAt code j = true)
  /\ (0 < leadingLoop code n i ->
      isWhitespaceAt code (leadingLoop code n i - 1) = false).
Proof.
  induction n as [|n IH]; intros i Hi; simpl.
  - split; [lia|]. split; [intros j Hj; lia|intros Hpos; lia].
  - destruct (isWhitespaceAt code i) eqn:Hws; simpl.
    + destruct (IH (i - 1) ltac:(lia)) as (Hrange & Hrun & Hstop).
      split; [lia|]. split; [|exact Hstop].
      intros j Hj. destruct (Z.eq_dec j i) as [->|Hne]; [exact Hws|].
      apply Hrun. lia.
    + split; [lia|]. split; [intros j Hj; lia|].
      intros _. replace (i + 1 - 1) with i by lia. exact Hws.
Qed.

Lemma includeLeadingWhitespaces_bounds (code : text) (index : Z) :
  0 <= index ->
  0 <= includeLeadingWhitespaces code index <= index
  /\ forall j, includeLeadingWhitespaces code index <= j < index ->
               isWhitespaceAt code j = true.
Proof.
  intros Hindex. unfold includeLeadingWhitespaces.
  destruct (Z.leb_spec index 0) as [Hzero|Hpos].
  - split; [lia|intros j Hj; lia].
  - destruct (leadingLoop_spec code (Z.to_nat index) (index - 1) ltac:(lia))
      as (Hrange & Hrun & _).
    split; [lia|]. intros j Hj. apply Hrun. lia.
Qed.

(** X1: from an index that is not negative, [includeLeadingWhitespaces]
    moves back over white space only, and as far as the white space
    goes: it stops at 0 or after a character that is no white space. *)
Theorem includeLeadingWhitespaces_spec (code : text) (index : Z) :
  0 <= index ->
  0 <= includeLeadingWhitespaces code index <= index
  /\ (forall j, includeLeadingWhitespaces code index <= j < index ->
                isWhitespaceAt code j = true)
  /\ (0 < includeLeadingWhitespaces code index ->
      isWhitespaceAt code (includeLeadingWhitespaces code index - 1) = false).
Proof.
  intros Hindex. unfold includeLeadingWhitespaces.
  destruct (Z.leb_spec index 0) as [Hzero|Hpos].
  - split; [lia|]. split; [intros j Hj; lia|intros Hlt; lia].
  - destruct (leadingLoop_spec code (Z.to_nat index) (index - 1) ltac:(lia))
      as (Hrange & Hrun & Hstop).
    split; [lia|]. split; [|exact Hstop]. intros j Hj. apply Hrun. lia.
Qed.

Lemma includeLeadingWhitespaces_spec_witness :
  0 <= includeLeadingWhitespaces (js "a;   b") 5 <= 5
  /\ (forall j, includeLeadingWhitespaces (js "a;   b") 5 <= j < 5 ->
                isWhitespaceAt (js "a;   b") j = true)
  /\ (0 < includeLeadingWhitespaces (js "a;   b") 5 ->
      isWhitespaceAt (js "a;   b") (includeLeadingWhitespaces (js "a;   b") 5 - 1)
      = false).
Proof. apply (includeLeadingWhitespaces_spec (js "a;   b") 5). lia. Defined.

(** The loop of [includeTrailingWhitespaces] from [i], the last newline
    seen being at [last]: it stops at the first character that is no
    white space and returns [last], or the newline met last on the way;
    it returns the last index of the text when only white space is left. *)
Lemma trailingLoop_spec (code : text) (n : nat) : forall (i last : Z),
  i + Z.of_nat n = strlen code ->
  (exists p, i <= p < strlen code
             /\ isWhitespaceAt code p = false
             /\ (forall j, i <= j < p -> isWhitespaceAt code j = true)
             /\ ((trailingLoop code n i last = last
                  /\ forall j, i <= j < p -> charIs code j newline = false)
                 \/ (i <= trailingLoop code n i last < p
                     /\ charIs code (trailingLoop code n i last) newline = true
                     /\ forall j, trailingLoop code n i last < j < p ->
                                  charIs code j newline = false)))
  \/ ((forall j, i <= j < strlen code -> isWhitespaceAt code j = true)
      /\ trailingLoop code n i last = strlen code - 1).
Proof.
  induction n as [|n IH]; intros i last Hn; simpl.
  - right. split; [intros j Hj; lia|reflexivity].
  - destruct (charIs code i newline) eqn:Hnl.
    + pose proof (newline_isWhitespace code i Hnl) as Hws.
      destruct (IH (i + 1) i ltac:(lia))
        as [(p & Hp & Hstop & Hrun & Hcase)|(Hall & Hend)].
      * left. exists p. split; [lia|]. split; [exact Hstop|]. split.
        { intros j Hj. destruct (Z.eq_dec j i) as [->|Hne]; [exact Hws|].
          apply Hrun. lia. }
        right. destruct Hcase as [(Heq & Hnone)|(Hr & Hat & Hnone)].
        -- rewrite Heq. split; [lia|]. split; [exact Hnl|].
           intros j Hj. apply Hnone. lia.
        -- split; [lia|]. split; [exact Hat|exact Hnone].
      * right. split; [|exact Hend].
        intros j Hj. destruct (Z.eq_dec j i) as [->|Hne]; [exact Hws|].
        apply Hall. lia.
    + destruct (isWhitespaceAt code i) eqn:Hws; simpl.
      * destruct (IH (i + 1) last ltac:(lia))
          as [(p & Hp & Hstop & Hrun & Hcase)|(Hall & Hend)].
        -- left. exists p. split; [lia|]. split; [exact Hstop|]. split.
           { intros j Hj. destruct (Z.eq_dec j i) as [->|Hne]; [exact Hws|].
             apply Hrun. lia. }
           destruct Hcase as [(Heq & Hnone)|(Hr & Hat & Hnone)].
           ++ left. split; [exact Heq|].
              intros j Hj. destruct (Z.eq_dec j i) as [->|Hne]; [exact Hnl|].
              apply Hnone. lia.
           ++ right. split; [lia|]. split; [exact Hat|exact Hnone].
        -- right. split; [|exact Hend].
           intros j Hj. destruct (Z.eq_dec j i) as [->|Hne]; [exact Hws|].
           apply Hall. lia.
      * left. exists i. split; [lia|]. split; [exact Hws|].
        split; [intros j Hj; lia|]. left. split; [reflexivity|intros j Hj; lia].
Qed.

(** [includeTrailingWhitespaces] moves forward over white space only. *)
Lemma includeTrailingWhitespaces_run (code : text) (index : Z) :
  index <= includeTrailingWhitespaces code index
  /\ forall j, index <= j < includeTrailingWhitespaces code index ->
               isWhitespaceAt code j = true.
Proof.
  unfold includeTrailingWhitespaces.
  destruct (Z.leb_spec (strlen code - 1) index) as [Hlast|Hin].
  - split; [lia|intros j Hj; lia].
  - destruct (trailingLoop_spec code (Z.to_nat (strlen code - index)) index index
                ltac:(lia))
      as [(p & Hp & Hstop & Hrun & [(-> & _)|(Hr & _ & _)])|(Hall & ->)].
    + split; [lia|intros j Hj; lia].
    + split; [lia|]. intros j Hj. apply Hrun. lia.
    + split; [lia|]. intros j Hj. apply Hall. lia.
Qed.

(** X2: before the last index of the text, [includeTrailingWhitespaces]
    looks for the first character [p] that is no white space. It returns
    the last newline between [index] and [p], so that the indentation of
    the line of [p] is left out, and [index] when there is no newline;
    when only white space follows, it returns the last index of the
    text. *)
Theorem includeTrailingWhitespaces_spec (code : text) (index : Z) :
  index < strlen code - 1 ->
  (exists p, index <= p < strlen code
             /\ isWhitespaceAt code p = false
             /\ (forall j, index <= j < p -> isWhitespaceAt code j = true)
             /\ index <= includeTrailingWhitespaces code index <= p
             /\ (forall j, includeTrailingWhitespaces code index < j < p ->
                           charIs code j newline = false)
             /\ (includeTrailingWhitespaces code index = index
                 \/ charIs code (includeTrailingWhitespaces code index) newline = true))
  \/ ((forall j, index <= j < strlen code -> isWhitespaceAt code j = true)
      /\ includeTrailingWhitespaces code index = strlen code - 1).
Proof.
  intros Hin. unfold includeTrailingWhitespaces.
  destruct (Z.leb_spec (strlen code - 1) index) as [Hlast|_]; [lia|].
  destruct (trailingLoop_spec code (Z.to_nat (strlen code - index)) index index
              ltac:(lia))
    as [(p & Hp & Hstop & Hrun & Hcase)|(Hall & Hend)].
  - left. exists p. split; [exact Hp|]. split; [exact Hstop|]. split; [exact Hrun|].
    destruct Hcase as [(Heq & Hnone)|(Hr & Hat & Hnone)].
    + rewrite Heq. split; [lia|]. split; [|left; reflexivity].
      intros j Hj. apply Hnone. lia.
    + split; [lia|]. split; [exact Hnone|right; exact Hat].
  - right. split; [exact Hall|exact Hend].
Qed.

Lemma includeTrailingWhitespaces_spec_witness :
  (exists p, 1 <= p < strlen trailingText
             /\ isWhitespaceAt trailingText p = false
             /\ (forall j, 1 <= j < p -> isWhitespaceAt trailingText j = true)
             /\ 1 <= includeTrailingWhitespaces trailingText 1 <= p
             /\ (forall j, includeTrailingWhitespaces trailingText 1 < j < p ->
                           charIs trailingText j newline = false)
             /\ (includeTrailingWhitespaces trailingText 1 = 1
                 \/ charIs trailingText (includeTrailingWhitespaces trailingText 1)
                           newline = true))
  \/ ((forall j, 1 <= j < strlen trailingText -> isWhitespaceAt trailingText j = true)
      /\ includeTrailingWhitespaces trailingText 1 = strlen trailingText - 1).
Proof. apply (includeTrailingWhitespaces_spec trailingText 1). reflexivity. Defined.

(** X3: at an index that is not negative, [getWhitespaceInterval] returns
    an interval that holds the index and, before its last index, white
    space only; at a negative index it throws. *)
Theorem getWhitespaceInterval_spec (code : text) (index : Z) :
  (0 <= index ->
   exists t, getWhitespaceInterval code index = Return t
             /\ 0 <= startIndex t <= index /\ index <= endIndex t
             /\ forall j, startIndex t <= j < endIndex t ->
                          isWhitespaceAt code j = true)
  /\ (index < 0 -> getWhitespaceInterval code index = Throw (NegativeStart index)).
Proof.
  unfold getWhitespaceInterval. split.
  - intros Hindex.
    destruct (includeLeadingWhitespaces_bounds code index Hindex) as (Hrange & Hlead).
    destruct (includeTrailingWhitespaces_run code index) as (Hge & Htrail).
    exists (mkTextInterval (includeLeadingWhitespaces code index)
                           (includeTrailingWhitespaces code index)).
    unfold TextInterval_of.
    destruct (Z.ltb_spec (includeLeadingWhitespaces code index) 0); [lia|].
    destruct (Z.ltb_spec (includeTrailingWhitespaces code index) 0); [lia|].
    destruct (Z.ltb_spec (includeTrailingWhitespaces code index)
                         (includeLeadingWhitespaces code index)); [lia|].
    split; [reflexivity|]. simpl. split; [lia|]. split; [lia|].
    intros j Hj. destruct (Z.lt_ge_cases j index) as [Hbefore|Hafter].
    + apply Hlead. lia.
    + apply Htrail. lia.
  - intros Hneg. unfold includeLeadingWhitespaces, TextInterval_of.
    destruct (Z.leb_spec index 0); [|lia].
    destruct (Z.ltb_spec index 0); [reflexivity|lia].
Qed.

Lemma getWhitespaceInterval_spec_witness :
  exists t, getWhitespaceInterval (js "a;   b") 3 = Return t
            /\ 0 <= startIndex t <= 3 /\ 3 <= endIndex t
            /\ forall j, startIndex t <= j < endIndex t ->
                         isWhitespaceAt (js "a;   b") j = true.
Proof. apply (getWhitespaceInterval_spec (js "a;   b") 3). lia. Defined.

(** ** Comment scanner: what the list holds *)

Lemma findCommentsFrom_inv (code : text) (n : nat) : forall (i : Z) cs c,
  findCommentsFrom code n i = Return cs -> In c cs ->
  exists j, i <= j < i + Z.of_nat n /\ commentsAt code j = Return [c].
Proof.
  induction n as [|n IH]; intros i cs c; simpl.
  - intros [= <-] [].
  - destruct (commentsAt_cases code i) as [Hhere|(t & e & Hie & Hhere)];
      rewrite Hhere; simpl;
      (destruct (findCommentsFrom code n (i + 1)) as [rest| |] eqn:Hrest;
       simpl; try discriminate; intros [= <-] Hin).
    + destruct (IH (i + 1) rest c Hrest Hin) as (j & Hj & Hat).
      exists j. split; [lia|exact Hat].
    + destruct Hin as [<-|Hin].
      * exists i. split; [lia|exact Hhere].
      * destruct (IH (i + 1) rest c Hrest Hin) as (j & Hj & Hat).
        exists j. split; [lia|exact Hat].
Qed.

(** Where [moveToEndOfComment] stops: on the [/] of the first [*/] whose
    [*] is at [index] or later, and at [index] itself when there is
    none. *)
Lemma moveToEndOfComment_spec (code : text) (index : Z) :
  (exists q, index <= q
             /\ charIs code q star = true /\ charIs code (q + 1) slash = true
             /\ moveToEndOfComment code index = q + 1
             /\ forall t, index <= t < q ->
                          charIs code t star && charIs code (t + 1) slash = false)
  \/ ((forall t, index <= t ->
                 charIs code t star && charIs code (t + 1) slash = false)
      /\ moveToEndOfComment code index = index).
Proof.
  assert (Hsame : forall t,
             charIs code t star && (t + 1 <? strlen code) && charIs code (t + 1) slash
             = charIs code t star && charIs code (t + 1) slash).
  { intros t. destruct (charIs code t star); simpl; [|reflexivity].
    destruct (charIs code (t + 1) slash) eqn:Hs; [|apply andb_false_r].
    apply charIs_true_range in Hs.
    destruct (Z.ltb_spec (t + 1) (strlen code)); [reflexivity|lia]. }
  unfold moveToEndOfComment.
  destruct (firstFrom _ _ index) as [q|] eqn:Hfirst.
  - left. apply firstFrom_Some in Hfirst. destruct Hfirst as (Hr & Hq & Hbefore).
    rewrite Hsame in Hq. apply andb_true_iff in Hq. destruct Hq as (Hstar & Hslash).
    exists q. split; [lia|]. split; [exact Hstar|]. split; [exact Hslash|].
    split; [reflexivity|]. intros t Ht. rewrite <- Hsame. apply Hbefore. exact Ht.
  - right. split; [|reflexivity]. intros t Ht.
    destruct (Z.lt_ge_cases t (strlen code)) as [Hin|Hout].
    + rewrite <- Hsame. apply (firstFrom_None _ _ _ Hfirst t). lia.
    + rewrite (charIs_beyond code t star Hout). reflexivity.
Qed.

Lemma moveToEndOfLine_inside (code : text) (index : Z) :
  index < strlen code -> moveToEndOfLine code index < strlen code.
Proof.
  intros Hin.
  destruct (moveToEndOfLine_spec code index) as [(Hnl & _)|(_ & ->)]; [|exact Hin].
  apply charIs_true_range in Hnl. lia.
Qed.

Lemma moveToEndOfComment_inside (code : text) (index : Z) :
  index < strlen code -> moveToEndOfComment code index < strlen code.
Proof.
  intros Hin.
  destruct (moveToEndOfComment_spec code index)
    as [(q & _ & _ & Hslash & -> & _)|(_ & ->)]; [|exact Hin].
  apply charIs_true_range in Hslash. lia.
Qed.

Lemma commentsAt_opens (code : text) (i : Z) (c : Comment) :
  commentsAt code i = Return [c] ->
  startIndex (interval c) = i
  /\ i < endIndex (interval c) < strlen code
  /\ opens code i (type c)
  /\ endIndex (interval c)
     = match type c with
       | singleLine => moveToEndOfLine code (i + 1)
       | _ => moveToEndOfComment code (i + 1)
       end.
Proof.
  unfold commentsAt, getCommentType, opens.
  destruct (charIs code i slash) eqn:Hslash; simpl; [|discriminate].
  pose proof (charIs_true_range _ _ _ Hslash) as Hrange.
  destruct (Z.ltb_spec (i + 1) (strlen code)) as [Hnext|Hnext]; [|discriminate].
  pose proof (moveToEndOfLine_ge code (i + 1)) as Hline.
  pose proof (moveToEndOfLine_inside code (i + 1) Hnext) as Hline'.
  pose proof (moveToEndOfComment_ge code (i + 1)) as Hblock.
  pose proof (moveToEndOfComment_inside code (i + 1) Hnext) as Hblock'.
  destruct (charIs code (i + 1) slash) eqn:Hsecond.
  - rewrite Comment_of_valid by lia. simpl. intros [= <-]. simpl.
    repeat split; try lia; reflexivity.
  - destruct (charIs code (i + 1) star) eqn:Hstar; [|discriminate].
    replace (i + 1 + 1) with (i + 2) by lia.
    destruct (charIs code (i + 2) star) eqn:Hdoc;
      rewrite Comment_of_valid by lia; simpl; intros [= <-]; simpl;
      repeat split; try lia; reflexivity.
Qed.

(** X4: [findComments] returns on every text, and every comment of the
    list starts on the opening sequence of its type ([//], [/**], or [/*]
    not followed by [*]) and ends after its start, inside the text. *)
Theorem findComments_valid (code : text) :
  exists cs,
    findComments code = Return cs
    /\ Forall (fun c => 0 <= startIndex (interval c) < endIndex (interval c)
                        /\ endIndex (interval c) < strlen code
                        /\ opens code (startIndex (interval c)) (type c)) cs.
Proof.
  destruct (findComments_total code) as (cs & Hrun & _).
  exists cs. split; [exact Hrun|]. apply Forall_forall. intros c Hc.
  apply list_elem_of_In in Hc.
  destruct (findCommentsFrom_inv code (length code) 0 cs c Hrun Hc) as (j & Hj & Hat).
  destruct (commentsAt_opens code j c Hat) as (-> & Hend & Hopens & _).
  split; [lia|]. split; [lia|exact Hopens].
Qed.

(** X5: every [/*] starts a comment, a JavaDoc when a second [*] follows.
    The comment ends on the [/] of the first [*/] whose [*] is at the
    index after the opening [/] or later, so that [/*/] is a comment of
    its own; when no [*/] follows, it ends on its [*]. *)
Theorem blockComment_end (code : text) (i : Z) :
  charIs code i slash = true -> charIs code (i + 1) star = true ->
  exists cs e,
    findComments code = Return cs
    /\ In (mkComment (if charIs code (i + 2) star then javaDoc else multiLine)
                     (mkTextInterval i e)) cs
    /\ ((exists q, i + 1 <= q /\ e = q + 1
                   /\ charIs code q star = true /\ charIs code (q + 1) slash = true
                   /\ forall t, i + 1 <= t < q ->
                        charIs code t star && charIs code (t + 1) slash = false)
        \/ ((forall t, i + 1 <= t ->
                       charIs code t star && charIs code (t + 1) slash = false)
            /\ e = i + 1)).
Proof.
  intros Hslash Hstar.
  destruct (findComments_total code) as (cs & Hrun & _).
  exists cs, (moveToEndOfComment code (i + 1)).
  pose proof (charIs_true_range _ _ _ Hslash) as Hrange.
  pose proof (charIs_true_range _ _ _ Hstar) as Hrange'.
  split; [exact Hrun|]. split.
  - apply (findCommentsFrom_In code (length code) 0 i cs); [exact Hrun| |].
    + unfold strlen in Hrange. lia.
    + unfold commentsAt, getCommentType. rewrite Hslash. simpl.
      destruct (Z.ltb_spec (i + 1) (strlen code)); [|lia].
      assert (Hns : charIs code (i + 1) slash = false).
      { unfold charIs in Hstar |- *. destruct (charAt code (i + 1)) as [c|]; [|reflexivity].
        apply N.eqb_eq in Hstar. subst c. reflexivity. }
      rewrite Hns, Hstar. replace (i + 1 + 1) with (i + 2) by lia.
      pose proof (moveToEndOfComment_ge code (i + 1)).
      destruct (charIs code (i + 2) star);
        rewrite Comment_of_valid by lia; reflexivity.
  - destruct (moveToEndOfComment_spec code (i + 1))
      as [(q & Hq & Hqs & Hqe & Heq & Hbefore)|(Hnone & Heq)].
    + left. exists q. repeat split; assumption.
    + right. split; assumption.
Qed.

Lemma blockComment_end_witness :
  exists cs e,
    findComments (js "a /*/ b */") = Return cs
    /\ In (mkComment (if charIs (js "a /*/ b */") (2 + 2) star
                      then javaDoc else multiLine)
                     (mkTextInterval 2 e)) cs
    /\ ((exists q, 2 + 1 <= q /\ e = q + 1
                   /\ charIs (js "a /*/ b */") q star = true
                   /\ charIs (js "a /*/ b */") (q + 1) slash = true
                   /\ forall t, 2 + 1 <= t < q ->
                        charIs (js "a /*/ b */") t star
                        && charIs (js "a /*/ b */") (t + 1) slash = false)
        \/ ((forall t, 2 + 1 <= t ->
                       charIs (js "a /*/ b */") t star
                       && charIs (js "a /*/ b */") (t + 1) slash = false)
            /\ e = 2 + 1)).
Proof. apply (blockComment_end (js "a /*/ b */") 2); reflexivity. Defined.

(** ** The JavaDoc before a method *)

Lemma slice_lookup (code : text) (a b j : Z) :
  0 <= a -> a <= j < b -> j < strlen code ->
  slice code a b !! Z.to_nat (j - a) = code !! Z.to_nat j.
Proof.
  intros Ha Hj Hlen. unfold slice, clampIndex. cbv zeta.
  destruct (Z.ltb_spec a 0); [lia|]. destruct (Z.ltb_spec b 0); [lia|].
  unfold text, char in *. rewrite lookup_take_lt by lia. rewrite lookup_drop.
  f_equal. lia.
Qed.

Lemma slice_whitespace (code : text) (a b : Z) :
  0 <= a -> forallb isWhitespace (slice code a b) = true ->
  forall j, a <= j < b -> j < strlen code -> isWhitespaceAt code j = true.
Proof.
  intros Ha Hall j Hj Hlen. rewrite forallb_forall in Hall.
  unfold isWhitespaceAt, charAt. destruct (Z.ltb_spec j 0); [lia|].
  rewrite <- (slice_lookup code a b j Ha Hj Hlen).
  destruct (slice code a b !! Z.to_nat (j - a)) as [c|] eqn:Hc.
  - apply Hall. apply list_elem_of_In. exact (list_elem_of_lookup_2 _ _ _ Hc).
  - rewrite (slice_lookup code a b j Ha Hj Hlen) in Hc.
    apply lookup_ge_None in Hc. unfold strlen in Hlen. lia.
Qed.

(** The comment that the loop of [findJavaDoc] stops on, from the comment
    at position [p]: a comment of the list, at [p] or after comments that
    end before [index], and followed by no comment that ends before
    [index]. *)
Lemma lastCommentBefore_spec (comments : list Comment) (index : Z) (n : nat) :
  forall (p : nat) (c0 : Comment),
    comments !! p = Some c0 -> (length comments <= n + S p)%nat ->
    exists m, (p <= m)%nat
              /\ comments !! m = Some (lastCommentBefore comments index n (S p) c0)
              /\ (m = p \/ endIndex (interval (lastCommentBefore comments index n (S p) c0))
                           < index)
              /\ forall c, comments !! S m = Some c -> index <= endIndex (interval c).
Proof.
  induction n as [|n IH]; intros p c0 Hp Hlen; simpl.
  - exists p. split; [lia|]. split; [exact Hp|]. split; [left; reflexivity|].
    intros c Hc. apply lookup_lt_Some in Hc. lia.
  - destruct (comments !! S p) as [next|] eqn:Hnext.
    + destruct (Z.ltb_spec (endIndex (interval next)) index) as [Hlt|Hge].
      * destruct (IH (S p) next Hnext ltac:(lia)) as (m & Hm & Hat & Hend & Hafter).
        exists m. split; [lia|]. split; [exact Hat|]. split; [|exact Hafter].
        destruct Hend as [->|Hend]; [|right; exact Hend].
        right. rewrite Hnext in Hat. injection Hat as <-. exact Hlt.
      * exists p. split; [lia|]. split; [exact Hp|]. split; [left; reflexivity|].
        intros c Hc. rewrite Hnext in Hc. injection Hc as <-. exact Hge.
    + exists p. split; [lia|]. split; [exact Hp|]. split; [left; reflexivity|].
      intros c Hc. rewrite Hnext in Hc. discriminate.
Qed.

(** What [findJavaDoc] returns when it returns a comment. *)
Lemma findJavaDoc_found (code : text) (index : Z) (cs : list Comment) (found : Comment) :
  findJavaDoc code index cs = Return (Some found) ->
  type found = javaDoc
  /\ endIndex (interval found) <= index
  /\ forallb isWhitespace (slice code (endIndex (interval found) + 1) index) = true
  /\ exists m, cs !! m = Some found
               /\ forall c, cs !! S m = Some c -> index <= endIndex (interval c).
Proof.
  unfold findJavaDoc. destruct (cs !! 0%nat) as [first|] eqn:Hfirst; [|discriminate].
  destruct (Z.ltb_spec index (endIndex (interval first))) as [Hgt|Hle]; [discriminate|].
  destruct (lastCommentBefore_spec cs index (length cs) 0%nat first Hfirst ltac:(lia))
    as (m & _ & Hat & Hend & Hafter).
  set (comment := lastCommentBefore cs index (length cs) 1 first) in *.
  destruct (CommentType_eqb (type comment) javaDoc) eqn:Htype; simpl; [|discriminate].
  destruct (forallb isWhitespace (slice code (endIndex (interval comment) + 1) index))
    eqn:Hspaces; [|discriminate].
  intros [= <-]. split; [destruct (type comment); (reflexivity || discriminate)|].
  split.
  - destruct Hend as [->|Hend]; [|lia].
    rewrite Hfirst in Hat. injection Hat as <-. exact Hle.
  - split; [exact Hspaces|]. exists m. split; [exact Hat|exact Hafter].
Qed.

(** X6: the comment that [findJavaDoc] returns is a JavaDoc of the list
    that ends at [index] or before it, with white space only between its
    end and [index]; the comment that follows it in the list, if any,
    ends at [index] or later. *)
Theorem findJavaDoc_sound (code : text) (index : Z) (cs : list Comment)
    (found : Comment) :
  findJavaDoc code index cs = Return (Some found) ->
  0 <= endIndex (interval found) ->
  type found = javaDoc
  /\ endIndex (interval found) <= index
  /\ (forall j, endIndex (interval found) < j < index -> j < strlen code ->
                isWhitespaceAt code j = true)
  /\ exists m, cs !! m = Some found
               /\ forall c, cs !! S m = Some c -> index <= endIndex (interval c).
Proof.
  intros Hrun Hvalid.
  destruct (findJavaDoc_found code index cs found Hrun) as (Htype & Hend & Hws & Hm).
  split; [exact Htype|]. split; [exact Hend|]. split; [|exact Hm].
  intros j Hj Hlen.
  apply (slice_whitespace code (endIndex (interval found) + 1) index); [lia|exact Hws|lia|exact Hlen].
Qed.

Lemma findJavaDoc_sound_witness :
  type (mkComment javaDoc (mkTextInterval 10 17)) = javaDoc
  /\ endIndex (interval (mkComment javaDoc (mkTextInterval 10 17))) <= 20
  /\ (forall j, endIndex (interval (mkComment javaDoc (mkTextInterval 10 17))) < j < 20 ->
                j < strlen (js "class A { /** d */   void m(){ } }") ->
                isWhitespaceAt (js "class A { /** d */   void m(){ } }") j = true)
  /\ exists m, [mkComment javaDoc (mkTextInterval 10 17)] !! m
               = Some (mkComment javaDoc (mkTextInterval 10 17))
               /\ forall c, [mkComment javaDoc (mkTextInterval 10 17)] !! S m = Some c ->
                            20 <= endIndex (interval c).
Proof.
  apply (findJavaDoc_sound (js "class A { /** d */   void m(){ } }") 20
           [mkComment javaDoc (mkTextInterval 10 17)]
           (mkComment javaDoc (mkTextInterval 10 17))).
  - reflexivity.
  - simpl. lia.
Defined.

(** ** Bracket matcher: what a returned index stands for *)

Lemma closingIndex_rbrace (code : text) (indexes : list Z) : forall (scope j : Z),
  1 <= scope -> closingIndex code scope indexes = Some j ->
  In j indexes /\ charIs code j rbrace = true.
Proof.
  induction indexes as [|i rest IH]; intros scope j Hscope; simpl; [discriminate|].
  pose proof (braceValue_range code i) as Hrange.
  destruct (Z.eqb_spec (scope + braceValue code i) 0) as [Hz|Hnz].
  - intros [= <-]. split; [left; reflexivity|].
    unfold braceValue in Hz. destruct (charIs code i lbrace); [lia|].
    destruct (charIs code i rbrace); [reflexivity|lia].
  - intros Hrest. destruct (IH (scope + braceValue code i) j ltac:(lia) Hrest)
      as (Hin & Hbrace).
    split; [right; exact Hin|exact Hbrace].
Qed.

(** X7: whatever the comment list, [moveToClosingBracket] returns the
    index it was given or the index of a closing brace of the text. *)
Theorem moveToClosingBracket_result (code : text) (index : Z) (cs : list Comment) :
  exists r,
    moveToClosingBracket code index cs = Return r
    /\ (r = index \/ (0 <= r < strlen code /\ charIs code r rbrace = true)).
Proof.
  rewrite moveToClosingBracket_examined.
  destruct (closingIndex code 1 (examined code index cs)) as [j|] eqn:Hj; simpl.
  - exists j. split; [reflexivity|]. right.
    destruct (closingIndex_rbrace code _ 1 j ltac:(lia) Hj) as (_ & Hbrace).
    split; [exact (charIs_true_range _ _ _ Hbrace)|exact Hbrace].
  - exists index. split; [reflexivity|left; reflexivity].
Qed.

Lemma outsideComments_In (code : text) (index : Z) (cs : list Comment) (j : Z) :
  In j (outsideComments code index cs) ->
  index < j < strlen code /\ covers cs j = false.
Proof.
  unfold outsideComments. intros Hj. apply filter_In in Hj.
  destruct Hj as (Hseq & Hout). apply list_elem_of_In, elem_of_seqZ in Hseq.
  split; [lia|]. apply negb_true_iff. exact Hout.
Qed.


(** X8: on comments that do not overlap, [moveToClosingBracket] returns
    the first index after [index], outside the comments, at which the
    nesting of the braces outside the comments is back to 0: a closing
    brace after [index], inside the text and outside every comment. It
    returns [index] when there is none, and [index] only then. *)
Theorem moveToClosingBracket_matches (code : text) (index : Z) (cs : list Comment) :
  separateComments code index cs ->
  moveToClosingBracket code index cs
  = Return (default index (closingIndex code 1 (outsideComments code index cs)))
  /\ (forall r, closingIndex code 1 (outsideComments code index cs) = Some r ->
                index < r < strlen code
                /\ covers cs r = false
                /\ charIs code r rbrace = true)
  /\ (moveToClosingBracket code index cs = Return index <->
      closingIndex code 1 (outsideComments code index cs) = None).
Proof.
  intros Hsep.
  assert (Hfound : forall r,
             closingIndex code 1 (outsideComments code index cs) = Some r ->
             index < r < strlen code /\ covers cs r = false
             /\ charIs code r rbrace = true).
  { intros r Hr.
    destruct (closingIndex_rbrace code _ 1 r ltac:(lia) Hr) as (Hin & Hbrace).
    apply outsideComments_In in Hin. destruct Hin as (Hrange & Hout).
    split; [exact Hrange|]. split; [exact Hout|exact Hbrace]. }
  split; [exact (moveToClosingBracket_separate code index cs Hsep)|].
  split; [exact Hfound|].
  rewrite (moveToClosingBracket_separate code index cs Hsep).
  destruct (closingIndex code 1 (outsideComments code index cs)) as [j|] eqn:Hj; simpl.
  - split; [|discriminate]. intros [= ->].
    destruct (Hfound index eq_refl) as (Hrange & _). lia.
  - split; reflexivity.
Qed.

Lemma moveToClosingBracket_matches_witness :
  moveToClosingBracket (js "{ /* } */ }") 0 [mkComment multiLine (mkTextInterval 2 8)]
  = Return (default 0 (closingIndex (js "{ /* } */ }") 1
                         (outsideComments (js "{ /* } */ }") 0
                            [mkComment multiLine (mkTextInterval 2 8)]))).
Proof.
  apply (moveToClosingBracket_matches (js "{ /* } */ }") 0
           [mkComment multiLine (mkTextInterval 2 8)]).
  split; [repeat constructor|].
  constructor; [|constructor]. vm_compute. repeat split; discriminate.
Defined.

(** ** Enclosing class: the innermost class that spans the index *)

Lemma firstPointed_found (pointed : ref -> outcome (option ref)) (this x : ref)
    (inner : list ref) :
  firstPointed pointed this inner = Return (Some x) ->
  (x = this /\ Forall (fun y => pointed y = Return None) inner)
  \/ exists y, In y inner /\ pointed y = Return (Some x).
Proof.
  induction inner as [|y inner IH]; simpl.
  - intros [= <-]. left. split; [reflexivity|constructor].
  - destruct (pointed y) as [[p|]| |] eqn:Hy; simpl; try discriminate.
    + intros [= <-]. right. exists y. split; [left; reflexivity|exact Hy].
    + intros Hrest. destruct (IH Hrest) as [(-> & Hnone)|(z & Hz & Hfound)].
      * left. split; [reflexivity|]. constructor; assumption.
      * right. exists z. split; [right; exact Hz|exact Hfound].
Qed.

Lemma getEnclosingClass_null (fuel : nat) (h : heap) (r : ref) (index : Z) :
  getEnclosingClass fuel h r index = Return None -> misses h index r.
Proof.
  destruct fuel as [|fuel]; simpl; [discriminate|]. unfold deref.
  destruct (h !! r) as [c|] eqn:Hr; simpl; [|discriminate].
  destruct (includes (classInterval c) index) eqn:Hin; simpl.
  - intros Hrun. apply firstPointed_nonnull in Hrun. contradiction.
  - intros _. exists c. split; [exact Hr|exact Hin].
Qed.

Lemma getEnclosingClass_innermost (fuel : nat) :
  forall (h : heap) (r : ref) (index : Z) (x : ref),
    getEnclosingClass fuel h r index = Return (Some x) ->
    exists cx, h !! x = Some cx
               /\ includes (classInterval cx) index = true
               /\ Forall (misses h index) (innerClasses cx).
Proof.
  induction fuel as [|fuel IH]; intros h r index x; simpl; [discriminate|].
  unfold deref. destruct (h !! r) as [c|] eqn:Hr; simpl; [|discriminate].
  destruct (includes (classInterval c) index) eqn:Hin; simpl; [|discriminate].
  intros Hrun. apply firstPointed_found in Hrun.
  destruct Hrun as [(-> & Hnone)|(y & _ & Hy)].
  - exists c. split; [exact Hr|]. split; [exact Hin|].
    eapply Forall_impl; [exact Hnone|]. intros y Hy.
    exact (getEnclosingClass_null fuel h y index Hy).
  - exact (IH h y index x Hy).
Qed.

(** X9: on every store, the class that [getEnclosingClass] returns spans
    the index and none of its inner classes does; and when it returns
    [null], the class it was called on does not span the index. *)
Theorem getEnclosingClass_sound (fuel : nat) (h : heap) (r : ref) (index : Z)
    (found : option ref) :
  getEnclosingClass fuel h r index = Return found ->
  match found with
  | Some x => exists cx, h !! x = Some cx
                         /\ includes (classInterval cx) index = true
                         /\ Forall (misses h index) (innerClasses cx)
  | None => misses h index r
  end.
Proof.
  destruct found as [x|]; intros Hrun.
  - exact (getEnclosingClass_innermost fuel h r index x Hrun).
  - exact (getEnclosingClass_null fuel h r index Hrun).
Qed.

Lemma getEnclosingClass_sound_witness :
  exists cx, nestedHeap !! 1%nat = Some cx
             /\ includes (classInterval cx) 20 = true
             /\ Forall (misses nestedHeap 20) (innerClasses cx).
Proof.
  apply (getEnclosingClass_sound 2 nestedHeap 0%nat 20 (Some 1%nat)). reflexivity.
Defined.

(** ** Intervals *)

(** X10: for an interval that holds an index, [liesWithin] is the
    inclusion of the indexes that [includes] accepts, and an interval
    that lies within another holds no more indexes than it. *)
Theorem liesWithin_includes (t outer : TextInterval) :
  startIndex t <= endIndex t ->
  (liesWithin t outer = true
   <-> forall i, includes t i = true -> includes outer i = true)
  /\ (liesWithin t outer = true -> TextInterval_size t <= TextInterval_size outer).
Proof.
  intros Hvalid. rewrite liesWithin_spec. split; [split|].
  - intros Hlies i Hi. apply includes_spec in Hi. apply includes_spec. lia.
  - intros Hall.
    pose proof (Hall (startIndex t) ltac:(apply includes_spec; lia)) as Hs.
    pose proof (Hall (endIndex t) ltac:(apply includes_spec; lia)) as He.
    apply includes_spec in Hs, He. lia.
  - unfold TextInterval_size. lia.
Qed.

Lemma liesWithin_includes_witness :
  (liesWithin (mkTextInterval 10 17) (mkTextInterval 8 33) = true
   <-> forall i, includes (mkTextInterval 10 17) i = true ->
                 includes (mkTextInterval 8 33) i = true)
  /\ (liesWithin (mkTextInterval 10 17) (mkTextInterval 8 33) = true ->
      TextInterval_size (mkTextInterval 10 17) <= TextInterval_size (mkTextInterval 8 33)).
Proof.
  apply (liesWithin_includes (mkTextInterval 10 17) (mkTextInterval 8 33)).
  simpl. lia.
Defined.

(** ** Where the generated code goes *)

Lemma includeTrailingWhitespaces_stays (code : text) (index : Z) :
  isWhitespaceAt code index = false ->
  includeTrailingWhitespaces code index = index.
Proof.
  intros Hstop.
  destruct (includeTrailingWhitespaces_run code index) as (Hge & Hrun).
  destruct (Z.eq_dec (includeTrailingWhitespaces code index) index) as [Heq|Hne];
    [exact Heq|].
  rewrite (Hrun index ltac:(lia)) in Hstop. discriminate.
Qed.

Lemma getInsertIndex_cases (this : JavaClass) (code : text) (index : Z) :
  exists r, getInsertIndex this code index = Return r
            /\ (r = endIndex (bodyInterval this)
                \/ (r = index /\ includes (bodyInterval this) index = true)).
Proof.
  unfold getInsertIndex.
  destruct (includes (bodyInterval this) index) eqn:Hin; simpl;
    [|eexists; split; [reflexivity|left; reflexivity]].
  destruct (isWhitespaceAt code index); simpl;
    [|eexists; split; [reflexivity|left; reflexivity]].
  destruct (belongsToAComment this index); simpl;
    [eexists; split; [reflexivity|left; reflexivity]|].
  destruct (getScopeOf_total this index code) as (scope & ->). simpl.
  destruct (scope =? 0); simpl; eexists; (split; [reflexivity|]).
  - right. split; reflexivity.
  - left. reflexivity.
Qed.

(** X11: for a class whose body is a valid interval, the interval that
    the generator replaces by the new code exists whatever the cursor: it
    holds the index that [getInsertIndex] returns, which is an index of
    the body; every character before its last index is white space; and
    it ends at the insert index when that index holds no white space, as
    the closing brace of the body does. *)
Theorem insertInterval_spec (javaClass : JavaClass) (code : text) (cursorIndex : Z) :
  0 <= startIndex (bodyInterval javaClass) <= endIndex (bodyInterval javaClass) ->
  exists i t,
    getInsertIndex javaClass code cursorIndex = Return i
    /\ insertInterval javaClass code cursorIndex = Return t
    /\ includes (bodyInterval javaClass) i = true
    /\ includes t i = true
    /\ (forall j, startIndex t <= j < endIndex t -> isWhitespaceAt code j = true)
    /\ (isWhitespaceAt code i = false -> endIndex t = i).
Proof.
  intros Hbody. unfold insertInterval.
  destruct (getInsertIndex_cases javaClass code cursorIndex) as (i & Hi & Hcases).
  assert (Hin : includes (bodyInterval javaClass) i = true).
  { destruct Hcases as [->|(-> & Hin)]; [|exact Hin]. apply includes_spec. lia. }
  pose proof Hin as Hrange. apply includes_spec in Hrange.
  destruct (includeLeadingWhitespaces_bounds code i ltac:(lia)) as (Hlead & Hbefore).
  destruct (includeTrailingWhitespaces_run code i) as (Hge & Hafter).
  exists i, (mkTextInterval (includeLeadingWhitespaces code i)
                            (includeTrailingWhitespaces code i)).
  split; [exact Hi|]. rewrite Hi. simpl. unfold getWhitespaceInterval, TextInterval_of.
  destruct (Z.ltb_spec (includeLeadingWhitespaces code i) 0); [lia|].
  destruct (Z.ltb_spec (includeTrailingWhitespaces code i) 0); [lia|].
  destruct (Z.ltb_spec (includeTrailingWhitespaces code i)
                       (includeLeadingWhitespaces code i)); [lia|].
  split; [reflexivity|]. split; [exact Hin|]. split; [apply includes_spec; simpl; lia|].
  split.
  - simpl. intros j Hj. destruct (Z.lt_ge_cases j i) as [Hlt|Hle].
    + apply Hbefore. lia.
    + apply Hafter. lia.
  - simpl. apply includeTrailingWhitespaces_stays.
Qed.

Lemma insertInterval_spec_witness :
  exists i t,
    getInsertIndex (mkJavaClass "A" [] (mkTextInterval 0 7) (mkTextInterval 8 21)
                                (mkTextInterval 0 21) [] None) plainText 9 = Return i
    /\ insertInterval (mkJavaClass "A" [] (mkTextInterval 0 7) (mkTextInterval 8 21)
                                   (mkTextInterval 0 21) [] None) plainText 9 = Return t
    /\ includes (mkTextInterval 8 21) i = true
    /\ includes t i = true
    /\ (forall j, startIndex t <= j < endIndex t -> isWhitespaceAt plainText j = true)
    /\ (isWhitespaceAt plainText i = false -> endIndex t = i).
Proof.
  apply (insertInterval_spec
           (mkJavaClass "A" [] (mkTextInterval 0 7) (mkTextInterval 8 21)
                        (mkTextInterval 0 21) [] None) plainText 9).
  simpl. lia.
Defined.

(** ** An inner class is added once *)

Lemma add_outher (this innerClass : ref) (h h' : heap) :
  add this innerClass h = Return h' ->
  length h' = length h
  /\ exists inner', h' !! innerClass = Some inner' /\ outherClass inner' = Some this.
Proof.
  unfold add, setOutherClass, deref.
  destruct (h !! this) as [self|] eqn:Hself; simpl; [|discriminate].
  destruct (h !! innerClass) as [inner|] eqn:Hinner; simpl; [|discriminate].
  destruct (liesWithin (classInterval inner) (bodyInterval self)); simpl; [|discriminate].
  pose proof (lookup_lt_Some _ _ _ Hself) as Hlt.
  pose proof (lookup_lt_Some _ _ _ Hinner) as Hlt'.
  match goal with
  | |- context [<[this := ?c]> h] => set (self' := c)
  end.
  destruct (<[this := self']> h !! innerClass) as [inner0|] eqn:Hinner0; simpl;
    [|discriminate].
  destruct (outherClass inner0); [discriminate|].
  destruct (<[this := self']> h !! this) as [out|]; simpl; [|discriminate].
  destruct (liesWithin (classInterval inner0) (bodyInterval out)); simpl; [|discriminate].
  intros [= <-]. split; [rewrite !length_insert; reflexivity|].
  eexists. split; [apply list_lookup_insert_eq; rewrite length_insert; exact Hlt'|].
  reflexivity.
Qed.

(** X12: a class is the inner class of one class at most. Once
    [add] has returned, the inner class records the class it was added to
    as its outer class, and adding it again, to that class or to any
    other, throws. *)
Theorem add_only_once (this innerClass other : ref) (h h' : heap) :
  add this innerClass h = Return h' ->
  (exists inner', h' !! innerClass = Some inner' /\ outherClass inner' = Some this)
  /\ exists e, add other innerClass h' = Throw e
               /\ (e = TypeError \/ e = NotAnInnerClass \/ e = OutherAlreadySet).
Proof.
  intros Hadd. destruct (add_outher this innerClass h h' Hadd)
    as (Hlen & inner' & Hinner' & Hout).
  split; [exists inner'; split; assumption|].
  unfold add, setOutherClass, deref.
  destruct (h' !! other) as [self|] eqn:Hself; simpl;
    [|exists TypeError; split; [reflexivity|left; reflexivity]].
  rewrite Hinner'. simpl.
  destruct (liesWithin (classInterval inner') (bodyInterval self)); simpl;
    [|exists NotAnInnerClass; split; [reflexivity|right; left; reflexivity]].
  exists OutherAlreadySet. split; [|right; right; reflexivity].
  pose proof (lookup_lt_Some _ _ _ Hself) as Hlt.
  destruct (Nat.eq_dec other innerClass) as [->|Hne].
  - rewrite list_lookup_insert_eq by exact Hlt. simpl.
    rewrite Hinner' in Hself. injection Hself as <-. rewrite Hout. reflexivity.
  - rewrite list_lookup_insert_ne by exact Hne. rewrite Hinner'. simpl.
    rewrite Hout. reflexivity.
Qed.

Lemma add_only_once_witness :
  (exists inner', nestedHeap !! 1%nat = Some inner' /\ outherClass inner' = Some 0%nat)
  /\ exists e, add 0%nat 1%nat nestedHeap = Throw e
               /\ (e = TypeError \/ e = NotAnInnerClass \/ e = OutherAlreadySet).
Proof.
  apply (add_only_once 0%nat 1%nat 0%nat
           [mkJavaClass "A" [] (mkTextInterval 0 7) (mkTextInterval 8 33)
                        (mkTextInterval 0 33) [] None;
            mkJavaClass "B" [] (mkTextInterval 10 17) (mkTextInterval 18 31)
                        (mkTextInterval 10 31) [] None]
           nestedHeap).
  reflexivity.
Defined.

(** ** Method locator: the interval of a method that exists *)




Example findExistingMethod_docText :
  findExistingMethod 1 docHeap docText [docMatch] 0%nat
  = Return (Some (mkTextInterval 9 32)).
Proof. vm_compute. reflexivity. Qed.

(** ** The name for the class loader *)

Lemma append_assoc (a b c : string) : ((a ++ b) ++ c = a ++ (b ++ c))%string.
Proof. induction a as [|x a IH]; simpl; [reflexivity|]. rewrite IH. reflexivity. Qed.

Lemma concat_snoc (sep : string) (names : list string) (last : string) :
  names <> [] ->
  String.concat sep (names ++ [last])
  = (String.concat sep names ++ sep ++ last)%string.
Proof.
  induction names as [|x names IH]; [congruence|]. intros _.
  destruct names as [|y names].
  - reflexivity.
  - change (String.concat sep ((x :: y :: names) ++ [last]))
      with (x ++ sep ++ String.concat sep ((y :: names) ++ [last]))%string.
    rewrite IH by discriminate.
    change (String.concat sep (x :: y :: names))
      with (x ++ sep ++ String.concat sep (y :: names))%string.
    rewrite !append_assoc. reflexivity.
Qed.

(** X14: [getNameUsedByClassLoader] returns whenever [getScope] does. The
    name is made of the names of the classes on the chain of outer
    classes, the outermost first and the class itself last, joined by
    [$]; there are as many names as the scope of the class. *)
Theorem getNameUsedByClassLoader_spec (fuel : nat) (h : heap) :
  forall (r : ref) (scope : Z),
    getScope fuel h r = Return scope ->
    getNameUsedByClassLoader fuel h r
    = Return (String.concat "$" (outerNames fuel h r))
    /\ Z.of_nat (length (outerNames fuel h r)) = scope
    /\ exists c, h !! r = Some c /\ last (outerNames fuel h r) = Some (name c).
Proof.
  induction fuel as [|fuel IH]; intros r scope; simpl; [discriminate|].
  unfold deref. destruct (h !! r) as [c|] eqn:Hr; simpl; [|discriminate].
  destruct (outherClass c) as [o|] eqn:Ho.
  - destruct (getScope fuel h o) as [outer| |] eqn:Hscope; simpl; try discriminate.
    intros [= <-]. destruct (IH o outer Hscope) as (Hname & Hlen & co & Hco & Hlast).
    rewrite Hname. simpl.
    assert (Hne : outerNames fuel h o <> []).
    { intros Hnil. rewrite Hnil in Hlast. discriminate. }
    rewrite (concat_snoc "$" _ (name c) Hne).
    split; [reflexivity|]. split; [rewrite length_app; simpl; lia|].
    exists c. split; [reflexivity|]. apply last_snoc.
  - intros [= <-]. split; [reflexivity|]. split; [reflexivity|].
    exists c. split; reflexivity.
Qed.

Lemma getNameUsedByClassLoader_spec_witness :
  getNameUsedByClassLoader 2 nestedHeap 1%nat
  = Return (String.concat "$" (outerNames 2 nestedHeap 1%nat))
  /\ Z.of_nat (length (outerNames 2 nestedHeap 1%nat)) = 2
  /\ exists c, nestedHeap !! 1%nat = Some c
               /\ last (outerNames 2 nestedHeap 1%nat) = Some (name c).
Proof.
  apply (getNameUsedByClassLoader_spec 2 nestedHeap 1%nat 2). reflexivity.
Defined.

Example getNameUsedByClassLoader_nested :
  getNameUsedByClassLoader 2 nestedHeap 1%nat = Return "A$B"%string.
Proof. reflexivity. Qed.

(** ** Class forest builder: parents and children agree *)

Lemma add_distinct (this innerClass : ref) (h h' : heap) :
  properHeap h = true -> add this innerClass h = Return h' -> this <> innerClass.
Proof.
  intros Hproper Hadd <-. unfold add, deref in Hadd.
  destruct (h !! this) as [self|] eqn:Hself; simpl in Hadd; [|discriminate].
  pose proof (properHeap_lookup h this self Hproper Hself) as Hshape.
  apply properClass_iff in Hshape. destruct Hshape as ((Hsig & _) & _).
  destruct (liesWithin (classInterval self) (bodyInterval self)) eqn:Hlies;
    simpl in Hadd; [|discriminate].
  apply liesWithin_spec in Hlies. lia.
Qed.

Lemma add_forest (this innerClass : ref) (h h' : heap) :
  properHeap h = true -> linkedHeap h -> add this innerClass h = Return h' ->
  linkedHeap h'
  /\ length h' = length h
  /\ (forall r, r <> this -> r <> innerClass -> h' !! r = h !! r)
  /\ (rootOf h this -> rootOf h' this).
Proof.
  intros Hproper Hlinked Hadd.
  pose proof (add_distinct this innerClass h h' Hproper Hadd) as Hne.
  destruct (add_inv this innerClass h h' Hne Hadd)
    as (self & inner & Hself & Hinner & Hnone & _ & ->).
  set (self' := mkJavaClass (name self) (comments self) (signatureInterval self)
                  (bodyInterval self) (classInterval self)
                  (innerClasses self ++ [innerClass]) (outherClass self)).
  set (inner' := mkJavaClass (name inner) (comments inner) (signatureInterval inner)
                   (bodyInterval inner) (classInterval inner) (innerClasses inner)
                   (Some this)).
  pose proof (lookup_lt_Some _ _ _ Hself) as Hlt.
  pose proof (lookup_lt_Some _ _ _ Hinner) as Hlt'.
  assert (Hself' : <[innerClass := inner']> (<[this := self']> h) !! this = Some self').
  { rewrite list_lookup_insert_ne by congruence.
    apply list_lookup_insert_eq. exact Hlt. }
  assert (Hinner' : <[innerClass := inner']> (<[this := self']> h) !! innerClass
                    = Some inner').
  { apply list_lookup_insert_eq. rewrite length_insert. exact Hlt'. }
  assert (Hframe : forall r, r <> this -> r <> innerClass ->
                     <[innerClass := inner']> (<[this := self']> h) !! r = h !! r).
  { intros r Hrt Hri. rewrite !list_lookup_insert_ne by congruence. reflexivity. }
  (* what becomes of an object of [h] *)
  assert (Hstep : forall x cx, h !! x = Some cx ->
            exists cx', <[innerClass := inner']> (<[this := self']> h) !! x = Some cx'
                        /\ (outherClass cx = None \/ outherClass cx' = outherClass cx)
                        /\ forall y, In y (innerClasses cx) -> In y (innerClasses cx')).
  { intros x cx Hx. destruct (Nat.eq_dec x innerClass) as [->|Hxi].
    - exists inner'. split; [exact Hinner'|].
      rewrite Hinner in Hx. injection Hx as <-.
      split; [left; exact Hnone|]. intros y Hy. exact Hy.
    - destruct (Nat.eq_dec x this) as [->|Hxt].
      + exists self'. split; [exact Hself'|].
        rewrite Hself in Hx. injection Hx as <-.
        split; [right; reflexivity|]. intros y Hy. simpl. apply in_or_app. left. exact Hy.
      + exists cx. split; [rewrite Hframe by assumption; exact Hx|].
        split; [right; reflexivity|]. intros y Hy. exact Hy. }
  (* where an object of the new store comes from *)
  assert (Hback : forall r c', <[innerClass := inner']> (<[this := self']> h) !! r = Some c' ->
            exists c, h !! r = Some c
                      /\ (forall x, In x (innerClasses c') ->
                                    In x (innerClasses c) \/ (r = this /\ x = innerClass))
                      /\ (forall o, outherClass c' = Some o ->
                                    outherClass c = Some o \/ (r = innerClass /\ o = this))).
  { intros r c' Hr. destruct (Nat.eq_dec r innerClass) as [->|Hri].
    - rewrite Hinner' in Hr. injection Hr as <-. exists inner. split; [exact Hinner|].
      split; [intros x Hx; left; exact Hx|].
      intros o [= <-]. right. split; reflexivity.
    - destruct (Nat.eq_dec r this) as [->|Hrt].
      + rewrite Hself' in Hr. injection Hr as <-. exists self. split; [exact Hself|].
        split; [|intros o Ho; left; exact Ho].
        intros x Hx. simpl in Hx. apply in_app_or in Hx.
        destruct Hx as [Hx|[<-|[]]]; [left; exact Hx|right; split; reflexivity].
      + rewrite Hframe in Hr by assumption. exists c'. split; [exact Hr|].
        split; [intros x Hx; left; exact Hx|intros o Ho; left; exact Ho]. }
  split; [|split; [rewrite !length_insert; reflexivity|split; [exact Hframe|]]].
  - intros r c' Hr. destruct (Hback r c' Hr) as (c & Hc & Hkids & Houter).
    destruct (Hlinked r c Hc) as (Hdown & Hup). split.
    + intros x Hx. destruct (Hkids x Hx) as [Hold|(-> & ->)].
      * destruct (Hdown x Hold) as (cx & Hcx & Hout).
        destruct (Hstep x cx Hcx) as (cx' & Hcx' & [Hroot|Hsame] & _); [congruence|].
        exists cx'. split; [exact Hcx'|congruence].
      * exists inner'. split; [exact Hinner'|reflexivity].
    + intros o Ho. destruct (Houter o Ho) as [Hold|(-> & ->)].
      * destruct (Hup o Hold) as (oc & Hoc & Hin).
        destruct (Hstep o oc Hoc) as (oc' & Hoc' & _ & Hmore).
        exists oc'. split; [exact Hoc'|exact (Hmore r Hin)].
      * exists self'. split; [exact Hself'|]. simpl. apply in_or_app. right. left.
        reflexivity.
  - intros (c & Hc & Hroot). rewrite Hself in Hc. injection Hc as <-.
    exists self'. split; [exact Hself'|exact Hroot].
Qed.

Lemma addAll_forest (javaClass : ref) (n : nat) (innerClasses : list ref) :
  forall (h h' : heap),
    properHeap h = true -> linkedHeap h ->
    (n <= javaClass)%nat -> Forall (fun x => (n <= x)%nat) innerClasses ->
    addAll javaClass innerClasses h = Return h' ->
    linkedHeap h'
    /\ length h' = length h
    /\ (forall r, (r < n)%nat -> h' !! r = h !! r)
    /\ (rootOf h javaClass -> rootOf h' javaClass).
Proof.
  induction innerClasses as [|x rest IH]; intros h h' Hproper Hlinked Hclass Hnew; simpl.
  - intros [= <-]. split; [exact Hlinked|]. split; [reflexivity|].
    split; [reflexivity|]. intros Hroot. exact Hroot.
  - destruct (add javaClass x h) as [h1| |] eqn:Hadd; simpl; try discriminate.
    intros Hrest. inversion Hnew as [|? ? Hx Hnew']; subst.
    destruct (add_forest javaClass x h h1 Hproper Hlinked Hadd)
      as (Hlinked1 & Hlen1 & Hframe1 & Hroot1).
    pose proof (add_proper javaClass x h h1 Hproper Hadd) as Hproper1.
    destruct (IH h1 h' Hproper1 Hlinked1 Hclass Hnew' Hrest)
      as (Hlinked' & Hlen' & Hframe' & Hroot').
    split; [exact Hlinked'|]. split; [lia|]. split.
    + intros r Hr. rewrite Hframe' by exact Hr. apply Hframe1; lia.
    + intros Hroot. exact (Hroot' (Hroot1 Hroot)).
Qed.

Lemma alloc_linked (h : heap) (c : JavaClass) :
  linkedHeap h -> innerClasses c = [] -> outherClass c = None ->
  linkedHeap (h ++ [c]).
Proof.
  intros Hlinked Hkids Houter r cr Hr.
  destruct (lookup_app_Some h [c] r cr) as [Hcases _].
  destruct (Hcases Hr) as [Hold|(_ & Hnew)].
  - destruct (Hlinked r cr Hold) as (Hdown & Hup). split.
    + intros x Hx. destruct (Hdown x Hx) as (cx & Hcx & Hout).
      exists cx. split; [|exact Hout].
      rewrite lookup_app_l by (apply lookup_lt_Some in Hcx; exact Hcx). exact Hcx.
    + intros o Ho. destruct (Hup o Ho) as (oc & Hoc & Hin).
      exists oc. split; [|exact Hin].
      rewrite lookup_app_l by (apply lookup_lt_Some in Hoc; exact Hoc). exact Hoc.
  - destruct (r - length h)%nat; simpl in Hnew; [|discriminate].
    injection Hnew as <-. split.
    + intros x Hx. rewrite Hkids in Hx. destruct Hx.
    + intros o Ho. congruence.
Qed.

(** [parseClasses] keeps the objects that exist, and returns new classes
    that have no outer class. *)
Lemma parseClasses_forest (code : text) (allComments : list Comment) (fuel : nat) :
  forall (classMatches : list ClassMatch) (h h' : heap) (classes : list ref),
    properHeap h = true -> linkedHeap h ->
    parseClasses fuel code allComments classMatches h = Return (classes, h') ->
    properHeap h' = true /\ linkedHeap h'
    /\ (length h <= length h')%nat
    /\ (forall r, (r < length h)%nat -> h' !! r = h !! r)
    /\ Forall (fun r => (length h <= r)%nat /\ rootOf h' r) classes.
Proof.
  induction fuel as [|fuel IH]; intros classMatches h h' classes Hproper Hlinked; simpl;
    [discriminate|].
  destruct classMatches as [|m rest].
  { intros [= <- <-]. split; [exact Hproper|]. split; [exact Hlinked|].
    split; [lia|]. split; [reflexivity|constructor]. }
  destruct (moveToClosingBracket code _ allComments) as [bodyEnd| |]; simpl;
    try discriminate.
  destruct (TextInterval_of (classIndex m) _) as [sig| |] eqn:Hsig; simpl;
    try discriminate.
  destruct (TextInterval_of _ bodyEnd) as [body| |] eqn:Hbody; simpl;
    try discriminate.
  destruct (JavaClass_of (className m) sig body allComments h) as [[r h1]| |] eqn:Hof;
    simpl; try discriminate.
  destruct (splitInner body rest) as [inner others].
  destruct (parseClasses fuel code allComments inner h1) as [[rs h2]| |] eqn:Hinner;
    simpl; try discriminate.
  destruct (addAll r rs h2) as [h3| |] eqn:Hadd; simpl; try discriminate.
  destruct (parseClasses fuel code allComments others h3) as [[rs' h4]| |] eqn:Hothers;
    simpl; try discriminate.
  intros [= <- <-].
  apply TextInterval_of_bounds in Hsig. destruct Hsig as (Hs1 & Hs2 & Hs3).
  apply TextInterval_of_bounds in Hbody. destruct Hbody as (Hb1 & Hb2 & Hb3).
  assert (Hproper1 : properHeap h1 = true).
  { apply (JavaClass_of_proper (className m) sig body allComments h h1 r Hproper);
      [lia|lia|exact Hof]. }
  apply JavaClass_of_inv in Hof. destruct Hof as (classComments & -> & ->).
  set (created := mkJavaClass (className m) classComments sig body
                    (mkTextInterval (startIndex sig) (endIndex body)) [] None) in *.
  assert (Hlinked1 : linkedHeap (h ++ [created])).
  { apply alloc_linked; [exact Hlinked|reflexivity|reflexivity]. }
  destruct (IH _ _ _ _ Hproper1 Hlinked1 Hinner)
    as (Hproper2 & Hlinked2 & Hlen2 & Hframe2 & Hroots2).
  rewrite length_app in Hlen2, Hframe2, Hroots2. simpl in Hlen2, Hframe2, Hroots2.
  assert (Hroot2 : rootOf h2 (length h)).
  { exists created. split; [|reflexivity].
    rewrite Hframe2 by lia. rewrite lookup_app_r by lia.
    rewrite Nat.sub_diag. reflexivity. }
  destruct (addAll_forest (length h) (length h) rs h2 h3 Hproper2 Hlinked2 ltac:(lia))
    as (Hlinked3 & Hlen3 & Hframe3 & Hroot3); [|exact Hadd|].
  { eapply Forall_impl; [exact Hroots2|]. simpl. intros x (Hx & _). lia. }
  pose proof (addAll_proper _ _ _ _ Hproper2 Hadd) as Hproper3.
  destruct (IH _ _ _ _ Hproper3 Hlinked3 Hothers)
    as (Hproper4 & Hlinked4 & Hlen4 & Hframe4 & Hroots4).
  split; [exact Hproper4|]. split; [exact Hlinked4|]. split; [lia|]. split.
  - intros x Hx. rewrite Hframe4 by lia. rewrite Hframe3 by lia.
    rewrite Hframe2 by lia. apply lookup_app_l. exact Hx.
  - constructor.
    + split; [lia|]. destruct (Hroot3 Hroot2) as (c3 & Hc3 & Hnone).
      exists c3. split; [|exact Hnone].
      rewrite Hframe4 by (apply lookup_lt_Some in Hc3; exact Hc3). exact Hc3.
    + eapply Forall_impl; [exact Hroots4|]. simpl. intros x (Hx & Hroot).
      split; [lia|exact Hroot].
Qed.

(** X15: the store that [findClasses] returns is a forest. Every class
    has the shape that [properClass] describes, the inner classes of a
    class are the classes that have it as their outer class, and the
    classes that [findClasses] lists have no outer class. *)
Theorem findClasses_forest (code : text) (allComments : list Comment)
    (classMatches : list ClassMatch) (classes : list ref) (h : heap) :
  findClasses code allComments classMatches = Return (classes, h) ->
  properHeap h = true /\ linkedHeap h /\ Forall (rootOf h) classes.
Proof.
  unfold findClasses. intros Hrun.
  destruct (parseClasses_forest code allComments _ _ [] h classes eq_refl
              ltac:(intros r c Hr; discriminate) Hrun)
    as (Hproper & Hlinked & _ & _ & Hroots).
  split; [exact Hproper|]. split; [exact Hlinked|].
  eapply Forall_impl; [exact Hroots|]. simpl. intros r (_ & Hroot). exact Hroot.
Qed.

Lemma findClasses_forest_witness :
  properHeap nestedHeap = true /\ linkedHeap nestedHeap
  /\ Forall (rootOf nestedHeap) [0%nat].
Proof.
  apply (findClasses_forest nestedText []
           [mkClassMatch 0 8 "A"; mkClassMatch 10 8 "B"] [0%nat] nestedHeap).
  vm_compute. reflexivity.
Defined.

(** ** The class under the cursor *)

Lemma pointedAmong_spec (fuel : nat) (h : heap) (cursorIndex : Z) :
  properHeap h = true -> (maxExtent h < fuel)%nat ->
  forall (javaClasses : list ref),
    Forall (fun r => exists c, h !! r = Some c) javaClasses ->
    exists pointed,
      pointedAmong fuel h javaClasses cursorIndex = Return pointed
      /\ match pointed with
         | Some x => exists cx, h !! x = Some cx
                                /\ includes (classInterval cx) cursorIndex = true
                                /\ Forall (misses h cursorIndex) (innerClasses cx)
         | None => Forall (misses h cursorIndex) javaClasses
         end.
Proof.
  intros Hproper Hfuel. induction 1 as [|r rest (c & Hc) _ IH]; simpl.
  - exists None. split; [reflexivity|constructor].
  - pose proof (extent_le_max h r c Hc) as Hmax.
    destruct (getEnclosingClass_descends h cursorIndex Hproper fuel r c Hc ltac:(lia))
      as (found & Hfound & _). rewrite Hfound. simpl.
    destruct found as [x|].
    + exists (Some x). split; [reflexivity|].
      exact (getEnclosingClass_innermost fuel h r cursorIndex x Hfound).
    + destruct IH as (pointed & Hrun & Hspec). exists pointed. split; [exact Hrun|].
      destruct pointed as [x|]; [exact Hspec|].
      constructor; [|exact Hspec].
      exact (getEnclosingClass_null fuel h r cursorIndex Hfound).
Qed.

Lemma add_outher_kept (this innerClass : ref) (h h' : heap) :
  properHeap h = true -> add this innerClass h = Return h' ->
  forall r c o, h !! r = Some c -> outherClass c = Some o ->
                exists c', h' !! r = Some c' /\ outherClass c' = Some o.
Proof.
  intros Hproper Hadd r c o Hr Ho.
  pose proof (add_distinct this innerClass h h' Hproper Hadd) as Hne.
  destruct (add_inv this innerClass h h' Hne Hadd)
    as (self & inner & Hself & Hinner & Hnone & _ & ->).
  pose proof (lookup_lt_Some _ _ _ Hself) as Hlt.
  destruct (Nat.eq_dec r innerClass) as [->|Hri].
  - rewrite Hinner in Hr. injection Hr as <-. congruence.
  - destruct (Nat.eq_dec r this) as [->|Hrt].
    + eexists. split.
      * rewrite list_lookup_insert_ne by congruence.
        apply list_lookup_insert_eq. exact Hlt.
      * rewrite Hself in Hr. injection Hr as <-. exact Ho.
    + exists c. split; [|exact Ho].
      rewrite !list_lookup_insert_ne by congruence. exact Hr.
Qed.

Lemma addAll_outher (javaClass : ref) (innerClasses : list ref) :
  forall (h h' : heap),
    properHeap h = true -> addAll javaClass innerClasses h = Return h' ->
    (forall x, In x innerClasses ->
               exists c', h' !! x = Some c' /\ outherClass c' = Some javaClass)
    /\ (forall r c o, h !! r = Some c -> outherClass c = Some o ->
                      exists c', h' !! r = Some c' /\ outherClass c' = Some o).
Proof.
  induction innerClasses as [|x rest IH]; intros h h' Hproper; simpl.
  - intros [= <-]. split; [intros x []|].
    intros r c o Hr Ho. exists c. split; assumption.
  - destruct (add javaClass x h) as [h1| |] eqn:Hadd; simpl; try discriminate.
    intros Hrest.
    destruct (IH h1 h' (add_proper javaClass x h h1 Hproper Hadd) Hrest)
      as (Hset & Hkept).
    split.
    + intros y [<-|Hy]; [|exact (Hset y Hy)].
      destruct (add_outher javaClass x h h1 Hadd) as (_ & inner' & Hinner' & Hout).
      exact (Hkept x inner' javaClass Hinner' Hout).
    + intros r c o Hr Ho.
      destruct (add_outher_kept javaClass x h h1 Hproper Hadd r c o Hr Ho)
        as (c1 & Hc1 & Ho1).
      exact (Hkept r c1 o Hc1 Ho1).
Qed.

(** [parseClasses] returns every new class that has no outer class. *)
Lemma parseClasses_roots (code : text) (allComments : list Comment) (fuel : nat) :
  forall (classMatches : list ClassMatch) (h h' : heap) (classes : list ref),
    properHeap h = true -> linkedHeap h ->
    parseClasses fuel code allComments classMatches h = Return (classes, h') ->
    forall r, (length h <= r)%nat -> rootOf h' r -> In r classes.
Proof.
  induction fuel as [|fuel IH]; intros classMatches h h' classes Hproper Hlinked; simpl;
    [discriminate|].
  destruct classMatches as [|m rest].
  { intros [= <- <-] r Hr (c & Hc & _). apply lookup_lt_Some in Hc. lia. }
  destruct (moveToClosingBracket code _ allComments) as [bodyEnd| |]; simpl;
    try discriminate.
  destruct (TextInterval_of (classIndex m) _) as [sig| |] eqn:Hsig; simpl;
    try discriminate.
  destruct (TextInterval_of _ bodyEnd) as [body| |] eqn:Hbody; simpl;
    try discriminate.
  destruct (JavaClass_of (className m) sig body allComments h) as [[r0 h1]| |] eqn:Hof;
    simpl; try discriminate.
  destruct (splitInner body rest) as [inner others].
  destruct (parseClasses fuel code allComments inner h1) as [[rs h2]| |] eqn:Hinner;
    simpl; try discriminate.
  destruct (addAll r0 rs h2) as [h3| |] eqn:Hadd; simpl; try discriminate.
  destruct (parseClasses fuel code allComments others h3) as [[rs' h4]| |] eqn:Hothers;
    simpl; try discriminate.
  intros [= <- <-].
  apply TextInterval_of_bounds in Hsig. destruct Hsig as (Hs1 & Hs2 & Hs3).
  apply TextInterval_of_bounds in Hbody. destruct Hbody as (Hb1 & Hb2 & Hb3).
  assert (Hproper1 : properHeap h1 = true).
  { apply (JavaClass_of_proper (className m) sig body allComments h h1 r0 Hproper);
      [lia|lia|exact Hof]. }
  apply JavaClass_of_inv in Hof. destruct Hof as (classComments & -> & ->).
  set (created := mkJavaClass (className m) classComments sig body
                    (mkTextInterval (startIndex sig) (endIndex body)) [] None) in *.
  assert (Hlinked1 : linkedHeap (h ++ [created])).
  { apply alloc_linked; [exact Hlinked|reflexivity|reflexivity]. }
  destruct (parseClasses_forest code allComments fuel _ _ _ _ Hproper1 Hlinked1 Hinner)
    as (Hproper2 & Hlinked2 & Hlen2 & _ & Hroots2).
  pose proof (IH _ _ _ _ Hproper1 Hlinked1 Hinner) as Hall2.
  rewrite length_app in Hlen2, Hroots2, Hall2. simpl in Hlen2, Hroots2, Hall2.
  destruct (addAll_forest (length h) (length h) rs h2 h3 Hproper2 Hlinked2 ltac:(lia))
    as (Hlinked3 & Hlen3 & _); [|exact Hadd|].
  { eapply Forall_impl; [exact Hroots2|]. simpl. intros x (Hx & _). lia. }
  pose proof (addAll_proper _ _ _ _ Hproper2 Hadd) as Hproper3.
  destruct (addAll_outher _ _ _ _ Hproper2 Hadd) as (Hset3 & Hkept3).
  destruct (parseClasses_forest code allComments fuel _ _ _ _ Hproper3 Hlinked3 Hothers)
    as (_ & _ & _ & Hframe4 & _).
  pose proof (IH _ _ _ _ Hproper3 Hlinked3 Hothers) as Hall4.
  intros r Hr Hroot.
  destruct (Nat.eq_dec r (length h)) as [->|Hnew]; [left; reflexivity|].
  right. destruct (Nat.lt_ge_cases r (length h3)) as [Hold|Hlate];
    [|exact (Hall4 r Hlate Hroot)].
  exfalso. destruct Hroot as (c4 & Hc4 & Hnone4).
  rewrite Hframe4 in Hc4 by exact Hold.
  destruct (lookup_lt_is_Some_2 h2 r ltac:(lia)) as (c2 & Hc2).
  destruct (outherClass c2) as [o|] eqn:Ho2.
  - destruct (Hkept3 r c2 o Hc2 Ho2) as (c3 & Hc3 & Ho3). congruence.
  - assert (Hin : In r rs).
    { apply Hall2; [lia|]. exists c2. split; assumption. }
    destruct (Hset3 r Hin) as (c3 & Hc3 & Ho3). congruence.
Qed.

(** In a proper store every class lies within a class that has no outer
    class: an index that these classes miss is missed by every class. *)
Lemma misses_all (h : heap) (index : Z) (classes : list ref) :
  properHeap h = true ->
  (forall r, rootOf h r -> In r classes) ->
  Forall (misses h index) classes ->
  forall r c, h !! r = Some c -> includes (classInterval c) index = false.
Proof.
  intros Hproper Hroots Hmiss.
  assert (Hup : forall n r c, h !! r = Some c ->
                  (maxExtent h - extent c <= n)%nat ->
                  includes (classInterval c) index = false).
  { induction n as [|n IH]; intros r c Hr Hn.
    - destruct (outherClass c) as [o|] eqn:Ho.
      + destruct (properHeap_outer h r c o Hproper Hr Ho) as (oc & Hoc & Hless).
        pose proof (extent_le_max h o oc Hoc). lia.
      + rewrite Forall_forall in Hmiss.
        destruct (Hmiss r) as (c' & Hc' & Hout).
        { apply list_elem_of_In. apply Hroots. exists c. split; assumption. }
        congruence.
    - destruct (outherClass c) as [o|] eqn:Ho.
      + destruct (properHeap_outer h r c o Hproper Hr Ho) as (oc & Hoc & Hless).
        pose proof (extent_le_max h o oc Hoc) as Hmax.
        pose proof (IH o oc Hoc ltac:(lia)) as Houter.
        pose proof (properHeap_lookup h r c Hproper Hr) as Hc.
        apply properClass_iff in Hc. destruct Hc as (_ & _ & Hwithin).
        destruct (Hwithin o Ho) as (oc' & Hoc' & Hlies).
        rewrite Hoc in Hoc'. injection Hoc' as <-.
        pose proof (properHeap_lookup h o oc Hproper Hoc) as Hshape.
        apply properClass_iff in Hshape. destruct Hshape as ((Hsig & Hbody & Hend) & _).
        apply liesWithin_spec in Hlies.
        destruct (includes (classInterval c) index) eqn:Hin; [|reflexivity].
        apply includes_spec in Hin.
        assert (Hyes : includes (classInterval oc) index = true)
          by (apply includes_spec; lia).
        congruence.
      + rewrite Forall_forall in Hmiss.
        destruct (Hmiss r) as (c' & Hc' & Hout).
        { apply list_elem_of_In. apply Hroots. exists c. split; assumption. }
        congruence. }
  intros r c Hr. exact (Hup (maxExtent h - extent c)%nat r c Hr ltac:(lia)).
Qed.

(** X16: [findPointedClass] finds the comments of the text and then
    does what [findClasses] does on them. When [findClasses] throws, as
    it does on [commentedClassText], [findPointedClass] throws the same
    exception. When [findClasses] returns a store, [findPointedClass]
    returns, given fuel above the extent of the largest class: the class
    it returns spans the cursor and none of its inner classes does, and
    it returns [null] only when no class of the store spans the cursor. *)
Theorem findPointedClass_spec (fuel : nat) (code : text)
    (classMatches : list ClassMatch) (cursorIndex : Z) :
  exists allComments,
    findComments code = Return allComments
    /\ match findClasses code allComments classMatches with
       | Return (classes, h) =>
           (maxExtent h < fuel)%nat ->
           exists pointed,
             findPointedClass fuel code classMatches cursorIndex = Return (pointed, h)
             /\ match pointed with
                | Some x =>
                    exists cx, h !! x = Some cx
                               /\ includes (classInterval cx) cursorIndex = true
                               /\ Forall (misses h cursorIndex) (innerClasses cx)
                | None =>
                    forall r c, h !! r = Some c ->
                                includes (classInterval c) cursorIndex = false
                end
       | Throw e => findPointedClass fuel code classMatches cursorIndex = Throw e
       | OutOfFuel => False
       end.
Proof.
  destruct (findComments_total code) as (allComments & Hcomments & _).
  exists allComments. split; [exact Hcomments|].
  destruct (findClasses code allComments classMatches) as [[classes h]|e|] eqn:Hclasses.
  - intros Hfuel. unfold findPointedClass.
    rewrite Hcomments. simpl. rewrite Hclasses. simpl.
    unfold findClasses in Hclasses.
    destruct (parseClasses_forest code allComments _ _ [] h classes eq_refl
                ltac:(intros r c Hr; discriminate) Hclasses)
      as (Hproper & _ & _ & _ & Hroots).
    pose proof (parseClasses_roots code allComments _ _ [] h classes eq_refl
                  ltac:(intros r c Hr; discriminate) Hclasses) as Hall.
    destruct (pointedAmong_spec fuel h cursorIndex Hproper Hfuel classes)
      as (pointed & Hrun & Hspec).
    { eapply Forall_impl; [exact Hroots|]. simpl. intros r (_ & c & Hc & _).
      exists c. exact Hc. }
    exists pointed. rewrite Hrun. simpl. split; [reflexivity|].
    destruct pointed as [x|]; [exact Hspec|].
    apply (misses_all h cursorIndex classes Hproper); [|exact Hspec].
    intros r Hroot. apply Hall; [simpl; lia|exact Hroot].
  - unfold findPointedClass. rewrite Hcomments. simpl. rewrite Hclasses. reflexivity.
  - destruct (findClasses_proper code allComments classMatches) as (Hreturns & _).
    contradiction.
Qed.

Example findPointedClass_class_in_comment :
  findComments commentedClassText
  = Return [mkComment singleLine (mkTextInterval 23 40)]
  /\ findClasses commentedClassText [mkComment singleLine (mkTextInterval 23 40)]
                 commentedClassMatches
     = Throw NotAnInnerClass
  /\ findPointedClass 43 commentedClassText commentedClassMatches 12
     = Throw NotAnInnerClass.
Proof. repeat split; vm_compute; reflexivity. Qed.

Example findPointedClass_nested :
  findPointedClass 35 nestedText [mkClassMatch 0 8 "A"; mkClassMatch 10 8 "B"] 20
  = Return (Some 1%nat, nestedHeap).
Proof. vm_compute. reflexivity. Qed.

(** ** Class forest builder: one class for each match *)

Lemma splitInner_app (body : TextInterval) (classMatches : list ClassMatch) :
  classMatches
  = fst (splitInner body classMatches) ++ snd (splitInner body classMatches).
Proof.
  induction classMatches as [|m rest IH]; simpl; [reflexivity|].
  destruct (includes body (classIndex m)); simpl; [|reflexivity].
  destruct (splitInner body rest) as [inner others]. simpl in *. f_equal. exact IH.
Qed.

Lemma sameSource_trans (a b c : JavaClass) :
  sameSource a b -> sameSource b c -> sameSource a c.
Proof.
  unfold sameSource. intros (H1 & H2 & H3 & H4 & H5) (K1 & K2 & K3 & K4 & K5).
  repeat split; congruence.
Qed.

Lemma classOf_sameSource (code : text) (cs : list Comment) (m : ClassMatch)
    (c c' : JavaClass) :
  sameSource c c' -> classOf code cs m c -> classOf code cs m c'.
Proof.
  unfold sameSource, classOf. intros (H1 & H2 & H3 & H4 & H5).
  rewrite H1, H2, H3, H4, H5. intros Hc. exact Hc.
Qed.

Lemma add_keeps (this innerClass : ref) (h h' : heap) :
  properHeap h = true -> add this innerClass h = Return h' ->
  forall r c, h !! r = Some c -> exists c', h' !! r = Some c' /\ sameSource c c'.
Proof.
  intros Hproper Hadd r c Hr.
  pose proof (add_distinct this innerClass h h' Hproper Hadd) as Hne.
  destruct (add_inv this innerClass h h' Hne Hadd)
    as (self & inner & Hself & Hinner & _ & _ & ->).
  pose proof (lookup_lt_Some _ _ _ Hself) as Hlt.
  pose proof (lookup_lt_Some _ _ _ Hinner) as Hlt'.
  destruct (Nat.eq_dec r innerClass) as [->|Hri].
  - eexists. split; [apply list_lookup_insert_eq; rewrite length_insert; exact Hlt'|].
    rewrite Hinner in Hr. injection Hr as <-. repeat split.
  - destruct (Nat.eq_dec r this) as [->|Hrt].
    + eexists. split.
      * rewrite list_lookup_insert_ne by congruence.
        apply list_lookup_insert_eq. exact Hlt.
      * rewrite Hself in Hr. injection Hr as <-. repeat split.
    + exists c. split; [|repeat split].
      rewrite !list_lookup_insert_ne by congruence. exact Hr.
Qed.

Lemma addAll_keeps (javaClass : ref) (innerClasses : list ref) :
  forall (h h' : heap),
    properHeap h = true -> addAll javaClass innerClasses h = Return h' ->
    forall r c, h !! r = Some c -> exists c', h' !! r = Some c' /\ sameSource c c'.
Proof.
  induction innerClasses as [|x rest IH]; intros h h' Hproper; simpl.
  - intros [= <-] r c Hr. exists c. split; [exact Hr|repeat split].
  - destruct (add javaClass x h) as [h1| |] eqn:Hadd; simpl; try discriminate.
    intros Hrest r c Hr.
    destruct (add_keeps javaClass x h h1 Hproper Hadd r c Hr) as (c1 & Hc1 & Hsame1).
    destruct (IH h1 h' (add_proper javaClass x h h1 Hproper Hadd) Hrest r c1 Hc1)
      as (c' & Hc' & Hsame').
    exists c'. split; [exact Hc'|exact (sameSource_trans c c1 c' Hsame1 Hsame')].
Qed.

Lemma parseClasses_classes (code : text) (allComments : list Comment) (fuel : nat) :
  forall (classMatches : list ClassMatch) (h h' : heap) (classes : list ref),
    properHeap h = true -> linkedHeap h ->
    parseClasses fuel code allComments classMatches h = Return (classes, h') ->
    length h' = (length h + length classMatches)%nat
    /\ forall i m, classMatches !! i = Some m ->
                   exists c, h' !! (length h + i)%nat = Some c
                             /\ classOf code allComments m c.
Proof.
  induction fuel as [|fuel IH]; intros classMatches h h' classes Hproper Hlinked; simpl;
    [discriminate|].
  destruct classMatches as [|m rest].
  { intros [= <- <-]. split; [simpl; lia|]. intros i m Hm. discriminate. }
  destruct (moveToClosingBracket code _ allComments) as [bodyEnd| |] eqn:Hmove; simpl;
    try discriminate.
  destruct (TextInterval_of (classIndex m) _) as [sig| |] eqn:Hsig; simpl;
    try discriminate.
  destruct (TextInterval_of _ bodyEnd) as [body| |] eqn:Hbody; simpl;
    try discriminate.
  destruct (JavaClass_of (className m) sig body allComments h) as [[r h1]| |] eqn:Hof;
    simpl; try discriminate.
  pose proof (splitInner_app body rest) as Hsplit.
  destruct (splitInner body rest) as [inner others]. simpl in Hsplit.
  destruct (parseClasses fuel code allComments inner h1) as [[rs h2]| |] eqn:Hinner;
    simpl; try discriminate.
  destruct (addAll r rs h2) as [h3| |] eqn:Hadd; simpl; try discriminate.
  destruct (parseClasses fuel code allComments others h3) as [[rs' h4]| |] eqn:Hothers;
    simpl; try discriminate.
  intros [= <- <-].
  apply TextInterval_of_bounds in Hsig. destruct Hsig as (Hs1 & Hs2 & Hs3).
  apply TextInterval_of_bounds in Hbody. destruct Hbody as (Hb1 & Hb2 & Hb3).
  assert (Hproper1 : properHeap h1 = true).
  { apply (JavaClass_of_proper (className m) sig body allComments h h1 r Hproper);
      [lia|lia|exact Hof]. }
  unfold JavaClass_of, JavaClass_new in Hof.
  destruct (TextInterval_of (startIndex sig) (endIndex body)) as [cls| |] eqn:Hcls;
    simpl in Hof; try discriminate.
  apply TextInterval_of_bounds in Hcls. destruct Hcls as (Hcls1 & Hcls2 & Hcls3).
  injection Hof as <- <-.
  match goal with
  | _ : parseClasses fuel code allComments inner (h ++ [?c]) = _ |- _ =>
      set (created := c) in *
  end.
  assert (Hcreated : classOf code allComments m created).
  { unfold classOf, created. simpl.
    replace (classIndex m + classLength m) with (classIndex m + classLength m - 1 + 1)
      by lia.
    rewrite Hmove.
    destruct sig as [ss se], body as [bs be], cls as [s e]. simpl in *. subst.
    repeat split; try reflexivity. f_equal. lia. }
  assert (Hlinked1 : linkedHeap (h ++ [created])).
  { apply alloc_linked; [exact Hlinked|reflexivity|reflexivity]. }
  destruct (parseClasses_forest code allComments fuel _ _ _ _ Hproper1 Hlinked1 Hinner)
    as (Hproper2 & Hlinked2 & Hlen2 & Hframe2 & Hroots2).
  destruct (IH _ _ _ _ Hproper1 Hlinked1 Hinner) as (Hsize2 & Hclasses2).
  rewrite length_app in Hlen2, Hframe2, Hroots2, Hsize2, Hclasses2.
  simpl in Hlen2, Hframe2, Hroots2, Hsize2, Hclasses2.
  destruct (addAll_forest (length h) (length h) rs h2 h3 Hproper2 Hlinked2 ltac:(lia))
    as (Hlinked3 & Hlen3 & _); [|exact Hadd|].
  { eapply Forall_impl; [exact Hroots2|]. simpl. intros x (Hx & _). lia. }
  pose proof (addAll_proper _ _ _ _ Hproper2 Hadd) as Hproper3.
  pose proof (addAll_keeps _ _ _ _ Hproper2 Hadd) as Hkeeps3.
  destruct (parseClasses_forest code allComments fuel _ _ _ _ Hproper3 Hlinked3 Hothers)
    as (_ & _ & _ & Hframe4 & _).
  destruct (IH _ _ _ _ Hproper3 Hlinked3 Hothers) as (Hsize4 & Hclasses4).
  assert (Hrest : length rest = (length inner + length others)%nat).
  { rewrite Hsplit at 1. apply length_app. }
  split; [simpl; lia|].
  assert (Hlater : forall x c2, h2 !! x = Some c2 -> classOf code allComments m c2 ->
                     forall m', m' = m ->
                     exists c, h4 !! x = Some c /\ classOf code allComments m' c).
  { intros x c2 Hx Hclass m' ->. destruct (Hkeeps3 x c2 Hx) as (c3 & Hc3 & Hsame).
    exists c3. split; [|exact (classOf_sameSource _ _ _ _ _ Hsame Hclass)].
    rewrite Hframe4 by (apply lookup_lt_Some in Hc3; exact Hc3). exact Hc3. }
  intros i mi Hmi. destruct i as [|i]; simpl in Hmi.
  - injection Hmi as <-. rewrite Nat.add_0_r.
    apply (Hlater (length h) created); [|exact Hcreated|reflexivity].
    rewrite Hframe2 by lia. rewrite lookup_app_r by lia.
    rewrite Nat.sub_diag. reflexivity.
  - rewrite Hsplit in Hmi. apply lookup_app_Some in Hmi.
    destruct Hmi as [Hin|(Hge & Hout)].
    + destruct (Hclasses2 i mi Hin) as (c2 & Hc2 & Hclass).
      replace (length h + S i)%nat with (length h + 1 + i)%nat by lia.
      destruct (Hkeeps3 _ c2 Hc2) as (c3 & Hc3 & Hsame).
      exists c3. split; [|exact (classOf_sameSource _ _ _ _ _ Hsame Hclass)].
      rewrite Hframe4 by (apply lookup_lt_Some in Hc3; exact Hc3). exact Hc3.
    + destruct (Hclasses4 _ mi Hout) as (c & Hc & Hclass).
      exists c. split; [|exact Hclass].
      replace (length h + S i)%nat with (length h3 + (i - length inner))%nat by lia.
      exact Hc.
Qed.

(** X17: [findClasses] makes one class of each match, in the order of the
    matches: the class at position [i] of the store has the name that the
    match [i] captured, its signature is the text matched, its body goes
    from the index after the match to the index that
    [moveToClosingBracket] returns from there, and its comments are the
    comments that lie within the body. *)
Theorem findClasses_classes (code : text) (allComments : list Comment)
    (classMatches : list ClassMatch) (classes : list ref) (h : heap) :
  findClasses code allComments classMatches = Return (classes, h) ->
  length h = length classMatches
  /\ forall i m, classMatches !! i = Some m ->
                 exists c, h !! i = Some c /\ classOf code allComments m c.
Proof.
  unfold findClasses. intros Hrun.
  exact (parseClasses_classes code allComments _ _ [] h classes eq_refl
           ltac:(intros r c Hr; discriminate) Hrun).
Qed.

Lemma findClasses_classes_witness :
  length nestedHeap = length [mkClassMatch 0 8 "A"; mkClassMatch 10 8 "B"]
  /\ forall i m, [mkClassMatch 0 8 "A"; mkClassMatch 10 8 "B"] !! i = Some m ->
                 exists c, nestedHeap !! i = Some c /\ classOf nestedText [] m c.
Proof.
  apply (findClasses_classes nestedText []
           [mkClassMatch 0 8 "A"; mkClassMatch 10 8 "B"] [0%nat] nestedHeap).
  vm_compute. reflexivity.
Defined.

(** ** Field groups *)

Lemma groupLoop_spec (array : list string) (n : nat) : forall (i : nat),
  (length array - i <= n)%nat ->
  concat (groupLoop n array i) = drop i array
  /\ Forall (fun g => (1 <= length g <= 3)%nat) (groupLoop n array i).
Proof.
  induction n as [|n IH]; intros i Hn; simpl.
  - rewrite drop_ge by lia. split; [reflexivity|constructor].
  - destruct (Nat.ltb_spec i (length array)) as [Hlt|Hge].
    + destruct (IH (i + 3)%nat ltac:(lia)) as (Hcat & Hsizes).
      unfold sliceArray. replace (i + 3 - i)%nat with 3%nat by lia. split.
      * simpl. rewrite Hcat. rewrite <- (drop_drop array 3 i).
        apply take_drop.
      * constructor; [|exact Hsizes].
        rewrite length_take, length_drop. lia.
    + rewrite drop_ge by lia. split; [reflexivity|constructor].
Qed.

Lemma group_parts (array : list string) :
  concat (group array) = array
  /\ Forall (fun g => (length g <= 3)%nat) (group array)
  /\ (array <> [] -> Forall (fun g => g <> []) (group array)).
Proof.
  unfold group. destruct (Nat.ltb_spec (length array) 4) as [Hsmall|Hbig].
  - split; [simpl; apply app_nil_r|]. split; [constructor; [lia|constructor]|].
    intros Hne. constructor; [exact Hne|constructor].
  - destruct (Nat.eqb_spec (length array) 4) as [Hfour|Hmore].
    + unfold sliceArray. simpl. rewrite app_nil_r, drop_0. split.
      * rewrite <- (take_drop 2 array) at 3. f_equal.
        apply take_ge. rewrite length_drop. lia.
      * split.
        -- constructor; [rewrite length_take; lia|].
           constructor; [rewrite length_take; lia|constructor].
        -- intros _. constructor.
           ++ intros Hnil. apply (f_equal length) in Hnil.
              rewrite length_take in Hnil. cbn [length] in Hnil. lia.
           ++ constructor; [|constructor].
              intros Hnil. apply (f_equal length) in Hnil.
              rewrite length_take, length_drop in Hnil. cbn [length] in Hnil. lia.
    + destruct (groupLoop_spec array (length array) 0 ltac:(lia)) as (Hcat & Hsizes).
      rewrite drop_0 in Hcat. split; [exact Hcat|]. split.
      * eapply Forall_impl; [exact Hsizes|]. simpl. intros g Hg. lia.
      * intros _. eapply Forall_impl; [exact Hsizes|]. simpl. intros g Hg Hnil.
        rewrite Hnil in Hg. simpl in Hg. lia.
Qed.

(** X18: [group] loses no field and keeps their order: its groups, put
    end to end, are the array. No group holds more than three fields,
    and when the array is not empty, no group is empty. *)
Theorem group_spec (array : list string) :
  concat (group array) = array
  /\ Forall (fun g => (length g <= 3)%nat) (group array)
  /\ (array <> [] -> Forall (fun g => g <> []) (group array)).
Proof. exact (group_parts array). Qed.

Lemma concat_merge (sep a y : string) (rest : list string) :
  String.concat sep ((a ++ sep ++ y)%string :: rest)
  = (a ++ sep ++ String.concat sep (y :: rest))%string.
Proof.
  destruct rest as [|z rest]; [reflexivity|].
  change (String.concat sep ((a ++ sep ++ y)%string :: z :: rest))
    with ((a ++ sep ++ y) ++ sep ++ String.concat sep (z :: rest))%string.
  change (String.concat sep (y :: z :: rest))
    with (y ++ sep ++ String.concat sep (z :: rest))%string.
  rewrite !append_assoc. reflexivity.
Qed.

Lemma printLoop_join (sep : string) (rest : list string) :
  forall (acc x : string),
    fold_left (fun code field => (code ++ sep ++ field)%string) rest (acc ++ x)%string
    = (acc ++ String.concat sep (x :: rest))%string.
Proof.
  induction rest as [|y rest IH]; intros acc x; [reflexivity|].
  simpl fold_left. rewrite append_assoc. rewrite IH. rewrite concat_merge.
  reflexivity.
Qed.

(** X19: [printFieldGroup] writes the prefix, the fields of the group
    with the separator between them, and the suffix; on an empty group
    it writes [undefined] between the prefix and the suffix. The groups
    that [group] makes of an array that is not empty are never printed
    that way. *)
Theorem printFieldGroup_spec (fields : list string) (prefix separator suffix : string) :
  printFieldGroup fields prefix separator suffix
  = (prefix ++ match fields with
               | [] => "undefined"
               | _ => String.concat separator fields
               end ++ suffix)%string
  /\ forall array, array <> [] -> In fields (group array) ->
       printFieldGroup fields prefix separator suffix
       = (prefix ++ String.concat separator fields ++ suffix)%string.
Proof.
  assert (Hprint : printFieldGroup fields prefix separator suffix
                   = (prefix ++ match fields with
                                | [] => "undefined"
                                | _ => String.concat separator fields
                                end ++ suffix)%string).
  { unfold printFieldGroup. destruct fields as [|x rest].
    - simpl. rewrite append_assoc. reflexivity.
    - simpl drop. rewrite drop_0.
      change ((x :: rest) !! 0%nat) with (Some x).
      rewrite printLoop_join. rewrite append_assoc. reflexivity. }
  split; [exact Hprint|].
  intros array Hne Hin. rewrite Hprint.
  destruct (group_parts array) as (_ & _ & Hfull).
  specialize (Hfull Hne). rewrite Forall_forall in Hfull.
  destruct fields as [|x rest]; [|reflexivity].
  exfalso. apply (Hfull []); [apply list_elem_of_In; exact Hin|reflexivity].
Qed.

Example group_five :
  group ["a"; "b"; "c"; "d"; "e"]%string = [["a"; "b"; "c"]; ["d"; "e"]]%string
  /\ group ["a"; "b"; "c"; "d"]%string = [["a"; "b"]; ["c"; "d"]]%string
  /\ group [] = [[]].
Proof. repeat split. Qed.

(** ** Field *)






Example Field_of_generic_type :
  Field_of "MyClass" (js "Map<String, Integer> values 0")
  = mkField (Some (js "Integer>")) (Some (js "Map<String,")) "MyClass" none.
Proof. vm_compute. reflexivity. Qed.
